(** * A shallow embedding of the 21-2d-physics playground

    The repository is a React/TypeScript front end over the Matter.js
    rigid-body engine.  This development embeds the code the repository
    itself contains:

    - [lib/matter-config.ts]   the configuration constants,
    - [lib/shape-factory.ts]   the randomized shape constructors,
    - [hooks/use-matter.ts]    engine set-up, click handler, culling,
    - [components/physics-canvas.tsx]  collision flash, renderer, spawner.

    Conventions.  A JavaScript [number] is a real number ([R]); array
    indices produced by [Math.floor] are integers ([Z]).  The randomized
    sizes of the shape factory are embedded twice: once over the reals,
    and once with the binary64 rounding of every operation written out,
    for the properties that depend on it.  [Math.random()]
    is an explicit stream of draws threaded through a small state monad.
    Matter.js and the canvas 2D context are external: a body is the record
    of the fields this repository reads or writes, and the canvas is its
    current transformation matrix together with the list of shapes drawn
    so far, in device coordinates. *)

From Stdlib Require Import Reals Lra Lia ZArith List String Bool Arith.
Import ListNotations.

Open Scope R_scope.

(** ** Numbers, vectors, arrays *)

Module Vector.
Record t : Type := mk { x : R; y : R }.
End Vector.

Definition Math_floor (v : R) : Z := Zfloor v.

(** [arr[k]] for a numeric index: [undefined] (here [None]) outside the
    array. *)
Definition array_get {A : Type} (arr : list A) (k : Z) : option A :=
  if (k <? 0)%Z then None else nth_error arr (Z.to_nat k).

(** ** lib/matter-config.ts *)

Record PhysicsConfig : Type := {
  cfg_gravity : Vector.t;
  cfg_enableSleeping : bool;
  cfg_positionIterations : nat;
  cfg_velocityIterations : nat
}.

Definition PHYSICS_CONFIG : PhysicsConfig := {|
  cfg_gravity := Vector.mk 0 1;
  cfg_enableSleeping := true;
  cfg_positionIterations := 6;
  cfg_velocityIterations := 4
|}.

Record BodyDefaults : Type := {
  def_restitution : R;
  def_friction : R;
  def_frictionAir : R;
  def_density : R
}.

Definition BODY_DEFAULTS : BodyDefaults := {|
  def_restitution := 8 / 10;
  def_friction := 1 / 10;
  def_frictionAir := 1 / 100;
  def_density := 1 / 1000
|}.

Definition COLORS : list string :=
  [ "#FF00FF"; "#00FF00"; "#FFFF00"; "#00FFFF";
    "#FF6B00"; "#FF0080"; "#80FF00"; "#0080FF" ]%string.

Record StyleConfig : Type := {
  sty_lineWidth : R;
  sty_shadowOffset : R;
  sty_shadowColor : string;
  sty_strokeColor : string
}.

Definition STYLE_CONFIG : StyleConfig := {|
  sty_lineWidth := 1;
  sty_shadowOffset := 8;
  sty_shadowColor := "#000000";
  sty_strokeColor := "#000000"
|}.

Record CullingConfig : Type := { bufferZone : R }.

Definition CULLING_CONFIG : CullingConfig := {| bufferZone := 500 |}.

(** ** Matter.js bodies, as far as the repository touches them *)

Record Render : Type := {
  fillStyle : option string;       (* [None] is [undefined] *)
  strokeStyle : option string;
  lineWidth : R
}.

Record Body : Type := {
  label : string;
  isStatic : bool;
  position : Vector.t;
  angle : R;
  velocity : Vector.t;
  force : Vector.t;
  torque : R;
  circleRadius : option R;         (* set by [Bodies.circle] only *)
  vertices : list Vector.t;        (* world-space hull, kept by Matter *)
  restitution : R;
  friction : R;
  frictionAir : R;
  density : R;
  render : Render
}.

(** The shape descriptor handed to one of Matter's [Bodies.*]
    constructors. *)
Inductive Geometry : Type :=
| GCircle (radius : R)
| GRectangle (width height : R)
| GPolygon (sides : nat) (radius : R)
| GVertices (vertexSets : list (list Vector.t)).

(** The options object the repository passes to [Bodies.*]. *)
Record Options : Type := {
  opt_restitution : R;
  opt_friction : R;
  opt_frictionAir : R;
  opt_density : R;
  opt_angle : option R;
  opt_isStatic : bool;
  opt_label : string;
  opt_render : Render
}.

(** ** Math.random as a stream of draws *)

Definition Draws : Type := nat -> R.

Definition unit_draws (d : Draws) : Prop := forall n, 0 <= d n < 1.

Definition Rand (A : Type) : Type := Draws -> A * Draws.

Definition ret {A : Type} (a : A) : Rand A := fun d => (a, d).

Definition bind {A B : Type} (m : Rand A) (k : A -> Rand B) : Rand B :=
  fun d => let (a, d') := m d in k a d'.

Notation "x <- m ;; k" := (bind m (fun x => k))
  (at level 61, m at next level, right associativity).

Definition Math_random : Rand R :=
  fun d => (d 0%nat, fun n => d (S n)).

(** The stream left after [k] draws. *)
Definition skip (k : nat) (d : Draws) : Draws := fun n => d (k + n)%nat.

(** ** lib/shape-factory.ts *)

Definition getRandomColor : Rand (option string) :=
  u <- Math_random ;;
  ret (array_get COLORS (Math_floor (u * INR (List.length COLORS)))).

Definition randomInRange (min max : R) : Rand R :=
  u <- Math_random ;;
  ret (u * (max - min) + min).

Definition shapeOptions (a : option R) (color : option string) : Options := {|
  opt_restitution := def_restitution BODY_DEFAULTS;
  opt_friction := def_friction BODY_DEFAULTS;
  opt_frictionAir := def_frictionAir BODY_DEFAULTS;
  opt_density := def_density BODY_DEFAULTS;
  opt_angle := a;
  opt_isStatic := false;
  opt_label := "Body";
  opt_render := {| fillStyle := color;
                   strokeStyle := Some "#000000"%string;
                   lineWidth := 5 |}
|}.

Section ShapeFactory.

(** Matter's own geometry: the world-space vertex ring it computes for a
    shape descriptor placed at a position with an orientation.  It is
    library code outside this repository, so it stays a parameter. *)
Variable matter_vertices : Geometry -> Vector.t -> R -> list Vector.t.

Definition Bodies_create (g : Geometry) (px py : R) (o : Options) : Body :=
  let a := match opt_angle o with Some a => a | None => 0 end in
  {| label := opt_label o;
     isStatic := opt_isStatic o;
     position := Vector.mk px py;
     angle := a;
     velocity := Vector.mk 0 0;
     force := Vector.mk 0 0;
     torque := 0;
     circleRadius := match g with GCircle r => Some r | _ => None end;
     vertices := matter_vertices g (Vector.mk px py) a;
     restitution := opt_restitution o;
     friction := opt_friction o;
     frictionAir := opt_frictionAir o;
     density := opt_density o;
     render := opt_render o |}.

Definition Bodies_circle (px py radius : R) : Options -> Body :=
  Bodies_create (GCircle radius) px py.

Definition Bodies_rectangle (px py width height : R) : Options -> Body :=
  Bodies_create (GRectangle width height) px py.

Definition Bodies_polygon (px py : R) (sides : nat) (radius : R)
  : Options -> Body :=
  Bodies_create (GPolygon sides radius) px py.

Definition Bodies_fromVertices (px py : R) (vertexSets : list (list Vector.t))
  : Options -> Body :=
  Bodies_create (GVertices vertexSets) px py.

Definition createCircle (px py : R) : Rand Body :=
  radius <- randomInRange 20 50 ;;
  color <- getRandomColor ;;
  ret (Bodies_circle px py radius (shapeOptions None color)).

Definition createRectangle (px py : R) : Rand Body :=
  width <- randomInRange 30 80 ;;
  height <- randomInRange 30 80 ;;
  u <- Math_random ;;
  color <- getRandomColor ;;
  ret (Bodies_rectangle px py width height
         (shapeOptions (Some (u * PI * 2)) color)).

Definition createPolygon (px py : R) (sides : nat) : Rand Body :=
  radius <- randomInRange 25 45 ;;
  u <- Math_random ;;
  color <- getRandomColor ;;
  ret (Bodies_polygon px py sides radius
         (shapeOptions (Some (u * PI * 2)) color)).

Definition createTriangle (px py : R) : Rand Body := createPolygon px py 3.
Definition createPentagon (px py : R) : Rand Body := createPolygon px py 5.
Definition createHexagon (px py : R) : Rand Body := createPolygon px py 6.
Definition createOctagon (px py : R) : Rand Body := createPolygon px py 8.

(** The body of the [for] loop of [createStar], at index [i]. *)
Definition starVertex (outerRadius innerRadius angleStep : R) (i : nat)
  : Vector.t :=
  let radius := if (i mod 2 =? 0)%nat then outerRadius else innerRadius in
  let a := INR i * angleStep - PI / 2 in
  Vector.mk (cos a * radius) (sin a * radius).

Definition starVertices (outerRadius : R) (points : nat) : list Vector.t :=
  let innerRadius := outerRadius * (4 / 10) in
  let angleStep := (PI * 2) / (INR points * 2) in
  map (starVertex outerRadius innerRadius angleStep) (seq 0 (points * 2)).

Definition createStar (px py : R) (points : nat) : Rand Body :=
  outerRadius <- randomInRange 30 50 ;;
  let vs := starVertices outerRadius points in
  color <- getRandomColor ;;
  ret (Bodies_fromVertices px py [vs] (shapeOptions None color)).

Definition create5PointStar (px py : R) : Rand Body := createStar px py 5.
Definition create6PointStar (px py : R) : Rand Body := createStar px py 6.

(** The [for] loop of [createIrregularPolygon]: [n] iterations are left,
    the next index is [i]; every iteration makes one draw. *)
Fixpoint irregularLoop (baseRadius angleStep : R) (n i : nat)
  : Rand (list Vector.t) :=
  match n with
  | O => ret []
  | S n' =>
      f <- randomInRange (7 / 10) (13 / 10) ;;
      let radius := baseRadius * f in
      let a := INR i * angleStep in
      rest <- irregularLoop baseRadius angleStep n' (S i) ;;
      ret (Vector.mk (cos a * radius) (sin a * radius) :: rest)
  end.

Definition irregularVertexCount : Rand Z :=
  r <- randomInRange 4 8 ;;
  ret (Math_floor r).

Definition createIrregularPolygon (px py : R) : Rand Body :=
  vertexCount <- irregularVertexCount ;;
  baseRadius <- randomInRange 25 45 ;;
  let angleStep := (PI * 2) / IZR vertexCount in
  vs <- irregularLoop baseRadius angleStep (Z.to_nat vertexCount) 0 ;;
  color <- getRandomColor ;;
  ret (Bodies_fromVertices px py [vs] (shapeOptions None color)).

Definition ShapeFactory : Type := R -> R -> Rand Body.

Definition SHAPE_FACTORIES : list ShapeFactory :=
  [ createCircle; createRectangle; createTriangle; createPentagon;
    createHexagon; createOctagon; create5PointStar; create6PointStar;
    createIrregularPolygon ].

(** The selection logic of [createRandomShape], over any table of
    registered factories.  Calling the [undefined] that an index outside
    the table yields throws a [TypeError]: the result is [None]. *)
Definition selectShape (factories : list ShapeFactory) (px py : R)
  : Rand (option Body) :=
  u <- Math_random ;;
  match array_get factories (Math_floor (u * INR (List.length factories))) with
  | Some factory => b <- factory px py ;; ret (Some b)
  | None => ret None
  end.

Definition createRandomShape : R -> R -> Rand (option Body) :=
  selectShape SHAPE_FACTORIES.

End ShapeFactory.

(** ** IEEE-754 binary64 arithmetic

    A JavaScript [number] is a binary64 float, and [*], [+], [-] and [/]
    return the exact result rounded to the nearest float, ties going to the
    even mantissa.  Where a property of the shape factory depends on that
    rounding, the computation is embedded a second time with every
    rounding written out.  A float is the real number it denotes; overflow
    is left out, all magnitudes here staying far below [2^1024]. *)

Definition pow2 (e : Z) : R := powerRZ 2 e.

(** The nearest integer, ties to even. *)
Definition rne (r : R) : Z :=
  let f := Zfloor r in
  if Rlt_dec (r - IZR f) (1 / 2) then f
  else if Rlt_dec (1 / 2) (r - IZR f) then (f + 1)%Z
  else if Z.even f then f else (f + 1)%Z.

(** The exponent [e] with [2^e <= x < 2^(e+1)], for [x > 0]. *)
Definition binade (x : R) : Z := Zfloor (ln x / ln 2).

(** The exponent of the smallest subnormal. *)
Definition emin : Z := (-1074)%Z.

(** The exponent of the last mantissa bit of the floats around [x]: 53
    bits of mantissa, gradual underflow. *)
Definition cexp (x : R) : Z := Z.max (binade x - 52) emin.

Definition fl_pos (x : R) : R :=
  IZR (rne (x / pow2 (cexp x))) * pow2 (cexp x).

(** Rounding to binary64. *)
Definition fl (x : R) : R :=
  if Rlt_dec 0 x then fl_pos x
  else if Rlt_dec x 0 then - fl_pos (- x)
  else 0.

(** A decimal literal of the source denotes the nearest float. *)
Definition lit (x : R) : R := fl x.

Definition add64 (a b : R) : R := fl (a + b).
Definition sub64 (a b : R) : R := fl (a - b).
Definition mul64 (a b : R) : R := fl (a * b).
Definition div64 (a b : R) : R := fl (a / b).

(** [Math.PI]. *)
Definition PI64 : R := fl PI.

(** The largest float below 1, which [Math.random()] may return. *)
Definition lastDraw : R := 1 - pow2 (-53).

(** ** lib/shape-factory.ts, in binary64 arithmetic *)

Definition randomInRange64 (min max : R) : Rand R :=
  u <- Math_random ;;
  ret (add64 (mul64 u (sub64 max min)) min).

Definition irregularVertexCount64 : Rand Z :=
  r <- randomInRange64 4 8 ;;
  ret (Math_floor r).

Section ShapeFactory64.

Variable matter_vertices : Geometry -> Vector.t -> R -> list Vector.t.

(** [Math.cos] and [Math.sin]: the standard leaves their accuracy to the
    implementation, so they stay parameters. *)
Variable cos64 : R -> R.
Variable sin64 : R -> R.

Definition createCircle64 (px py : R) : Rand Body :=
  radius <- randomInRange64 20 50 ;;
  color <- getRandomColor ;;
  ret (Bodies_circle matter_vertices px py radius (shapeOptions None color)).

Definition createRectangle64 (px py : R) : Rand Body :=
  width <- randomInRange64 30 80 ;;
  height <- randomInRange64 30 80 ;;
  u <- Math_random ;;
  color <- getRandomColor ;;
  ret (Bodies_rectangle matter_vertices px py width height
         (shapeOptions (Some (mul64 (mul64 u PI64) 2)) color)).

Definition createPolygon64 (px py : R) (sides : nat) : Rand Body :=
  radius <- randomInRange64 25 45 ;;
  u <- Math_random ;;
  color <- getRandomColor ;;
  ret (Bodies_polygon matter_vertices px py sides radius
         (shapeOptions (Some (mul64 (mul64 u PI64) 2)) color)).

Definition createTriangle64 (px py : R) : Rand Body := createPolygon64 px py 3.
Definition createPentagon64 (px py : R) : Rand Body := createPolygon64 px py 5.
Definition createHexagon64 (px py : R) : Rand Body := createPolygon64 px py 6.
Definition createOctagon64 (px py : R) : Rand Body := createPolygon64 px py 8.

Definition starVertex64 (outerRadius innerRadius angleStep : R) (i : nat)
  : Vector.t :=
  let radius := if (i mod 2 =? 0)%nat then outerRadius else innerRadius in
  let a := sub64 (mul64 (INR i) angleStep) (div64 PI64 2) in
  Vector.mk (mul64 (cos64 a) radius) (mul64 (sin64 a) radius).

Definition starVertices64 (outerRadius : R) (points : nat) : list Vector.t :=
  let innerRadius := mul64 outerRadius (lit (4 / 10)) in
  let angleStep := div64 (mul64 PI64 2) (mul64 (INR points) 2) in
  map (starVertex64 outerRadius innerRadius angleStep) (seq 0 (points * 2)).

Definition createStar64 (px py : R) (points : nat) : Rand Body :=
  outerRadius <- randomInRange64 30 50 ;;
  let vs := starVertices64 outerRadius points in
  color <- getRandomColor ;;
  ret (Bodies_fromVertices matter_vertices px py [vs]
         (shapeOptions None color)).

Definition create5PointStar64 (px py : R) : Rand Body := createStar64 px py 5.
Definition create6PointStar64 (px py : R) : Rand Body := createStar64 px py 6.

(** The vertex that iteration [i] of [createIrregularPolygon] pushes when
    its factor is [f]. *)
Definition irregularVertex64 (baseRadius angleStep : R) (i : nat) (f : R)
  : Vector.t :=
  let radius := mul64 baseRadius f in
  let a := mul64 (INR i) angleStep in
  Vector.mk (mul64 (cos64 a) radius) (mul64 (sin64 a) radius).

Fixpoint irregularLoop64 (baseRadius angleStep : R) (n i : nat)
  : Rand (list Vector.t) :=
  match n with
  | O => ret []
  | S n' =>
      f <- randomInRange64 (lit (7 / 10)) (lit (13 / 10)) ;;
      rest <- irregularLoop64 baseRadius angleStep n' (S i) ;;
      ret (irregularVertex64 baseRadius angleStep i f :: rest)
  end.

Definition createIrregularPolygon64 (px py : R) : Rand Body :=
  vertexCount <- irregularVertexCount64 ;;
  baseRadius <- randomInRange64 25 45 ;;
  let angleStep := div64 (mul64 PI64 2) (IZR vertexCount) in
  vs <- irregularLoop64 baseRadius angleStep (Z.to_nat vertexCount) 0 ;;
  color <- getRandomColor ;;
  ret (Bodies_fromVertices matter_vertices px py [vs]
         (shapeOptions None color)).

End ShapeFactory64.

(** ** hooks/use-matter.ts *)

(** The constants of [matter-config.ts] that the hook can see, gathered so
    that the set-up can be studied at any value of the configuration. *)
Record Configuration : Type := {
  physics : PhysicsConfig;
  bodyDefaults : BodyDefaults;
  culling : CullingConfig
}.

Definition CONFIGURATION : Configuration := {|
  physics := PHYSICS_CONFIG;
  bodyDefaults := BODY_DEFAULTS;
  culling := CULLING_CONFIG
|}.

Record Engine : Type := {
  gravity : Vector.t;
  enableSleeping : bool;
  positionIterations : nat;
  velocityIterations : nat;
  world : list Body                (* [engine.world.bodies], in order *)
}.

Record Runner : Type := { enabled : bool }.

(** A reference to a body object (bodies are shared and mutated in
    place). *)
Definition Ref : Type := nat.

Record MouseConstraint : Type := {
  mc_stiffness : R;
  mc_body : option Ref             (* [mouseConstraint.body] *)
}.

Record Refs : Type := {
  engineRef : option Engine;
  runnerRef : option Runner;
  mouseConstraintRef : option MouseConstraint
}.

Definition Engine_create (g : Vector.t) (sleeping : bool) (pos vel : nat)
  : Engine :=
  {| gravity := g; enableSleeping := sleeping;
     positionIterations := pos; velocityIterations := vel; world := [] |}.

Definition Runner_create : Runner := {| enabled := false |}.

(** [Runner.run(runner, engine)] starts the loop. *)
Definition Runner_run (r : Runner) : Runner := {| enabled := true |}.

Definition World_add (e : Engine) (bs : list Body) : Engine :=
  {| gravity := gravity e; enableSleeping := enableSleeping e;
     positionIterations := positionIterations e;
     velocityIterations := velocityIterations e;
     world := world e ++ bs |}.

(** Options of a boundary wall; the coefficients it does not mention are
    Matter's defaults. *)
Definition wallOptions (name : string) : Options := {|
  opt_restitution := 0;
  opt_friction := 1 / 10;
  opt_frictionAir := 1 / 100;
  opt_density := 1 / 1000;
  opt_angle := None;
  opt_isStatic := true;
  opt_label := name;
  opt_render := {| fillStyle := Some "transparent"%string;
                   strokeStyle := None;
                   lineWidth := 0 |}
|}.

Section UseMatter.

Variable matter_vertices : Geometry -> Vector.t -> R -> list Vector.t.
Variable config : Configuration.

Definition walls (width height : nat) : list Body :=
  let wallThickness := 50 in
  let floor :=
    Bodies_rectangle matter_vertices (INR width / 2)
      (INR height - wallThickness / 2) (INR width) wallThickness
      (wallOptions "floor") in
  let leftWall :=
    Bodies_rectangle matter_vertices (- wallThickness / 2)
      (INR height / 2) wallThickness (INR height)
      (wallOptions "leftWall") in
  let rightWall :=
    Bodies_rectangle matter_vertices (INR width + wallThickness / 2)
      (INR height / 2) wallThickness (INR height)
      (wallOptions "rightWall") in
  [floor; leftWall; rightWall].

(** The body of the [useEffect] of [useMatter]: [canvas] tells whether
    [canvasRef.current] is set; the refs are left alone on an early
    return. *)
Definition useMatter_effect (canvas : bool) (width height : nat)
    (refs : Refs) : Refs :=
  if negb canvas then refs
  else if (width =? 0)%nat || (height =? 0)%nat then refs
  else
    let engine :=
      Engine_create (Vector.mk 0 (5 / 10))
        (cfg_enableSleeping (physics config))
        (cfg_positionIterations (physics config))
        (cfg_velocityIterations (physics config)) in
    let runner := Runner_run Runner_create in
    let engine := World_add engine (walls width height) in
    let mouseConstraint :=
      {| mc_stiffness := 5 / 100; mc_body := None |} in
    {| engineRef := Some engine;
       runnerRef := Some runner;
       mouseConstraintRef := Some mouseConstraint |}.

Definition addBody (refs : Refs) (b : Body) : Refs :=
  match engineRef refs with
  | Some e =>
      {| engineRef := Some (World_add e [b]);
         runnerRef := runnerRef refs;
         mouseConstraintRef := mouseConstraintRef refs |}
  | None => refs
  end.

(** *** Off-screen culling *)

Definition gtb (u v : R) : bool := if Rlt_dec v u then true else false.

Definition beyondThreshold (height : nat) (b : Body) : bool :=
  let cullThreshold := INR height + bufferZone (culling config) in
  negb (isStatic b) && gtb (Vector.y (position b)) cullThreshold.

(** [World.remove] takes out the very objects collected in
    [bodiesToRemove], that is, the entries the test selected. *)
Definition cullOffscreenBodies (height : nat) (bodies : list Body)
  : list Body :=
  let bodiesToRemove := filter (beyondThreshold height) bodies in
  if (0 <? List.length bodiesToRemove)%nat
  then filter (fun b => negb (beyondThreshold height b)) bodies
  else bodies.

Record Loop : Type := { frameCount : nat; loop_bodies : list Body }.

(** The [afterUpdate] listener, with the statement of its 60th-frame
    branch as a parameter. *)
Definition afterUpdate_with (slot : list Body -> list Body) (s : Loop)
  : Loop :=
  let fc := S (frameCount s) in
  if (60 <=? fc)%nat
  then {| frameCount := 0; loop_bodies := slot (loop_bodies s) |}
  else {| frameCount := fc; loop_bodies := loop_bodies s |}.

(** As committed, the call [cullOffscreenBodies()] in that branch is
    commented out: the branch only resets the counter. *)
Definition afterUpdate : Loop -> Loop := afterUpdate_with (fun bs => bs).

Fixpoint ticks (n : nat) (s : Loop) : Loop :=
  match n with
  | O => s
  | S n' => ticks n' (afterUpdate s)
  end.

End UseMatter.

(** *** Pointer interaction

    Bodies are objects shared between Matter, the mouse constraint and the
    listeners, so they live in a store addressed by reference. *)

Definition Store : Type := Ref -> Body.

Definition store_set (s : Store) (r : Ref) (b : Body) : Store :=
  fun r' => if (r' =? r)%nat then b else s r'.

(** [Matter.Body.applyForce(body, position, force)]. *)
Definition Body_applyForce (b : Body) (at_ : Vector.t) (f : Vector.t) : Body :=
  let ox := Vector.x at_ - Vector.x (position b) in
  let oy := Vector.y at_ - Vector.y (position b) in
  {| label := label b; isStatic := isStatic b; position := position b;
     angle := angle b; velocity := velocity b;
     force := Vector.mk (Vector.x (force b) + Vector.x f)
                        (Vector.y (force b) + Vector.y f);
     torque := torque b + (ox * Vector.y f - oy * Vector.x f);
     circleRadius := circleRadius b; vertices := vertices b;
     restitution := restitution b; friction := friction b;
     frictionAir := frictionAir b; density := density b;
     render := render b |}.

Definition clickForce : Vector.t := Vector.mk 0 (- (5 / 100)).

Record Pointer : Type := {
  bodies_of : Store;
  pressed : bool;                  (* [mouse.button === 0] *)
  under : option Ref;              (* the body under [mouse.position] *)
  held : option Ref;               (* [mouseConstraint.body] *)
  dragLog : list Ref;              (* bodies the constraint was attached to *)
  clickLog : list Ref              (* bodies the click force was applied to *)
}.

(** The [click] listener of [useMatter]. *)
Definition handleMouseClick (p : Pointer) : Pointer :=
  match held p with
  | Some r =>
      let body := bodies_of p r in
      if negb (isStatic body)
      then {| bodies_of :=
                store_set (bodies_of p) r
                  (Body_applyForce body (position body) clickForce);
              pressed := pressed p; under := under p; held := held p;
              dragLog := dragLog p; clickLog := r :: clickLog p |}
      else p
  | None => p
  end.

(** What the browser and Matter do around the listener.  On every engine
    tick Matter's [MouseConstraint.update] attaches the constraint to the
    body under a pressed pointer, keeps it while the button stays down, and
    clears [mouseConstraint.body] once the button is up. *)
Inductive PointerEvent : Type :=
| MouseDown (hit : option Ref)
| MouseMove (hit : option Ref)
| MouseUp
| BeforeUpdate
| Click.

Definition MouseConstraint_update (p : Pointer) : Pointer :=
  if pressed p then
    match held p with
    | Some _ => p
    | None =>
        match under p with
        | Some r =>
            {| bodies_of := bodies_of p; pressed := pressed p;
               under := under p; held := Some r;
               dragLog := r :: dragLog p; clickLog := clickLog p |}
        | None => p
        end
    end
  else
    {| bodies_of := bodies_of p; pressed := pressed p; under := under p;
       held := None; dragLog := dragLog p; clickLog := clickLog p |}.

Definition pointer_step (p : Pointer) (ev : PointerEvent) : Pointer :=
  match ev with
  | MouseDown hit =>
      {| bodies_of := bodies_of p; pressed := true; under := hit;
         held := held p; dragLog := dragLog p; clickLog := clickLog p |}
  | MouseMove hit =>
      {| bodies_of := bodies_of p; pressed := pressed p; under := hit;
         held := held p; dragLog := dragLog p; clickLog := clickLog p |}
  | MouseUp =>
      {| bodies_of := bodies_of p; pressed := false; under := under p;
         held := held p; dragLog := dragLog p; clickLog := clickLog p |}
  | BeforeUpdate => MouseConstraint_update p
  | Click => handleMouseClick p
  end.

Definition gesture (p : Pointer) (evs : list PointerEvent) : Pointer :=
  fold_left pointer_step evs p.

Definition idle (s : Store) : Pointer :=
  {| bodies_of := s; pressed := false; under := None; held := None;
     dragLog := []; clickLog := [] |}.

(** ** components/physics-canvas.tsx *)

(** *** Collision flash *)

Definition set_fillStyle (b : Body) (c : option string) : Body :=
  {| label := label b; isStatic := isStatic b; position := position b;
     angle := angle b; velocity := velocity b; force := force b;
     torque := torque b; circleRadius := circleRadius b;
     vertices := vertices b; restitution := restitution b;
     friction := friction b; frictionAir := frictionAir b;
     density := density b;
     render := {| fillStyle := c;
                  strokeStyle := strokeStyle (render b);
                  lineWidth := lineWidth (render b) |} |}.

(** A pending [setTimeout] callback of the flash: at [due] (milliseconds)
    it writes the captured [originalColor] back to the captured body. *)
Record Timer : Type := {
  due : nat;
  timer_body : Ref;
  originalColor : option string
}.

Record Page : Type := {
  page_bodies : Store;
  timers : list Timer;             (* in firing order *)
  clock : nat
}.

(** Timers fire by due time, and in the order they were set when due
    together. *)
Fixpoint setTimeout (t : Timer) (q : list Timer) : list Timer :=
  match q with
  | [] => [t]
  | t' :: q' =>
      if (due t' <=? due t)%nat then t' :: setTimeout t q' else t :: q
  end.

Definition flash (p : Page) (r : Ref) : Page :=
  let body := page_bodies p r in
  let saved := fillStyle (render body) in
  {| page_bodies :=
       store_set (page_bodies p) r (set_fillStyle body (Some "#FFFFFF"%string));
     timers :=
       setTimeout {| due := clock p + 100; timer_body := r;
                     originalColor := saved |} (timers p);
     clock := clock p |}.

Definition flashPair (p : Page) (pair : Ref * Ref) : Page :=
  let (bodyA, bodyB) := pair in
  let bodiesToFlash :=
    filter (fun r => negb (isStatic (page_bodies p r))) [bodyA; bodyB] in
  fold_left flash bodiesToFlash p.

(** [handleCollision(event)], on [event.pairs]. *)
Definition handleCollision (pairs : list (Ref * Ref)) (p : Page) : Page :=
  fold_left flashPair pairs p.

Definition fire (s : Store) (t : Timer) : Store :=
  store_set s (timer_body t) (set_fillStyle (s (timer_body t)) (originalColor t)).

(** Run every callback that is due at time [now]. *)
Fixpoint runDue (now : nat) (q : list Timer) (s : Store)
  : list Timer * Store :=
  match q with
  | [] => ([], s)
  | t :: q' =>
      if (due t <=? now)%nat then runDue now q' (fire s t) else (q, s)
  end.

(** Let the clock reach [now]. *)
Definition advance (now : nat) (p : Page) : Page :=
  let (q, s) := runDue now (timers p) (page_bodies p) in
  {| page_bodies := s; timers := q; clock := Nat.max now (clock p) |}.

(** *** The canvas 2D context

    The current transformation matrix maps user space to device space:
    [(x, y)] goes to [(a x + c y + e, b x + d y + f)].  Path points are
    transformed when they are added to the path; an arc keeps its
    user-space description together with the matrix in force. *)

Record Matrix : Type := { ma : R; mb : R; mc : R; md : R; me : R; mf : R }.

Definition identity : Matrix :=
  {| ma := 1; mb := 0; mc := 0; md := 1; me := 0; mf := 0 |}.

Definition transform (m : Matrix) (p : Vector.t) : Vector.t :=
  Vector.mk (ma m * Vector.x p + mc m * Vector.y p + me m)
            (mb m * Vector.x p + md m * Vector.y p + mf m).

Definition translated (m : Matrix) (tx ty : R) : Matrix :=
  {| ma := ma m; mb := mb m; mc := mc m; md := md m;
     me := ma m * tx + mc m * ty + me m;
     mf := mb m * tx + md m * ty + mf m |}.

Definition rotated (m : Matrix) (theta : R) : Matrix :=
  {| ma := ma m * cos theta + mc m * sin theta;
     mb := mb m * cos theta + md m * sin theta;
     mc := mc m * cos theta - ma m * sin theta;
     md := md m * cos theta - mb m * sin theta;
     me := me m; mf := mf m |}.

Inductive Segment : Type :=
| MoveTo (p : Vector.t)
| LineTo (p : Vector.t)
| Arc (m : Matrix) (cx cy radius startAngle endAngle : R)
| ClosePath.

Record Style : Type := {
  ctx_fillStyle : option string;
  ctx_strokeStyle : string;
  ctx_lineWidth : R;
  ctx_shadowColor : string;
  ctx_shadowOffsetX : R;
  ctx_shadowOffsetY : R;
  ctx_shadowBlur : R
}.

Inductive Drawn : Type :=
| Filled (path : list Segment) (st : Style)
| Stroked (path : list Segment) (st : Style).

Record Ctx : Type := {
  ctm : Matrix;
  style : Style;
  saved : list (Matrix * Style);
  path : list Segment;             (* most recent segment first *)
  drawn : list Drawn               (* most recent shape first *)
}.

Definition defaultStyle : Style :=
  {| ctx_fillStyle := Some "#000000"%string; ctx_strokeStyle := "#000000";
     ctx_lineWidth := 1; ctx_shadowColor := "rgba(0, 0, 0, 0)";
     ctx_shadowOffsetX := 0; ctx_shadowOffsetY := 0; ctx_shadowBlur := 0 |}.

Definition freshCtx : Ctx :=
  {| ctm := identity; style := defaultStyle; saved := []; path := [];
     drawn := [] |}.

Definition ctx_clear (c : Ctx) : Ctx :=
  {| ctm := ctm c; style := style c; saved := saved c; path := path c;
     drawn := [] |}.

Definition ctx_save (c : Ctx) : Ctx :=
  {| ctm := ctm c; style := style c; saved := (ctm c, style c) :: saved c;
     path := path c; drawn := drawn c |}.

Definition ctx_restore (c : Ctx) : Ctx :=
  match saved c with
  | [] => c
  | (m, st) :: rest =>
      {| ctm := m; style := st; saved := rest; path := path c;
         drawn := drawn c |}
  end.

Definition with_ctm (c : Ctx) (m : Matrix) : Ctx :=
  {| ctm := m; style := style c; saved := saved c; path := path c;
     drawn := drawn c |}.

Definition ctx_translate (c : Ctx) (tx ty : R) : Ctx :=
  with_ctm c (translated (ctm c) tx ty).

Definition ctx_rotate (c : Ctx) (theta : R) : Ctx :=
  with_ctm c (rotated (ctm c) theta).

Definition with_style (c : Ctx) (st : Style) : Ctx :=
  {| ctm := ctm c; style := st; saved := saved c; path := path c;
     drawn := drawn c |}.

Definition with_path (c : Ctx) (p : list Segment) : Ctx :=
  {| ctm := ctm c; style := style c; saved := saved c; path := p;
     drawn := drawn c |}.

Definition ctx_beginPath (c : Ctx) : Ctx := with_path c [].

Definition ctx_moveTo (c : Ctx) (px py : R) : Ctx :=
  with_path c (MoveTo (transform (ctm c) (Vector.mk px py)) :: path c).

Definition ctx_lineTo (c : Ctx) (px py : R) : Ctx :=
  with_path c (LineTo (transform (ctm c) (Vector.mk px py)) :: path c).

(** [arc] throws an [IndexSizeError] when the radius is negative; that is
    [None]. *)
Definition ctx_arc (c : Ctx) (cx cy radius startAngle endAngle : R)
  : option Ctx :=
  if Rlt_dec radius 0 then None
  else Some (with_path c (Arc (ctm c) cx cy radius startAngle endAngle
                            :: path c)).

Definition ctx_closePath (c : Ctx) : Ctx := with_path c (ClosePath :: path c).

Definition ctx_fill (c : Ctx) : Ctx :=
  {| ctm := ctm c; style := style c; saved := saved c; path := path c;
     drawn := Filled (rev (path c)) (style c) :: drawn c |}.

Definition ctx_stroke (c : Ctx) : Ctx :=
  {| ctm := ctm c; style := style c; saved := saved c; path := path c;
     drawn := Stroked (rev (path c)) (style c) :: drawn c |}.

(** *** The render loop *)

Definition falsy (s : option string) : bool :=
  match s with
  | None => true
  | Some s => (s =? "")%string
  end.

Definition brutalistColors : list string :=
  [ "#FF00FF"; "#00FF00"; "#FFFF00"; "#00FFFF";
    "#FF6B00"; "#FF0080"; "#80FF00"; "#0080FF" ]%string.

Definition bodyStyle (fill : option string) : Style :=
  {| ctx_fillStyle := fill;
     ctx_strokeStyle := sty_strokeColor STYLE_CONFIG;
     ctx_lineWidth := sty_lineWidth STYLE_CONFIG;
     ctx_shadowColor := sty_shadowColor STYLE_CONFIG;
     ctx_shadowOffsetX := sty_shadowOffset STYLE_CONFIG;
     ctx_shadowOffsetY := sty_shadowOffset STYLE_CONFIG;
     ctx_shadowBlur := 0 |}.

(** The polygon branch: [moveTo] the first vertex and [lineTo] the others,
    each given relative to [body.position].  Reading [vertices[0].x] of an
    empty array throws; that is [None]. *)
Definition drawPolygon (c : Ctx) (body : Body) : option Ctx :=
  match vertices body with
  | [] => None
  | v0 :: rest =>
      let px := Vector.x (position body) in
      let py := Vector.y (position body) in
      let c := ctx_beginPath c in
      let c := ctx_moveTo c (Vector.x v0 - px) (Vector.y v0 - py) in
      let c :=
        fold_left
          (fun c v => ctx_lineTo c (Vector.x v - px) (Vector.y v - py))
          rest c in
      let c := ctx_closePath c in
      let c := ctx_fill c in
      Some (ctx_stroke c)
  end.

(** The circle branch; [None] when [arc] throws. *)
Definition drawCircle (c : Ctx) (radius : R) : option Ctx :=
  let c := ctx_beginPath c in
  match ctx_arc c 0 0 radius 0 (PI * 2) with
  | None => None
  | Some c =>
      let c := ctx_fill c in
      Some (ctx_stroke c)
  end.

(** Is [body.circleRadius] truthy? *)
Definition circleOf (body : Body) : option R :=
  match circleRadius body with
  | Some r => if Req_dec_T r 0 then None else Some r
  | None => None
  end.

(** One iteration of [world.bodies.forEach] in [render]. *)
Definition renderBody (c : Ctx) (body : Body) : Rand (option (Ctx * Body)) :=
  if isStatic body then ret (Some (c, body))
  else
    let c := ctx_save c in
    let c :=
      ctx_translate c (Vector.x (position body)) (Vector.y (position body)) in
    let c := ctx_rotate c (angle body) in
    body <-
      (if falsy (fillStyle (render body))
       then
         u <- Math_random ;;
         ret (set_fillStyle body
                (array_get brutalistColors
                   (Math_floor (u * INR (List.length brutalistColors)))))
       else ret body) ;;
    let c := with_style c (bodyStyle (fillStyle (render body))) in
    match circleOf body with
    | Some radius =>
        match drawCircle c radius with
        | Some c => ret (Some (ctx_restore c, body))
        | None => ret None
        end
    | None =>
        match drawPolygon c body with
        | Some c => ret (Some (ctx_restore c, body))
        | None => ret None
        end
    end.

Fixpoint renderBodies (c : Ctx) (bodies : list Body)
  : Rand (option (Ctx * list Body)) :=
  match bodies with
  | [] => ret (Some (c, []))
  | body :: rest =>
      r <- renderBody c body ;;
      match r with
      | None => ret None
      | Some (c, body) =>
          r' <- renderBodies c rest ;;
          match r' with
          | None => ret None
          | Some (c, rest) => ret (Some (c, body :: rest))
          end
      end
  end.

(** One frame: clear, then draw every body of the world. *)
Definition renderFrame (c : Ctx) (bodies : list Body)
  : Rand (option (Ctx * list Body)) :=
  renderBodies (ctx_clear c) bodies.

(** *** Spawning *)

Definition Body_setVelocity (b : Body) (v : Vector.t) : Body :=
  {| label := label b; isStatic := isStatic b; position := position b;
     angle := angle b; velocity := v; force := force b; torque := torque b;
     circleRadius := circleRadius b; vertices := vertices b;
     restitution := restitution b; friction := friction b;
     frictionAir := frictionAir b; density := density b;
     render := render b |}.

Section Spawn.

Variable matter_vertices : Geometry -> Vector.t -> R -> list Vector.t.

(** The [for] loop of the spawn effect, [n] iterations left. *)
Fixpoint spawnLoop (n : nat) (width : nat) (refs : Refs)
  : Rand (option Refs) :=
  match n with
  | O => ret (Some refs)
  | S n' =>
      u <- Math_random ;;
      let px := u * INR width in
      let py := - 50 in
      shape <- createRandomShape matter_vertices px py ;;
      match shape with
      | None => ret None
      | Some shape =>
          ux <- Math_random ;;
          uy <- Math_random ;;
          let initialVelocity :=
            Vector.mk ((ux - 5 / 10) * 2) (uy * 2) in
          let shape := Body_setVelocity shape initialVelocity in
          spawnLoop n' width (addBody refs shape)
      end
  end.

Definition spawnNumber (u : R) : Z := (Math_floor (u * 21) + 30)%Z.

(** The spawn [useEffect]; [None] is an uncaught exception. *)
Definition spawnEffect (spawnCount : nat) (canvas : bool)
    (width height : nat) (refs : Refs) : Rand (option Refs) :=
  if (spawnCount =? 0)%nat then ret (Some refs)
  else if negb canvas then ret (Some refs)
  else if (width =? 0)%nat || (height =? 0)%nat then ret (Some refs)
  else
    u <- Math_random ;;
    let count := spawnNumber u in
    spawnLoop (Z.to_nat count) width refs.

End Spawn.

(** ** Vocabulary of the statements *)

(** The vertex that iteration [i] of [createIrregularPolygon] pushes when
    its draw is [u]. *)
Definition irregularVertex (baseRadius angleStep : R) (i : nat) (u : R)
  : Vector.t :=
  let radius := baseRadius * (u * (13 / 10 - 7 / 10) + 7 / 10) in
  Vector.mk (cos (INR i * angleStep) * radius)
            (sin (INR i * angleStep) * radius).

(** A factory puts the body where it is told and leaves the draws in
    [[0,1)]. *)
Definition places (f : ShapeFactory) : Prop :=
  forall px py d,
    unit_draws d ->
    position (fst (f px py d)) = Vector.mk px py /\
    unit_draws (snd (f px py d)).

(** Where the spawner is meant to put a body. *)
Definition placedAtTop (width : nat) (b : Body) : Prop :=
  Vector.y (position b) = - 50 /\
  0 <= Vector.x (position b) < INR width.

(** Concrete data for the examples: a geometry that yields no vertices,
    the refs before any effect has run, and a mounted 800 x 600 canvas. *)
Definition no_vertices : Geometry -> Vector.t -> R -> list Vector.t :=
  fun _ _ _ => [].

Definition noRefs : Refs :=
  {| engineRef := None; runnerRef := None; mouseConstraintRef := None |}.

Definition readyRefs : Refs :=
  useMatter_effect no_vertices CONFIGURATION true 800 600 noRefs.

Definition readyEngine : Engine :=
  World_add
    (Engine_create (Vector.mk 0 (5 / 10))
       (cfg_enableSleeping PHYSICS_CONFIG)
       (cfg_positionIterations PHYSICS_CONFIG)
       (cfg_velocityIterations PHYSICS_CONFIG))
    (walls no_vertices 800 600).

(** The loop is running. *)
Definition started (refs : Refs) : Prop :=
  exists r, runnerRef refs = Some r /\ enabled r = true.

(** A coefficient outside its documented range: restitution and friction
    outside [[0,1]], negative air friction or density. *)
Definition out_of_range (c : Configuration) : Prop :=
  let b := bodyDefaults c in
  def_restitution b < 0 \/ 1 < def_restitution b \/
  def_friction b < 0 \/ 1 < def_friction b \/
  def_frictionAir b < 0 \/ def_density b < 0.

Definition badConfiguration : Configuration := {|
  physics := PHYSICS_CONFIG;
  bodyDefaults := {| def_restitution := 2; def_friction := 1 / 10;
                     def_frictionAir := 1 / 100; def_density := - 1 |};
  culling := CULLING_CONFIG
|}.

(** A dynamic body with the factory's coefficients, for the examples. *)
Definition sampleBody (px py a : R) (radius : option R)
    (vs : list Vector.t) (fill : option string) : Body :=
  {| label := "Body"; isStatic := false; position := Vector.mk px py;
     angle := a; velocity := Vector.mk 0 0; force := Vector.mk 0 0;
     torque := 0; circleRadius := radius; vertices := vs;
     restitution := 8 / 10; friction := 1 / 10; frictionAir := 1 / 100;
     density := 1 / 1000;
     render := {| fillStyle := fill; strokeStyle := Some "#000000"%string;
                  lineWidth := 5 |} |}.

(** While the constraint holds a body, that body is in the drag log, and
    every body in the click log is in the drag log. *)
Definition drag_covers (p : Pointer) : Prop :=
  (forall r, held p = Some r -> In r (dragLog p)) /\
  incl (clickLog p) (dragLog p).

(** A store in which every reference holds a magenta dynamic circle. *)
Definition sampleStore : Store :=
  fun _ => sampleBody 400 300 0 (Some 30) [] (Some "#FF00FF"%string).

(** Two stores that differ at most in the fill colour of non-static
    bodies. *)
Definition only_fill (s s' : Store) : Prop :=
  forall r,
    s' r = set_fillStyle (s r) (fillStyle (render (s' r))) /\
    (isStatic (s r) = true -> s' r = s r).

(** That store at time 0, with no timer pending. *)
Definition restingPage : Page :=
  {| page_bodies := sampleStore; timers := []; clock := 0 |}.

(** [v - body.position], the coordinates [render] passes to [moveTo] and
    [lineTo]. *)
Definition offset (body : Body) (v : Vector.t) : Vector.t :=
  Vector.mk (Vector.x v - Vector.x (position body))
            (Vector.y v - Vector.y (position body)).

(** The matrix in force while [render] draws [body]. *)
Definition bodyMatrix (c : Ctx) (body : Body) : Matrix :=
  rotated
    (translated (ctm c) (Vector.x (position body)) (Vector.y (position body)))
    (angle body).

(** The world-space point [v] turned by [theta] about [centre]. *)
Definition turnedAbout (centre : Vector.t) (theta : R) (v : Vector.t)
  : Vector.t :=
  let dx := Vector.x v - Vector.x centre in
  let dy := Vector.y v - Vector.y centre in
  Vector.mk (Vector.x centre + (cos theta * dx - sin theta * dy))
            (Vector.y centre + (sin theta * dx + cos theta * dy)).

(** The closed path through the body's vertices, each taken relative to
    [body.position] and mapped by [m]. *)
Definition polygonPath (m : Matrix) (body : Body) : list Segment :=
  match vertices body with
  | [] => []
  | v0 :: rest =>
      MoveTo (transform m (offset body v0))
      :: map (fun v => LineTo (transform m (offset body v))) rest
      ++ [ClosePath]
  end.

(** The points a path visits with [moveTo] and [lineTo]. *)
Fixpoint pathPoints (p : list Segment) : list Vector.t :=
  match p with
  | [] => []
  | MoveTo v :: p' => v :: pathPoints p'
  | LineTo v :: p' => v :: pathPoints p'
  | _ :: p' => pathPoints p'
  end.

(** The body [Bodies.rectangle(100, 100, 4, 2, { angle: PI / 2 })]: two
    wide and four high in the world. *)
Definition uprightRectangle : Body :=
  sampleBody 100 100 (PI / 2) None
    [ Vector.mk 101 98; Vector.mk 101 102; Vector.mk 99 102; Vector.mk 99 98 ]
    (Some "#FF00FF"%string).

(** ** components/neubrutalist-toggle.tsx and app/page.tsx

    The page keeps [spawnCount]; the toggle keeps [isActive] and, in
    [timeoutRef], the id of its pending reset.  The browser's timers are
    a list of ids with their due times (milliseconds); ids are handed out
    from 1 upwards, so an id is truthy. *)

Record App : Type := {
  page_spawnCount : nat;
  isActive : bool;
  timeoutRef : option nat;
  pendingResets : list (nat * nat);
  nextTimer : nat
}.

Definition initialApp : App :=
  {| page_spawnCount := 0; isActive := false; timeoutRef := None;
     pendingResets := []; nextTimer := 1 |}.

(** [handleSpawn] of the page: [setSpawnCount((prev) => prev + 1)]. *)
Definition handleSpawn (count : nat) : nat := (count + 1)%nat.

Definition clearTimeout (id : nat) (q : list (nat * nat)) : list (nat * nat) :=
  filter (fun t => negb (fst t =? id)%nat) q.

(** [handleClick] of the toggle, at time [now]. *)
Definition handleClick (now : nat) (a : App) : App :=
  let q :=
    match timeoutRef a with
    | Some id => if (id =? 0)%nat then pendingResets a
                 else clearTimeout id (pendingResets a)
    | None => pendingResets a
    end in
  {| page_spawnCount := handleSpawn (page_spawnCount a);
     isActive := true;
     timeoutRef := Some (nextTimer a);
     pendingResets := q ++ [(nextTimer a, now + 300)%nat];
     nextTimer := S (nextTimer a) |}.

(** The reset callback: [setIsActive(false); timeoutRef.current = null]. *)
Definition resetToggle (a : App) (id : nat) : App :=
  {| page_spawnCount := page_spawnCount a;
     isActive := false;
     timeoutRef := None;
     pendingResets := clearTimeout id (pendingResets a);
     nextTimer := nextTimer a |}.

(** Time reaches [now]: every reset that is due runs. *)
Definition elapse (now : nat) (a : App) : App :=
  fold_left resetToggle
    (map fst (filter (fun t => (snd t <=? now)%nat) (pendingResets a))) a.

Inductive AppEvent : Type :=
| Clicked (now : nat)
| Elapsed (now : nat).

Definition app_step (a : App) (ev : AppEvent) : App :=
  match ev with
  | Clicked now => handleClick now a
  | Elapsed now => elapse now a
  end.

Definition runApp (evs : list AppEvent) : App :=
  fold_left app_step evs initialApp.

Definition clicks (evs : list AppEvent) : nat :=
  List.length
    (filter (fun ev => match ev with Clicked _ => true | Elapsed _ => false end)
       evs).

(** The toggle is at rest, or active with exactly one reset pending, the
    one [timeoutRef] names. *)
Definition toggle_ok (a : App) : Prop :=
  (1 <= nextTimer a)%nat /\
  ((isActive a = false /\ timeoutRef a = None /\ pendingResets a = [])
   \/ exists id due,
        isActive a = true /\ timeoutRef a = Some id /\
        pendingResets a = [(id, due)] /\ (1 <= id < nextTimer a)%nat).

(** ** Further vocabulary *)

(** The stream [d'] is [d] after exactly [k] draws. *)
Definition consumes (k : nat) (d d' : Draws) : Prop :=
  forall m, d' m = d (k + m)%nat.

(** What the options of [shape-factory.ts] give every body: it is dynamic
    and at rest, carries the coefficients of [BODY_DEFAULTS], a fill colour
    of the palette, a black stroke and a line width of 5. *)
Definition factoryMade (b : Body) : Prop :=
  isStatic b = false /\
  velocity b = Vector.mk 0 0 /\ force b = Vector.mk 0 0 /\ torque b = 0 /\
  restitution b = 8 / 10 /\ friction b = 1 / 10 /\
  frictionAir b = 1 / 100 /\ density b = 1 / 1000 /\
  (exists c, fillStyle (render b) = Some c /\ In c COLORS) /\
  strokeStyle (render b) = Some "#000000"%string /\
  lineWidth (render b) = 5.

(** The factory [f] makes such a body out of between [lo] and [hi]
    draws. *)
Definition produces (lo hi : nat) (f : ShapeFactory) : Prop :=
  forall px py d,
    unit_draws d ->
    exists k,
      (lo <= k <= hi)%nat /\
      factoryMade (fst (f px py d)) /\
      position (fst (f px py d)) = Vector.mk px py /\
      consumes k d (snd (f px py d)).

(** A body as the spawn effect leaves it: dynamic, at the top of a canvas
    of the given width, with the initial velocity of the effect and a fill
    colour of the palette. *)
Definition spawned (width : nat) (b : Body) : Prop :=
  isStatic b = false /\
  Vector.y (position b) = - 50 /\
  0 <= Vector.x (position b) < INR width /\
  - 1 <= Vector.x (velocity b) < 1 /\
  0 <= Vector.y (velocity b) < 2 /\
  exists c, fillStyle (render b) = Some c /\ In c COLORS.

(** Two engines with the same settings (their worlds may differ). *)
Definition same_settings (e e' : Engine) : Prop :=
  gravity e' = gravity e /\ enableSleeping e' = enableSleeping e /\
  positionIterations e' = positionIterations e /\
  velocityIterations e' = velocityIterations e.

(** The bodies named by the pairs of a collision event, in the order the
    handler visits them. *)
Definition refs_of (pairs : list (Ref * Ref)) : list Ref :=
  flat_map (fun pair : Ref * Ref => [fst pair; snd pair]) pairs.

(** The timer a flash of [r] sets on page [p]. *)
Definition flashTimer (p : Page) (r : Ref) : Timer :=
  {| due := clock p + 100; timer_body := r;
     originalColor := fillStyle (render (page_bodies p r)) |}.

(** A page whose bodies 8 and up are walls and whose other bodies are
    magenta dynamic circles. *)
Definition wallsPage : Page :=
  {| page_bodies :=
       fun r =>
         if (8 <=? r)%nat
         then Bodies_rectangle no_vertices 400 575 800 50 (wallOptions "floor")
         else sampleStore r;
     timers := []; clock := 0 |}.

(** [render] gives a random colour to a body when it is drawn and its
    fill style is falsy. *)
Definition needsColor (b : Body) : bool :=
  negb (isStatic b) && falsy (fillStyle (render b)).

(** The body after that, when the draw is [u]. *)
Definition colored (u : R) (b : Body) : Body :=
  set_fillStyle b
    (array_get brutalistColors
       (Math_floor (u * INR (List.length brutalistColors)))).

(** A drawn body on which [render] throws: a circle of negative radius
    ([arc] refuses it), or a body that is no circle and has no vertex
    ([vertices[0].x] is read). *)
Definition unrenderable (b : Body) : bool :=
  negb (isStatic b)
  && match circleOf b with
     | Some radius => if Rlt_dec radius 0 then true else false
     | None => match vertices b with [] => true | _ :: _ => false end
     end.

(** What [render] may do to a body: change its fill style, and only when
    it needed a colour. *)
Definition recolored (b b' : Body) : Prop :=
  b' = set_fillStyle b (fillStyle (render b')) /\
  (needsColor b = false -> b' = b).

(** Everything of a body that the physics works with. *)
Definition physicalState (b : Body)
  : bool * Vector.t * R * Vector.t * Vector.t * R * option R
    * list Vector.t * (R * R * R * R) :=
  (isStatic b, position b, angle b, velocity b, force b, torque b,
   circleRadius b, vertices b,
   (restitution b, friction b, frictionAir b, density b)).

(** * Properties *)

(** ** Arithmetic of [Math.floor] on scaled draws *)

Lemma floor_iff (v : R) (k : Z) :
  Math_floor v = k <-> IZR k <= v < IZR k + 1.
Proof.
  unfold Math_floor; split.
  - intros <-. apply Zfloor_bound.
  - apply Zfloor_eq.
Qed.

Lemma div_bounds (u n k : R) :
  0 < n -> (k / n <= u < (k + 1) / n <-> k <= u * n < k + 1).
Proof.
  intros Hn.
  assert (Hk : forall c, c / n * n = c) by (intros c; field; lra).
  split; intros [H1 H2]; split.
  - rewrite <- (Hk k). apply Rmult_le_compat_r; lra.
  - rewrite <- (Hk (k + 1)). apply Rmult_lt_compat_r; lra.
  - apply Rmult_le_reg_r with n; [lra | now rewrite Hk].
  - apply Rmult_lt_reg_r with n; [lra | now rewrite Hk].
Qed.

Lemma floor_scaled (u : R) (n : nat) (k : nat) :
  (0 < n)%nat ->
  (Math_floor (u * INR n) = Z.of_nat k
   <-> INR k / INR n <= u < (INR k + 1) / INR n).
Proof.
  intros Hn.
  assert (0 < INR n) by (apply lt_0_INR; exact Hn).
  rewrite floor_iff, <- INR_IZR_INZ, div_bounds by assumption.
  reflexivity.
Qed.

Lemma floor_scaled_range (u : R) (n : nat) :
  0 <= u < 1 -> (0 < n)%nat ->
  (0 <= Math_floor (u * INR n) < Z.of_nat n)%Z.
Proof.
  intros Hu Hn.
  assert (Hpos : 0 < INR n) by (apply lt_0_INR; exact Hn).
  pose proof (Zfloor_bound (u * INR n)) as Hb. unfold Math_floor.
  split.
  - apply Zfloor_lub. simpl. nra.
  - apply lt_IZR. rewrite <- INR_IZR_INZ. nra.
Qed.

Lemma array_get_nat {A : Type} (arr : list A) (k : nat) :
  array_get arr (Z.of_nat k) = nth_error arr k.
Proof.
  unfold array_get.
  destruct (Z.ltb_spec (Z.of_nat k) 0) as [Hneg | _]; [lia |].
  now rewrite Nat2Z.id.
Qed.

Lemma unit_draws_tail (d : Draws) :
  unit_draws d -> unit_draws (fun n => d (S n)).
Proof. intros H n. apply H. Qed.

Lemma zero_draws_unit : unit_draws (fun _ => 0).
Proof. intros n. lra. Qed.

(** ** Shape selection (C7) *)

Section Selection.

Variable matter_vertices : Geometry -> Vector.t -> R -> list Vector.t.

Lemma SHAPE_FACTORIES_length :
  List.length (SHAPE_FACTORIES matter_vertices) = 9%nat.
Proof. reflexivity. Qed.

(** Every draw falls in the slot of exactly one registered factory. *)
Lemma selectShape_total (factories : list ShapeFactory) (d : Draws) :
  unit_draws d -> factories <> [] ->
  exists k factory,
    nth_error factories k = Some factory /\
    Math_floor (d 0%nat * INR (List.length factories)) = Z.of_nat k.
Proof.
  intros Hd Hne.
  assert (Hn : (0 < List.length factories)%nat)
    by (destruct factories; [congruence | simpl; lia]).
  destruct (floor_scaled_range (d 0%nat) _ (Hd 0%nat) Hn) as [H0 H1].
  set (z := Math_floor _) in *.
  exists (Z.to_nat z).
  destruct (nth_error factories (Z.to_nat z)) as [f |] eqn:E.
  - exists f. split; [reflexivity | lia].
  - apply nth_error_None in E. lia.
Qed.


End Selection.

(** ** Stars (C8) *)

Lemma even_mod2 (i : nat) : (i mod 2 =? 0)%nat = Nat.even i.
Proof.
assert (H : (i mod 2 =? 0)%nat = Nat.even i /\
            (S i mod 2 =? 0)%nat = Nat.even (S i)).
{ induction i as [| i [IH1 IH2]]; [split; reflexivity |].
  split; [exact IH2 |].
  replace (S (S i)) with (i + 1 * 2)%nat by lia.
  rewrite Nat.Div0.mod_add, IH1.
  replace (i + 1 * 2)%nat with (S (S i)) by lia. reflexivity. }
exact (proj1 H).
Qed.

Lemma starVertices_length (outerRadius : R) (points : nat) :
  List.length (starVertices outerRadius points) = (2 * points)%nat.
Proof.
unfold starVertices. rewrite length_map, length_seq. lia.
Qed.

Lemma starVertices_nth (outerRadius : R) (points i : nat) :
  (i < 2 * points)%nat ->
  nth_error (starVertices outerRadius points) i
  = Some (starVertex outerRadius (outerRadius * (4 / 10))
            ((PI * 2) / (INR points * 2)) i).
Proof.
intros Hi. unfold starVertices.
rewrite nth_error_map, nth_error_seq.
destruct (Nat.ltb_spec i (points * 2)) as [_ | Hge]; [reflexivity | lia].
Qed.

Section Stars.

Variable matter_vertices : Geometry -> Vector.t -> R -> list Vector.t.

(** C8. [createStar(x, y, points)] hands [Bodies.fromVertices] one vertex
    set of exactly [2 * points] vertices.  Vertex [i] lies at the angle
    [i * (2 pi / (2 points)) - pi / 2], so the angles are equally spaced
    and the first vertex is the top one, [(0, - outerRadius)]; its radius
    is the outer radius for even [i] and the inner radius, 0.4 times the
    outer one, for odd [i]. *)
Theorem createStar_vertices (px py : R) (points : nat) (d : Draws) (i : nat) :
  (i < 2 * points)%nat ->
  let outerRadius := d 0%nat * (50 - 30) + 30 in
  let innerRadius := outerRadius * (4 / 10) in
  let angleStep := 2 * PI / (2 * INR points) in
  let vs := starVertices outerRadius points in
  (exists color,
     fst (createStar matter_vertices px py points d)
     = Bodies_fromVertices matter_vertices px py [vs]
         (shapeOptions None color)) /\
  List.length vs = (2 * points)%nat /\
  nth_error vs i
  = Some (Vector.mk
            (cos (INR i * angleStep - PI / 2)
             * (if Nat.even i then outerRadius else innerRadius))
            (sin (INR i * angleStep - PI / 2)
             * (if Nat.even i then outerRadius else innerRadius))) /\
  nth_error vs 0 = Some (Vector.mk 0 (- outerRadius)).
Proof.
intros Hi outerRadius innerRadius angleStep vs.
assert (Hstep : (PI * 2) / (INR points * 2) = angleStep).
{ unfold angleStep. f_equal; ring. }
split; [| split; [| split]].
- eexists. unfold createStar, bind, randomInRange, getRandomColor,
    Math_random, ret. cbn. reflexivity.
- apply starVertices_length.
- unfold vs. rewrite starVertices_nth by exact Hi.
  unfold starVertex. rewrite even_mod2, Hstep. reflexivity.
- unfold vs. rewrite starVertices_nth by lia.
  unfold starVertex. cbn [Nat.modulo Nat.divmod Nat.eqb fst snd Nat.sub INR].
  f_equal.
  replace (0 * (PI * 2 / (INR points * 2)) - PI / 2) with (- (PI / 2))
    by (unfold Rdiv; ring).
  rewrite cos_neg, sin_neg, cos_PI2, sin_PI2. f_equal; ring.
Qed.

End Stars.

Lemma createStar_vertices_witness :
  (0 < 2 * 5)%nat /\
  nth_error (starVertices ((fun _ : nat => 0) 0%nat * (50 - 30) + 30) 5) 0
  = Some (Vector.mk 0 (- ((fun _ : nat => 0) 0%nat * (50 - 30) + 30))).
Proof.
split; [lia |].
apply (createStar_vertices no_vertices 100 (-50) 5 (fun _ => 0) 0).
lia.
Defined.


(** ** Randomized sizes (C9) *)

(** The loop and the vertex count of [createIrregularPolygon] over the
    reals, where the count stays below 8. *)
Lemma irregularLoop_run (baseRadius angleStep : R) (n : nat) :
  forall (i : nat) (d : Draws),
    irregularLoop baseRadius angleStep n i d
    = (map (fun j => irregularVertex baseRadius angleStep (i + j) (d j))
         (seq 0 n),
       fun k => d (n + k)%nat).
Proof.
induction n as [| n IH]; intros i d.
- reflexivity.
- cbn [irregularLoop]. unfold bind at 1. unfold randomInRange at 1.
  unfold bind at 1. unfold Math_random at 1. unfold ret at 1.
  unfold bind at 1. rewrite IH. unfold ret.
  cbn [seq map]. rewrite <- seq_shift, map_map.
  f_equal. f_equal.
  + unfold irregularVertex. now rewrite Nat.add_0_r.
  + apply map_ext. intros j. now rewrite Nat.add_succ_r.
Qed.

Lemma irregularVertexCount_range (d : Draws) :
  unit_draws d ->
  fst (irregularVertexCount d) = Math_floor (d 0%nat * (8 - 4) + 4) /\
  (4 <= fst (irregularVertexCount d) < 8)%Z.
Proof.
intros Hd. pose proof (Hd 0%nat) as Hu.
unfold irregularVertexCount, randomInRange, bind, Math_random, ret. cbn.
split; [reflexivity |].
pose proof (Zfloor_bound (d 0%nat * (8 - 4) + 4)) as Hb. unfold Math_floor.
split.
- apply Zfloor_lub. lra.
- apply lt_IZR. lra.
Qed.

(** ** Rounding to binary64 *)

Lemma pow2_pos (e : Z) : 0 < pow2 e.
Proof. apply powerRZ_lt. lra. Qed.

Lemma pow2_add (a b : Z) : pow2 (a + b) = pow2 a * pow2 b.
Proof. apply powerRZ_add. lra. Qed.

Lemma pow2_IZR (k : Z) : (0 <= k)%Z -> pow2 k = IZR (2 ^ k).
Proof.
intros Hk. unfold pow2.
rewrite <- (Z2Nat.id k Hk), <- pow_powerRZ, <- pow_IZR. reflexivity.
Qed.

Lemma pow2_ge_1 (k : Z) : (0 <= k)%Z -> 1 <= pow2 k.
Proof.
intros Hk. rewrite pow2_IZR by exact Hk. apply IZR_le.
assert (0 < 2 ^ k)%Z by (apply Z.pow_pos_nonneg; lia). lia.
Qed.

Lemma pow2_le (a b : Z) : (a <= b)%Z -> pow2 a <= pow2 b.
Proof.
intros H. replace b with (a + (b - a))%Z by lia. rewrite pow2_add.
pose proof (pow2_pos a). pose proof (pow2_ge_1 (b - a) ltac:(lia)). nra.
Qed.

Lemma pow2_lt (a b : Z) : (a < b)%Z -> pow2 a < pow2 b.
Proof.
intros H. replace b with (a + 1 + (b - a - 1))%Z by lia.
rewrite !pow2_add. change (pow2 1) with (2 * 1).
pose proof (pow2_pos a). pose proof (pow2_ge_1 (b - a - 1) ltac:(lia)). nra.
Qed.

Lemma pow2_lt_inv (a b : Z) : pow2 a < pow2 b -> (a < b)%Z.
Proof.
intros H. destruct (Z_lt_le_dec a b) as [|Hle]; [assumption |].
apply pow2_le in Hle. lra.
Qed.

Lemma ln2_pos : 0 < ln 2.
Proof. pose proof ln_lt_2. lra. Qed.

Lemma pow2_exp (e : Z) : pow2 e = exp (IZR e * ln 2).
Proof. unfold pow2. rewrite powerRZ_Rpower by lra. reflexivity. Qed.

Lemma binade_spec (x : R) :
  0 < x -> pow2 (binade x) <= x < pow2 (binade x + 1).
Proof.
intros Hx. pose proof ln2_pos as Hl.
pose proof (Zfloor_bound (ln x / ln 2)) as [H1 H2]. fold (binade x) in *.
assert (Hq : ln x / ln 2 * ln 2 = ln x) by (field; lra).
rewrite !pow2_exp, plus_IZR. rewrite <- (exp_ln x Hx) at 2 3.
split.
- destruct (Rle_lt_or_eq_dec _ _ H1) as [Hlt | Heq].
  + left. apply exp_increasing. nra.
  + right. f_equal. rewrite Heq. exact Hq.
- apply exp_increasing. nra.
Qed.

Lemma binade_eq (x : R) (k : Z) :
  pow2 k <= x < pow2 (k + 1) -> binade x = k.
Proof.
intros [H1 H2]. assert (Hx : 0 < x) by (pose proof (pow2_pos k); lra).
destruct (binade_spec x Hx) as [B1 B2].
assert (binade x < k + 1)%Z by (apply pow2_lt_inv; lra).
assert (k < binade x + 1)%Z by (apply pow2_lt_inv; lra).
lia.
Qed.

Lemma binade_le (x y : R) : 0 < x -> x <= y -> (binade x <= binade y)%Z.
Proof.
intros Hx Hxy. destruct (binade_spec x Hx) as [B1 _].
destruct (binade_spec y ltac:(lra)) as [_ B2].
assert (binade x < binade y + 1)%Z by (apply pow2_lt_inv; lra). lia.
Qed.

Lemma rne_cases (r : R) :
  (rne r = Zfloor r /\ r - IZR (Zfloor r) <= 1 / 2) \/
  (rne r = (Zfloor r + 1)%Z /\ 1 / 2 <= r - IZR (Zfloor r)).
Proof.
unfold rne. destruct (Rlt_dec _ _); [left; split; [reflexivity | lra] |].
destruct (Rlt_dec _ _); [right; split; [reflexivity | lra] |].
destruct (Z.even _); [left | right]; split; try reflexivity; lra.
Qed.

Lemma rne_eq (r : R) (m : Z) :
  IZR m - 1 / 2 < r < IZR m + 1 / 2 -> rne r = m.
Proof.
intros [H1 H2]. unfold rne.
destruct (Rlt_dec r (IZR m)) as [Hlt | Hge].
- assert (Hf : Zfloor r = (m - 1)%Z)
    by (apply Zfloor_eq; rewrite minus_IZR; lra).
  rewrite Hf, minus_IZR.
  destruct (Rlt_dec _ _); [lra |]. destruct (Rlt_dec _ _); [lia | lra].
- assert (Hf : Zfloor r = m) by (apply Zfloor_eq; lra).
  rewrite Hf. destruct (Rlt_dec _ _); [reflexivity | lra].
Qed.

Lemma rne_IZR (m : Z) : rne (IZR m) = m.
Proof. apply rne_eq. lra. Qed.

Lemma rne_tie (m : Z) :
  rne (IZR m + 1 / 2) = if Z.even m then m else (m + 1)%Z.
Proof.
unfold rne.
assert (Hf : Zfloor (IZR m + 1 / 2) = m) by (apply Zfloor_eq; lra).
rewrite Hf. destruct (Rlt_dec _ _); [lra |].
destruct (Rlt_dec _ _); [lra | reflexivity].
Qed.

Lemma rne_le (r s : R) : r <= s -> (rne r <= rne s)%Z.
Proof.
intros Hrs. pose proof (Zfloor_le r s Hrs) as Hfl.
pose proof (Zfloor_bound r) as [R1 R2]. pose proof (Zfloor_bound s) as [S1 S2].
destruct (Z.eq_dec (Zfloor r) (Zfloor s)) as [Heq | Hne].
- unfold rne. rewrite <- Heq in *.
  repeat destruct (Rlt_dec _ _); destruct (Z.even (Zfloor r));
    try lia; lra.
- destruct (rne_cases r) as [[-> _] | [-> _]];
    destruct (rne_cases s) as [[-> _] | [-> _]]; lia.
Qed.

Lemma cexp_ge (x : R) : (binade x - 52 <= cexp x)%Z /\ (emin <= cexp x)%Z.
Proof. unfold cexp. lia. Qed.

Lemma fl_pos_nonneg (x : R) : 0 < x -> 0 <= fl_pos x.
Proof.
intros Hx. unfold fl_pos. pose proof (pow2_pos (cexp x)) as Hp.
assert (0 <= rne (x / pow2 (cexp x)))%Z.
{ rewrite <- (rne_IZR 0). apply rne_le.
  apply Rlt_le, Rdiv_lt_0_compat; assumption. }
apply Rmult_le_pos; [apply IZR_le; assumption | lra].
Qed.

Lemma fl_nonneg (x : R) : 0 <= x -> 0 <= fl x.
Proof.
intros Hx. unfold fl. destruct (Rlt_dec 0 x); [apply fl_pos_nonneg; assumption |].
destruct (Rlt_dec x 0); lra.
Qed.

Lemma fl_0 : fl 0 = 0.
Proof. unfold fl. destruct (Rlt_dec 0 0); [lra |]. destruct (Rlt_dec 0 0); lra. Qed.

Lemma fl_pos_eq (x : R) : 0 < x -> fl x = fl_pos x.
Proof. intros Hx. unfold fl. destruct (Rlt_dec 0 x); [reflexivity | lra]. Qed.

(* Scaled mantissa bound *)
Lemma scaled_lt (x : R) :
  0 < x -> x / pow2 (cexp x) < pow2 (binade x + 1 - cexp x).
Proof.
intros Hx. destruct (binade_spec x Hx) as [_ B2].
pose proof (pow2_pos (cexp x)) as Hp.
replace (binade x + 1)%Z with ((binade x + 1 - cexp x) + cexp x)%Z in B2 by lia.
rewrite pow2_add in B2.
apply Rmult_lt_reg_r with (pow2 (cexp x)); [assumption |].
replace (x / pow2 (cexp x) * pow2 (cexp x)) with x by (field; lra). exact B2.
Qed.

Lemma pow2_neg_half (k : Z) : (k <= -1)%Z -> pow2 k <= 1 / 2.
Proof.
intros Hk. apply Rle_trans with (pow2 (-1)); [apply pow2_le; lia |].
unfold pow2. simpl. lra.
Qed.

Lemma fl_pos_le_pow2 (x : R) : 0 < x -> fl_pos x <= pow2 (binade x + 1).
Proof.
intros Hx. pose proof (scaled_lt x Hx) as Hs.
pose proof (pow2_pos (cexp x)) as Hp. unfold fl_pos.
destruct (Z_le_gt_dec 0 (binade x + 1 - cexp x)) as [Hk | Hk].
- rewrite (pow2_IZR (binade x + 1 - cexp x)) in Hs by exact Hk.
  assert (Hr : (rne (x / pow2 (cexp x)) <= 2 ^ (binade x + 1 - cexp x))%Z).
  { rewrite <- (rne_IZR (2 ^ _)). apply rne_le. lra. }
  apply IZR_le in Hr. rewrite <- (pow2_IZR (binade x + 1 - cexp x)) in Hr by exact Hk.
  replace (binade x + 1)%Z with ((binade x + 1 - cexp x) + cexp x)%Z by lia.
  rewrite (pow2_add (binade x + 1 - cexp x) (cexp x)).
  apply Rmult_le_compat_r; lra.
- assert (Hz : rne (x / pow2 (cexp x)) = 0%Z).
  { apply rne_eq. pose proof (pow2_neg_half (binade x + 1 - cexp x) ltac:(lia)).
    assert (0 < x / pow2 (cexp x)) by (apply Rdiv_lt_0_compat; assumption).
    lra. }
  rewrite Hz. pose proof (pow2_pos (binade x + 1)). lra.
Qed.

Lemma fl_pos_ge_pow2 (x : R) :
  0 < x -> (emin <= binade x - 52)%Z -> pow2 (binade x) <= fl_pos x.
Proof.
intros Hx He. unfold fl_pos.
assert (Hc : cexp x = (binade x - 52)%Z) by (unfold cexp; lia). rewrite Hc.
destruct (binade_spec x Hx) as [B1 _].
pose proof (pow2_pos (binade x - 52)) as Hp.
assert (Hs : IZR (2 ^ 52) <= x / pow2 (binade x - 52)).
{ rewrite <- pow2_IZR by lia.
  apply Rmult_le_reg_r with (pow2 (binade x - 52)); [assumption |].
  rewrite <- pow2_add. replace (52 + (binade x - 52))%Z with (binade x) by lia.
  replace (x / pow2 (binade x - 52) * pow2 (binade x - 52)) with x by (field; lra).
  exact B1. }
apply rne_le in Hs. rewrite rne_IZR in Hs. apply IZR_le in Hs.
rewrite <- pow2_IZR in Hs by lia.
replace (binade x) with (52 + (binade x - 52))%Z at 1 by lia.
rewrite pow2_add. apply Rmult_le_compat_r; lra.
Qed.

Lemma fl_pos_le (x y : R) : 0 < x -> x <= y -> fl_pos x <= fl_pos y.
Proof.
intros Hx Hxy. assert (Hy : 0 < y) by lra.
pose proof (binade_le x y Hx Hxy) as Hb.
destruct (Z.eq_dec (cexp x) (cexp y)) as [Heq | Hne].
- unfold fl_pos. rewrite Heq. pose proof (pow2_pos (cexp y)) as Hp.
  apply Rmult_le_compat_r; [lra |]. apply IZR_le, rne_le.
  unfold Rdiv. apply Rmult_le_compat_r; [| exact Hxy].
  apply Rlt_le, Rinv_0_lt_compat. exact Hp.
- assert (Hlt : (cexp x < cexp y)%Z) by (unfold cexp in *; lia).
  assert (He : (emin <= binade y - 52)%Z) by (unfold cexp in *; lia).
  assert (Hbb : (binade x + 1 <= binade y)%Z) by (unfold cexp in *; lia).
  apply Rle_trans with (pow2 (binade x + 1)); [apply fl_pos_le_pow2; assumption |].
  apply Rle_trans with (pow2 (binade y)); [apply pow2_le; assumption |].
  apply fl_pos_ge_pow2; assumption.
Qed.

Lemma fl_le (x y : R) : 0 <= x -> x <= y -> fl x <= fl y.
Proof.
intros Hx Hxy. destruct (Rle_lt_or_eq_dec 0 x Hx) as [Hpos | <-].
- rewrite !fl_pos_eq by lra. apply fl_pos_le; assumption.
- rewrite fl_0. apply fl_nonneg. exact Hxy.
Qed.

(* Representable numbers are fixed. *)
Lemma pow2_split (q c : Z) : pow2 q = pow2 (q - c) * pow2 c.
Proof. rewrite <- pow2_add. f_equal. lia. Qed.

Lemma fl_exact (m q : Z) :
  (0 < m < 2 ^ 53)%Z -> (emin <= q)%Z -> fl (IZR m * pow2 q) = IZR m * pow2 q.
Proof.
intros [Hm1 Hm2] Hq. pose proof (pow2_pos q) as Hpq.
assert (Hm1' : 0 < IZR m) by (apply IZR_lt; assumption).
assert (Hx : 0 < IZR m * pow2 q) by (apply Rmult_lt_0_compat; assumption).
rewrite fl_pos_eq by exact Hx. unfold fl_pos.
remember (IZR m * pow2 q) as x eqn:Hxq.
destruct (binade_spec x Hx) as [B1 _].
assert (Hlt : x < pow2 (q + 53)).
{ rewrite Hxq, Z.add_comm, pow2_add, (pow2_IZR 53) by lia.
  apply IZR_lt in Hm2. nra. }
assert (Hbq : (binade x < q + 53)%Z) by (apply pow2_lt_inv; lra).
assert (Hc : (cexp x <= q)%Z) by (unfold cexp; lia).
remember (cexp x) as c eqn:Hcx.
pose proof (pow2_pos c) as Hp.
assert (Hs : x / pow2 c = IZR (m * 2 ^ (q - c))).
{ rewrite mult_IZR, <- pow2_IZR by lia.
  rewrite Hxq, (pow2_split q c). field. lra. }
rewrite Hs, rne_IZR, mult_IZR, <- pow2_IZR by lia.
rewrite Hxq, (pow2_split q c). ring.
Qed.

Lemma fl_IZR (n : Z) : (0 <= n < 2 ^ 53)%Z -> fl (IZR n) = IZR n.
Proof.
intros Hn. destruct (Z.eq_dec n 0) as [-> | Hne]; [apply fl_0 |].
replace (IZR n) with (IZR n * pow2 0) by (unfold pow2; simpl; ring).
apply fl_exact; [lia | unfold emin; lia].
Qed.

Lemma fl_idem (x : R) : 0 <= x -> fl (fl x) = fl x.
Proof.
intros Hx0. destruct (Rle_lt_or_eq_dec 0 x Hx0) as [Hx | <-];
  [| rewrite !fl_0; reflexivity].
rewrite (fl_pos_eq x Hx). unfold fl_pos.
pose proof (scaled_lt x Hx) as Hs. pose proof (cexp_ge x) as [Hc1 Hc2].
pose proof (pow2_pos (cexp x)) as Hp.
set (n := rne (x / pow2 (cexp x))).
assert (Hn0 : (0 <= n)%Z).
{ unfold n. rewrite <- (rne_IZR 0). apply rne_le.
  apply Rlt_le, Rdiv_lt_0_compat; assumption. }
assert (Hn1 : (n <= 2 ^ 53)%Z).
{ unfold n. rewrite <- (rne_IZR (2 ^ 53)). apply rne_le.
  rewrite <- pow2_IZR by lia.
  apply Rle_trans with (pow2 (binade x + 1 - cexp x)); [lra |].
  apply pow2_le. lia. }
destruct (Z.eq_dec n 0) as [-> | Hne0].
{ rewrite Rmult_0_l. apply fl_0. }
destruct (Z.eq_dec n (2 ^ 53)) as [-> | Hne1].
- rewrite <- pow2_IZR, <- pow2_add by lia.
  rewrite <- (Rmult_1_l (pow2 _)). apply fl_exact; [lia | lia].
- apply fl_exact; lia.
Qed.

(* Evaluation of a rounding whose binade is known. *)
Lemma fl_eval (x : R) (e m : Z) :
  pow2 e <= x < pow2 (e + 1) -> (emin <= e - 52)%Z ->
  IZR m - 1 / 2 < x / pow2 (e - 52) < IZR m + 1 / 2 ->
  fl x = IZR m * pow2 (e - 52).
Proof.
intros Hb He Hm. assert (Hx : 0 < x) by (pose proof (pow2_pos e); lra).
rewrite fl_pos_eq by exact Hx. unfold fl_pos.
assert (Hc : cexp x = (e - 52)%Z).
{ unfold cexp. rewrite (binade_eq x e Hb). lia. }
rewrite Hc, (rne_eq _ m Hm). reflexivity.
Qed.

Lemma fl_eval_tie (x : R) (e m : Z) :
  pow2 e <= x < pow2 (e + 1) -> (emin <= e - 52)%Z ->
  x / pow2 (e - 52) = IZR m + 1 / 2 ->
  fl x = IZR (if Z.even m then m else m + 1) * pow2 (e - 52).
Proof.
intros Hb He Hm. assert (Hx : 0 < x) by (pose proof (pow2_pos e); lra).
rewrite fl_pos_eq by exact Hx. unfold fl_pos.
assert (Hc : cexp x = (e - 52)%Z).
{ unfold cexp. rewrite (binade_eq x e Hb). lia. }
rewrite Hc, Hm, rne_tie. reflexivity.
Qed.

Lemma fl_eval_at (x : R) (c m : Z) :
  pow2 (c + 52) <= x < pow2 (c + 53) -> (emin <= c)%Z ->
  (IZR m - 1 / 2) * pow2 c < x < (IZR m + 1 / 2) * pow2 c ->
  fl x = IZR m * pow2 c.
Proof.
intros Hb Hc Hm. pose proof (pow2_pos c) as Hp.
replace (pow2 c) with (pow2 (c + 52 - 52)) by (f_equal; lia).
apply fl_eval.
- replace (c + 52 + 1)%Z with (c + 53)%Z by lia. exact Hb.
- lia.
- replace (c + 52 - 52)%Z with c by lia.
  split.
  + apply Rmult_lt_reg_r with (pow2 c); [exact Hp |].
    replace (x / pow2 c * pow2 c) with x by (field; lra). lra.
  + apply Rmult_lt_reg_r with (pow2 c); [exact Hp |].
    replace (x / pow2 c * pow2 c) with x by (field; lra). lra.
Qed.

Lemma fl_tie_at (x : R) (c m : Z) :
  pow2 (c + 52) <= x < pow2 (c + 53) -> (emin <= c)%Z ->
  x = (IZR m + 1 / 2) * pow2 c ->
  fl x = IZR (if Z.even m then m else m + 1) * pow2 c.
Proof.
intros Hb Hc Hm. pose proof (pow2_pos c) as Hp.
replace (pow2 c) with (pow2 (c + 52 - 52)) by (f_equal; lia).
apply fl_eval_tie.
- replace (c + 52 + 1)%Z with (c + 53)%Z by lia. exact Hb.
- lia.
- replace (c + 52 - 52)%Z with c by lia. rewrite Hm. field. lra.
Qed.

Lemma pow2_neg (k : Z) : (0 <= k)%Z -> pow2 (- k) = / IZR (2 ^ k).
Proof.
intros Hk. pose proof (pow2_add (- k) k) as H.
replace (- k + k)%Z with 0%Z in H by lia.
rewrite (pow2_IZR k Hk) in H. change (pow2 0) with 1 in H.
assert (Hpos : 0 < IZR (2 ^ k)).
{ apply IZR_lt. apply Z.pow_pos_nonneg; lia. }
apply Rmult_eq_reg_r with (IZR (2 ^ k)); [| lra].
rewrite Rinv_l by lra. lra.
Qed.

(** Powers of two with a literal exponent, as literals. *)
Ltac pow2_lit :=
  repeat match goal with
  | |- context [pow2 ?z] =>
      let v := eval vm_compute in z in
      progress change z with v
  end;
  repeat match goal with
  | |- context [pow2 (Zneg ?p)] =>
      let v := eval vm_compute in (2 ^ Zpos p)%Z in
      replace (pow2 (Zneg p)) with (/ IZR v)
        by (symmetry; exact (pow2_neg (Zpos p) ltac:(lia)))
  | |- context [pow2 (Zpos ?p)] =>
      let v := eval vm_compute in (2 ^ Zpos p)%Z in
      replace (pow2 (Zpos p)) with (IZR v)
        by (symmetry; exact (pow2_IZR (Zpos p) ltac:(lia)))
  | |- context [pow2 0] => change (pow2 0) with 1
  end.

Lemma lit_7_10 : lit (7 / 10) = 6305039478318694 * pow2 (-53).
Proof.
unfold lit. apply (fl_eval_at (7 / 10) (-53) 6305039478318694).
- pow2_lit. lra.
- unfold emin. lia.
- pow2_lit. lra.
Qed.

Lemma lit_13_10 : lit (13 / 10) = 5854679515581645 * pow2 (-52).
Proof.
unfold lit. apply (fl_eval_at (13 / 10) (-52) 5854679515581645).
- pow2_lit. lra.
- unfold emin. lia.
- pow2_lit. lra.
Qed.


Lemma lit_nonneg (x : R) : 0 <= x -> 0 <= lit x.
Proof. apply fl_nonneg. Qed.

Lemma lit_idem (x : R) : 0 <= x -> fl (lit x) = lit x.
Proof. apply fl_idem. Qed.

(** A range [[lo, hi]] of floats whose upper end the computation of
    [randomInRange] can reach but not pass. *)
Lemma integers_close (a b : Z) :
  (0 <= a <= b)%Z -> (b < 2 ^ 53)%Z ->
  fl (IZR a) = IZR a /\ add64 (sub64 (IZR b) (IZR a)) (IZR a) = IZR b.
Proof.
intros Hab Hb. split; [apply fl_IZR; lia |].
unfold add64, sub64. rewrite <- minus_IZR, fl_IZR by lia.
rewrite <- plus_IZR. replace (b - a + a)%Z with b by lia.
apply fl_IZR. lia.
Qed.

Lemma jitter_closes :
  fl (lit (7 / 10)) = lit (7 / 10) /\
  add64 (sub64 (lit (13 / 10)) (lit (7 / 10))) (lit (7 / 10)) = lit (13 / 10).
Proof.
split; [apply lit_idem; lra |].
unfold add64, sub64. rewrite lit_7_10, lit_13_10.
replace (5854679515581645 * pow2 (-52) - 6305039478318694 * pow2 (-53))
  with (IZR 5404319552844596 * pow2 (-53)) by (pow2_lit; lra).
rewrite fl_exact by (unfold emin; lia).
replace (5404319552844596 * pow2 (-53) + 6305039478318694 * pow2 (-53))
  with (IZR 5854679515581645 * pow2 (-52)) by (pow2_lit; lra).
apply fl_exact; unfold emin; lia.
Qed.

Lemma randomInRange64_run (lo hi : R) (d : Draws) :
  randomInRange64 lo hi d
  = (add64 (mul64 (d 0%nat) (sub64 hi lo)) lo, fun n => d (S n)).
Proof. reflexivity. Qed.

Lemma randomInRange64_le (lo hi u v : R) :
  0 <= lo <= hi -> 0 <= u <= v ->
  add64 (mul64 u (sub64 hi lo)) lo <= add64 (mul64 v (sub64 hi lo)) lo.
Proof.
intros Hlo Huv. unfold add64, mul64, sub64.
assert (HD : 0 <= fl (hi - lo)) by (apply fl_nonneg; lra).
assert (H1 : fl (u * fl (hi - lo)) <= fl (v * fl (hi - lo))).
{ apply fl_le; [apply Rmult_le_pos; lra | apply Rmult_le_compat_r; lra]. }
assert (H0 : 0 <= fl (u * fl (hi - lo))).
{ apply fl_nonneg. apply Rmult_le_pos; lra. }
apply fl_le; lra.
Qed.

Lemma randomInRange64_bounds (lo hi : R) (d : Draws) :
  unit_draws d -> 0 <= lo <= hi ->
  fl lo = lo -> add64 (sub64 hi lo) lo = hi ->
  lo <= fst (randomInRange64 lo hi d) <= hi.
Proof.
intros Hd Hlo Hfix Hclose. pose proof (Hd 0%nat) as Hu.
rewrite randomInRange64_run. cbn [fst].
assert (HD : 0 <= fl (hi - lo)) by (apply fl_nonneg; lra).
split.
- rewrite <- Hfix at 1. unfold add64.
  apply fl_le; [lra |].
  assert (0 <= mul64 (d 0%nat) (sub64 hi lo)).
  { apply fl_nonneg. apply Rmult_le_pos; [lra | exact HD]. }
  lra.
- rewrite <- Hclose at 2.
  assert (Hone : add64 (mul64 1 (sub64 hi lo)) lo = add64 (sub64 hi lo) lo).
  { unfold mul64, sub64. rewrite Rmult_1_l, fl_idem by lra. reflexivity. }
  rewrite <- Hone. apply randomInRange64_le; lra.
Qed.

Lemma lastDraw_unit : 0 <= lastDraw < 1.
Proof. unfold lastDraw. pow2_lit. lra. Qed.

Lemma lastDraws_unit : unit_draws (fun _ => lastDraw).
Proof. intros n. apply lastDraw_unit. Qed.

Lemma lastDraw_float : fl lastDraw = lastDraw.
Proof.
replace lastDraw with (IZR 9007199254740991 * pow2 (-53))
  by (unfold lastDraw; pow2_lit; lra).
apply fl_exact; unfold emin; lia.
Qed.

Lemma randomInRange64_reaches_max :
  fst (randomInRange64 4 8 (fun _ => lastDraw)) = 8.
Proof.
rewrite randomInRange64_run. cbn [fst].
unfold add64, mul64, sub64.
replace (8 - 4) with (IZR 4) by lra. rewrite fl_IZR by lia.
replace (lastDraw * 4) with (IZR 9007199254740991 * pow2 (-51))
  by (unfold lastDraw; pow2_lit; lra).
rewrite fl_exact by (unfold emin; lia).
rewrite (fl_tie_at _ (-50) 9007199254740991).
- change (if Z.even 9007199254740991
          then 9007199254740991%Z else (9007199254740991 + 1)%Z)
    with 9007199254740992%Z.
  pow2_lit. lra.
- pow2_lit. lra.
- unfold emin. lia.
- pow2_lit. lra.
Qed.

Lemma irregularVertexCount64_run (d : Draws) :
  irregularVertexCount64 d
  = (Math_floor (fst (randomInRange64 4 8 d)), fun n => d (S n)).
Proof. reflexivity. Qed.

Lemma irregularVertexCount64_range (d : Draws) :
  unit_draws d -> (4 <= fst (irregularVertexCount64 d) <= 8)%Z.
Proof.
intros Hd. rewrite irregularVertexCount64_run. cbn [fst].
destruct (integers_close 4 8 ltac:(lia) ltac:(lia)) as [Hfix Hclose].
pose proof (randomInRange64_bounds 4 8 d Hd ltac:(lra) Hfix Hclose) as Hb.
pose proof (Zfloor_bound (fst (randomInRange64 4 8 d))) as Hf.
unfold Math_floor. split.
- apply Zfloor_lub. lra.
- apply le_IZR. lra.
Qed.

Lemma irregularVertexCount64_last :
  fst (irregularVertexCount64 (fun _ => lastDraw)) = 8%Z.
Proof.
rewrite irregularVertexCount64_run. cbn [fst].
rewrite randomInRange64_reaches_max. apply Zfloor_eq. lra.
Qed.

Lemma unit_draws_skip (k : nat) (d : Draws) :
  unit_draws d -> unit_draws (skip k d).
Proof. intros Hd n. apply Hd. Qed.

Lemma jitter_bounds (d : Draws) :
  unit_draws d ->
  0 <= lit (7 / 10) /\
  lit (7 / 10)
  <= fst (randomInRange64 (lit (7 / 10)) (lit (13 / 10)) d)
  <= lit (13 / 10).
Proof.
intros Hd. destruct jitter_closes as [Hfix Hclose].
assert (H0 : 0 <= lit (7 / 10)) by (apply lit_nonneg; lra).
assert (H1 : lit (7 / 10) <= lit (13 / 10)) by (apply fl_le; lra).
split; [exact H0 |].
apply randomInRange64_bounds; [exact Hd | lra | exact Hfix | exact Hclose].
Qed.

Lemma integer_range_bounds (a b : Z) (d : Draws) :
  unit_draws d -> (0 <= a <= b)%Z -> (b < 2 ^ 53)%Z ->
  IZR a <= fst (randomInRange64 (IZR a) (IZR b) d) <= IZR b.
Proof.
intros Hd Hab Hb. destruct (integers_close a b Hab Hb) as [Hfix Hclose].
apply randomInRange64_bounds; [exact Hd | | exact Hfix | exact Hclose].
split; apply IZR_le; lia.
Qed.

Section Sizes.

Variable matter_vertices : Geometry -> Vector.t -> R -> list Vector.t.
Variable cos64 : R -> R.
Variable sin64 : R -> R.

Lemma irregularLoop64_run (baseRadius angleStep : R) (n : nat) :
  forall (i : nat) (d : Draws),
    irregularLoop64 cos64 sin64 baseRadius angleStep n i d
    = (map (fun j =>
              irregularVertex64 cos64 sin64 baseRadius angleStep (i + j)
                (fst (randomInRange64 (lit (7 / 10)) (lit (13 / 10))
                        (skip j d))))
         (seq 0 n),
       fun k => d (n + k)%nat).
Proof.
induction n as [| n IH]; intros i d.
- reflexivity.
- cbn [irregularLoop64]. unfold bind at 1. rewrite randomInRange64_run.
  unfold bind at 1. rewrite IH. unfold ret.
  cbn [seq map]. rewrite <- seq_shift, map_map.
  f_equal. f_equal.
  + rewrite Nat.add_0_r. reflexivity.
  + apply map_ext. intros j. rewrite Nat.add_succ_r. reflexivity.
Qed.

Lemma createIrregularPolygon64_run (px py : R) (d : Draws) :
  let vertexCount := fst (irregularVertexCount64 d) in
  let baseRadius := fst (randomInRange64 25 45 (skip 1 d)) in
  let angleStep := div64 (mul64 PI64 2) (IZR vertexCount) in
  let n := Z.to_nat vertexCount in
  let vs :=
    map (fun j =>
           irregularVertex64 cos64 sin64 baseRadius angleStep j
             (fst (randomInRange64 (lit (7 / 10)) (lit (13 / 10))
                     (skip (2 + j) d))))
      (seq 0 n) in
  fst (createIrregularPolygon64 matter_vertices cos64 sin64 px py d)
  = Bodies_fromVertices matter_vertices px py [vs]
      (shapeOptions None (fst (getRandomColor (skip (2 + n) d)))) /\
  consumes (3 + n) d
    (snd (createIrregularPolygon64 matter_vertices cos64 sin64 px py d)).
Proof.
intros vertexCount baseRadius angleStep n vs.
split.
- unfold createIrregularPolygon64.
  unfold bind at 1. rewrite irregularVertexCount64_run.
  unfold bind at 1. rewrite (randomInRange64_run 25 45).
  unfold bind at 1. rewrite irregularLoop64_run.
  repeat (progress (unfold bind, getRandomColor, Math_random, ret;
                    cbv beta iota)).
  reflexivity.
- intros m. unfold createIrregularPolygon64.
  unfold bind at 1. rewrite irregularVertexCount64_run.
  unfold bind at 1. rewrite (randomInRange64_run 25 45).
  unfold bind at 1. rewrite irregularLoop64_run.
  repeat (progress (unfold bind, getRandomColor, Math_random, ret;
                    cbv beta iota)).
  cbn [fst snd]. unfold n, vertexCount.
  rewrite irregularVertexCount64_run. cbn [fst]. f_equal. lia.
Qed.

(** C9, as the code has it.  Whatever the draws in [[0,1)]: the circle made
    by [createCircle] has a radius in [[20,50]]; [createIrregularPolygon]
    hands [Bodies.fromVertices] a vertex set whose size is an integer in
    [[4,8]], with a base radius in [[25,45]], and vertex [i] of it lies at
    radius [baseRadius * f], where the factor [f] comes from a draw of its
    own (draw number [2 + i]) and lies between the floats [0.7] and [1.3],
    so the radius lies between 0.7 and 1.3 times the base radius.  All
    bounds are closed: binary64 rounding lets [randomInRange] return its
    upper end. *)
Theorem factory_sizes_within_closed_bounds (px py : R) (d : Draws) :
  unit_draws d ->
  let vertexCount := fst (irregularVertexCount64 d) in
  let baseRadius := fst (randomInRange64 25 45 (skip 1 d)) in
  let angleStep := div64 (mul64 PI64 2) (IZR vertexCount) in
  (exists r,
     circleRadius (fst (createCircle64 matter_vertices px py d)) = Some r /\
     r = fst (randomInRange64 20 50 d) /\
     20 <= r <= 50) /\
  (4 <= vertexCount <= 8)%Z /\
  25 <= baseRadius <= 45 /\
  (exists vs color,
     fst (createIrregularPolygon64 matter_vertices cos64 sin64 px py d)
     = Bodies_fromVertices matter_vertices px py [vs]
         (shapeOptions None color) /\
     List.length vs = Z.to_nat vertexCount /\
     forall i, (i < Z.to_nat vertexCount)%nat ->
       let f :=
         fst (randomInRange64 (lit (7 / 10)) (lit (13 / 10))
                (skip (2 + i) d)) in
       let a := mul64 (INR i) angleStep in
       lit (7 / 10) <= f <= lit (13 / 10) /\
       mul64 baseRadius (lit (7 / 10)) <= mul64 baseRadius f
       <= mul64 baseRadius (lit (13 / 10)) /\
       nth_error vs i
       = Some (Vector.mk (mul64 (cos64 a) (mul64 baseRadius f))
                         (mul64 (sin64 a) (mul64 baseRadius f)))).
Proof.
intros Hd vertexCount baseRadius angleStep.
assert (Hbase : 25 <= baseRadius <= 45).
{ apply (integer_range_bounds 25 45); [apply unit_draws_skip, Hd | lia | lia]. }
split; [| split; [| split]].
- exists (fst (randomInRange64 20 50 d)).
  split; [reflexivity | split; [reflexivity |]].
  apply (integer_range_bounds 20 50); [exact Hd | lia | lia].
- apply irregularVertexCount64_range. exact Hd.
- exact Hbase.
- destruct (createIrregularPolygon64_run px py d) as [Hrun _].
  cbv zeta in Hrun. rewrite Hrun.
  fold vertexCount. fold baseRadius. fold angleStep.
  eexists. eexists. split; [reflexivity | split].
  + rewrite length_map, length_seq. reflexivity.
  + intros i Hi. cbv zeta.
    destruct (jitter_bounds (skip (2 + i) d)) as [H0 Hf];
      [apply unit_draws_skip, Hd |].
    set (f := fst (randomInRange64 (lit (7 / 10)) (lit (13 / 10))
                     (skip (2 + i) d))) in *.
    split; [exact Hf | split].
    * unfold mul64. split; apply fl_le; nra.
    * rewrite nth_error_map, nth_error_seq.
      destruct (Nat.ltb_spec i (Z.to_nat vertexCount)) as [_ | Hge];
        [| lia].
      reflexivity.
Qed.

End Sizes.

Lemma factory_sizes_within_closed_bounds_witness :
  unit_draws (fun _ => 0) /\
  (4 <= fst (irregularVertexCount64 (fun _ => 0%R)) <= 8)%Z.
Proof.
split; [exact zero_draws_unit |].
apply (factory_sizes_within_closed_bounds no_vertices cos sin 100 (- 50)
         (fun _ => 0) zero_draws_unit).
Defined.

(** C9, a counterexample to the specification as stated: the vertex
    count is not confined to [[4,8)].  When [Math.random()] returns the largest
    float below 1, [u * (8 - 4)] is [4 - 2^-51] exactly, adding 4 gives
    [8 - 2^-51], which lies halfway between two floats and rounds to
    [8.0]; [Math.floor] keeps it, and the polygon gets eight vertices. *)
Lemma irregular_polygon_with_eight_vertices :
  unit_draws (fun _ => lastDraw) /\
  fl lastDraw = lastDraw /\
  fst (randomInRange64 4 8 (fun _ => lastDraw)) = 8 /\
  fst (irregularVertexCount64 (fun _ => lastDraw)) = 8%Z /\
  ~ (4 <= fst (irregularVertexCount64 (fun _ => lastDraw)) < 8)%Z /\
  exists vs color,
    fst (createIrregularPolygon64 no_vertices cos sin 100 (- 50)
           (fun _ => lastDraw))
    = Bodies_fromVertices no_vertices 100 (- 50) [vs]
        (shapeOptions None color) /\
    List.length vs = 8%nat.
Proof.
split; [exact lastDraws_unit |].
split; [exact lastDraw_float |].
split; [exact randomInRange64_reaches_max |].
split; [exact irregularVertexCount64_last |].
split; [rewrite irregularVertexCount64_last; lia |].
destruct (createIrregularPolygon64_run no_vertices cos sin 100 (- 50)
            (fun _ => lastDraw)) as [Hrun _].
cbv zeta in Hrun. rewrite Hrun.
eexists. eexists. split; [reflexivity |].
rewrite length_map, length_seq, irregularVertexCount64_last. reflexivity.
Qed.

(** ** Spawning (C10) *)

Section Spawning.

Variable matter_vertices : Geometry -> Vector.t -> R -> list Vector.t.

Ltac run_factory :=
  unfold bind, randomInRange, getRandomColor, Math_random, ret;
  cbn [fst snd position Bodies_circle Bodies_rectangle Bodies_polygon
       Bodies_fromVertices Bodies_create].

Lemma createPolygon_places (sides : nat) :
  places (fun px py => createPolygon matter_vertices px py sides).
Proof.
intros px py d Hd. unfold createPolygon. run_factory.
split; [reflexivity | intros n; apply Hd].
Qed.

Lemma createStar_places (points : nat) :
  places (fun px py => createStar matter_vertices px py points).
Proof.
intros px py d Hd. unfold createStar. run_factory.
split; [reflexivity | intros n; apply Hd].
Qed.

Lemma SHAPE_FACTORIES_place :
  Forall places (SHAPE_FACTORIES matter_vertices).
Proof.
unfold SHAPE_FACTORIES.
repeat apply Forall_cons; try apply Forall_nil.
- intros px py d Hd. unfold createCircle. run_factory.
  split; [reflexivity | intros n; apply Hd].
- intros px py d Hd. unfold createRectangle. run_factory.
  split; [reflexivity | intros n; apply Hd].
- apply (createPolygon_places 3).
- apply (createPolygon_places 5).
- apply (createPolygon_places 6).
- apply (createPolygon_places 8).
- apply (createStar_places 5).
- apply (createStar_places 6).
- intros px py d Hd.
  unfold createIrregularPolygon, irregularVertexCount.
  repeat (progress (unfold bind, randomInRange, Math_random, ret;
                    cbv beta iota)).
  rewrite irregularLoop_run. run_factory.
  split; [reflexivity | intros n; apply Hd].
Qed.

Lemma createRandomShape_places (px py : R) (d : Draws) :
  unit_draws d ->
  exists b d',
    createRandomShape matter_vertices px py d = (Some b, d') /\
    position b = Vector.mk px py /\ unit_draws d'.
Proof.
intros Hd.
destruct (selectShape_total (SHAPE_FACTORIES matter_vertices) d Hd)
  as (k & factory & Hk & Hfloor); [discriminate |].
assert (Hp : places factory).
{ pose proof SHAPE_FACTORIES_place as Hall.
  rewrite Forall_forall in Hall. apply Hall.
  eapply nth_error_In; exact Hk. }
destruct (Hp px py (fun i => d (S i)) (unit_draws_tail d Hd)) as [Hpos Hunit].
unfold createRandomShape, selectShape, bind, Math_random.
rewrite Hfloor, array_get_nat, Hk.
destruct (factory px py (fun i => d (S i))) as [b d'] eqn:E.
exists b, d'. cbn in Hpos, Hunit. unfold ret. auto.
Qed.

Lemma spawnNumber_range (u : R) :
  0 <= u < 1 -> (30 <= spawnNumber u <= 50)%Z.
Proof.
intros Hu. unfold spawnNumber.
pose proof (floor_scaled_range u 21 Hu ltac:(lia)) as Hr.
replace (INR 21) with 21 in Hr by (simpl; lra). lia.
Qed.

Lemma spawnLoop_adds (width : nat) (n : nat) :
  (0 < width)%nat ->
  forall (refs : Refs) (e : Engine) (d : Draws),
    unit_draws d -> engineRef refs = Some e ->
    exists news refs' e' d',
      spawnLoop matter_vertices n width refs d = (Some refs', d') /\
      engineRef refs' = Some e' /\
      world e' = world e ++ news /\
      List.length news = n /\
      Forall (placedAtTop width) news.
Proof.
intros Hw. assert (HW : 0 < INR width) by (apply lt_0_INR; exact Hw).
induction n as [| n IH]; intros refs e d Hd He.
- exists [], refs, e, d. cbn. rewrite app_nil_r.
  repeat split; auto.
- cbn [spawnLoop]. unfold bind at 1. unfold Math_random at 1.
  unfold bind at 1.
  destruct (createRandomShape_places (d 0%nat * INR width) (- 50)
              (fun i => d (S i)) (unit_draws_tail d Hd))
    as (b & d1 & Hshape & Hpos & Hd1).
  rewrite Hshape.
  unfold bind at 1. unfold Math_random at 1.
  unfold bind at 1. unfold Math_random at 1.
  set (shape := Body_setVelocity b _).
  assert (He' : engineRef (addBody refs shape) = Some (World_add e [shape])).
  { unfold addBody. rewrite He. reflexivity. }
  destruct (IH (addBody refs shape) (World_add e [shape])
              (fun i => d1 (S (S i)))) as (news & refs' & e' & d' & Hrun & Hr & Hworld & Hlen & Hall).
  { intros i. apply Hd1. }
  { exact He'. }
  exists (shape :: news), refs', e', d'.
  split; [exact Hrun | split; [exact Hr | split; [| split]]].
  + rewrite Hworld. cbn [World_add world]. now rewrite <- app_assoc.
  + cbn. now rewrite Hlen.
  + constructor; [| exact Hall].
    unfold placedAtTop, shape. cbn [Body_setVelocity position].
    rewrite Hpos. cbn. pose proof (Hd 0%nat). split; [reflexivity | nra].
Qed.

(** C10. A run of the spawn effect with a non-zero [spawnCount], a mounted
    canvas of non-zero width and height and an engine in place appends to
    the world exactly [N = floor(u * 21) + 30] bodies, [30 <= N <= 50],
    whatever the draws in [[0,1)]; each of them sits at [y = -50] with
    [x] in [[0, width)]. *)
Theorem spawn_count_and_placement
    (spawnCount width height : nat) (refs : Refs) (e : Engine) (d : Draws) :
  unit_draws d ->
  spawnCount <> 0%nat -> width <> 0%nat -> height <> 0%nat ->
  engineRef refs = Some e ->
  exists (N : Z) (news : list Body) (refs' : Refs) (e' : Engine) (d' : Draws),
    spawnEffect matter_vertices spawnCount true width height refs d
    = (Some refs', d') /\
    engineRef refs' = Some e' /\
    world e' = world e ++ news /\
    N = spawnNumber (d 0%nat) /\
    Z.of_nat (List.length news) = N /\
    (30 <= N <= 50)%Z /\
    Forall (placedAtTop width) news.
Proof.
intros Hd Hs Hw Hh He.
pose proof (spawnNumber_range (d 0%nat) (Hd 0%nat)) as HN.
destruct (spawnLoop_adds width (Z.to_nat (spawnNumber (d 0%nat)))
            ltac:(lia) refs e (fun i => d (S i)) (unit_draws_tail d Hd) He)
  as (news & refs' & e' & d' & Hrun & Hr & Hworld & Hlen & Hall).
exists (spawnNumber (d 0%nat)), news, refs', e', d'.
unfold spawnEffect.
destruct (Nat.eqb_spec spawnCount 0) as [? | _]; [contradiction |].
destruct (Nat.eqb_spec width 0) as [? | _]; [contradiction |].
destruct (Nat.eqb_spec height 0) as [? | _]; [contradiction |].
cbn [negb orb]. unfold bind at 1. unfold Math_random at 1.
repeat split; try assumption; try lia.
Qed.

End Spawning.

Lemma readyRefs_engine : engineRef readyRefs = Some readyEngine.
Proof. reflexivity. Qed.

Lemma spawn_count_and_placement_witness :
  unit_draws (fun _ => 0) /\
  1%nat <> 0%nat /\ 800%nat <> 0%nat /\ 600%nat <> 0%nat /\
  engineRef readyRefs = Some readyEngine /\
  exists (N : Z) (news : list Body) (refs' : Refs) (e' : Engine) (d' : Draws),
    spawnEffect no_vertices 1 true 800 600 readyRefs (fun _ => 0)
    = (Some refs', d') /\
    engineRef refs' = Some e' /\
    world e' = world readyEngine ++ news /\
    N = spawnNumber 0 /\
    Z.of_nat (List.length news) = N /\
    (30 <= N <= 50)%Z /\
    Forall (placedAtTop 800) news.
Proof.
split; [exact zero_draws_unit |].
split; [discriminate |]. split; [discriminate |]. split; [discriminate |].
split; [exact readyRefs_engine |].
apply (spawn_count_and_placement no_vertices 1 800 600 readyRefs readyEngine
         (fun _ => 0) zero_draws_unit);
  [discriminate | discriminate | discriminate | exact readyRefs_engine].
Defined.

(** ** Engine set-up (C3, C6) *)

Section SetUp.

Variable matter_vertices : Geometry -> Vector.t -> R -> list Vector.t.

Lemma useMatter_effect_runs (cfg : Configuration) (width height : nat)
    (refs : Refs) :
  width <> 0%nat -> height <> 0%nat ->
  useMatter_effect matter_vertices cfg true width height refs
  = {| engineRef :=
         Some (World_add
                 (Engine_create (Vector.mk 0 (5 / 10))
                    (cfg_enableSleeping (physics cfg))
                    (cfg_positionIterations (physics cfg))
                    (cfg_velocityIterations (physics cfg)))
                 (walls matter_vertices width height));
       runnerRef := Some (Runner_run Runner_create);
       mouseConstraintRef :=
         Some {| mc_stiffness := 5 / 100; mc_body := None |} |}.
Proof.
intros Hw Hh. unfold useMatter_effect.
destruct (Nat.eqb_spec width 0) as [? | _]; [contradiction |].
destruct (Nat.eqb_spec height 0) as [? | _]; [contradiction |].
reflexivity.
Qed.

Lemma useMatter_effect_waits (cfg : Configuration) (canvas : bool)
    (width height : nat) (refs : Refs) :
  canvas = false \/ width = 0%nat \/ height = 0%nat ->
  useMatter_effect matter_vertices cfg canvas width height refs = refs.
Proof.
intros H. unfold useMatter_effect.
destruct canvas; [| reflexivity]. cbn [negb].
destruct H as [H | [-> | ->]]; [discriminate | reflexivity |].
now rewrite Bool.orb_true_r.
Qed.

(** C3, where the code departs from the specification.  On a mounted 800 x 600 canvas
    the engine is created with the literal gravity [(0, 0.5)], which is not
    [PHYSICS_CONFIG.gravity = (0, 1)], and this whatever gravity the
    configuration holds; sleeping and both iteration counts do come from
    the configuration. *)
Theorem engine_gravity_is_a_literal :
  PHYSICS_CONFIG.(cfg_gravity) = Vector.mk 0 1 /\
  forall cfg : Configuration,
  exists e,
    engineRef (useMatter_effect matter_vertices cfg true 800 600 noRefs)
    = Some e /\
    gravity e = Vector.mk 0 (5 / 10) /\
    gravity e <> PHYSICS_CONFIG.(cfg_gravity) /\
    enableSleeping e = cfg_enableSleeping (physics cfg) /\
    positionIterations e = cfg_positionIterations (physics cfg) /\
    velocityIterations e = cfg_velocityIterations (physics cfg).
Proof.
split; [reflexivity |]. intros cfg.
rewrite useMatter_effect_runs by discriminate.
eexists. split; [reflexivity |]. cbn.
repeat split; try reflexivity.
intros H. injection H as H. lra.
Qed.

(** C6 (as amended).  The set-up validates no coefficient: at every
    configuration, the loop is started exactly when the canvas is mounted
    and both dimensions are non-zero. *)
Theorem loop_starts_whatever_the_coefficients
    (cfg : Configuration) (canvas : bool) (width height : nat) :
  started (useMatter_effect matter_vertices cfg canvas width height noRefs)
  <-> canvas = true /\ width <> 0%nat /\ height <> 0%nat.
Proof.
split.
- intros (r & Hr & _).
  destruct canvas.
  + destruct (Nat.eq_dec width 0) as [Hw | Hw];
      [rewrite useMatter_effect_waits in Hr by auto; discriminate |].
    destruct (Nat.eq_dec height 0) as [Hh | Hh];
      [rewrite useMatter_effect_waits in Hr by auto; discriminate |].
    auto.
  + rewrite useMatter_effect_waits in Hr by auto. discriminate.
- intros (-> & Hw & Hh). rewrite useMatter_effect_runs by assumption.
  eexists. split; reflexivity.
Qed.

End SetUp.

(** C6, a counterexample to the specification as stated.  A configuration with restitution 2
    and density -1 is out of range, yet the set-up starts the loop. *)
Lemma out_of_range_configuration_starts :
  out_of_range badConfiguration /\
  started (useMatter_effect no_vertices badConfiguration true 800 600 noRefs).
Proof.
split.
- unfold out_of_range, badConfiguration. cbn. lra.
- eexists. split; reflexivity.
Qed.

(** ** Off-screen culling (C1) *)

Lemma gtb_true (u v : R) : gtb u v = true <-> v < u.
Proof.
unfold gtb. destruct (Rlt_dec v u); split; intros H;
  try reflexivity; try assumption; try discriminate; contradiction.
Qed.

Lemma gtb_false (u v : R) : gtb u v = false <-> u <= v.
Proof.
unfold gtb. destruct (Rlt_dec v u); split; intros H;
  try reflexivity; try discriminate; lra.
Qed.

Section Culling.

Variable cfg : Configuration.

Lemma beyondThreshold_false (height : nat) (b : Body) :
  beyondThreshold cfg height b = false
  <-> isStatic b = true
      \/ Vector.y (position b) <= INR height + bufferZone (culling cfg).
Proof.
unfold beyondThreshold.
rewrite Bool.andb_false_iff, Bool.negb_false_iff, gtb_false. reflexivity.
Qed.

Lemma cullOffscreenBodies_filter (height : nat) (bodies : list Body) :
  cullOffscreenBodies cfg height bodies
  = filter (fun b => negb (beyondThreshold cfg height b)) bodies.
Proof.
unfold cullOffscreenBodies.
destruct (Nat.ltb_spec 0
            (List.length (filter (beyondThreshold cfg height) bodies)))
  as [_ | Hnone]; [reflexivity |].
assert (Hnil : filter (beyondThreshold cfg height) bodies = [])
  by (apply length_zero_iff_nil; lia).
clear Hnone. induction bodies as [| b bodies IH]; [reflexivity |].
cbn [filter] in *. destruct (beyondThreshold cfg height b); [discriminate |].
cbn [negb]. f_equal. apply IH, Hnil.
Qed.

Lemma ticks_frameCount (n : nat) :
  forall s : Loop,
    (frameCount s < 60)%nat ->
    frameCount (ticks n s) = ((frameCount s + n) mod 60)%nat /\
    loop_bodies (ticks n s) = loop_bodies s.
Proof.
induction n as [| n IH]; intros s Hs.
- cbn [ticks]. rewrite Nat.add_0_r, Nat.mod_small by exact Hs. auto.
- cbn [ticks].
  assert (Hstep : frameCount (afterUpdate s)
                  = (S (frameCount s) mod 60)%nat /\
                  loop_bodies (afterUpdate s) = loop_bodies s).
  { unfold afterUpdate, afterUpdate_with.
    destruct (Nat.leb_spec 60 (S (frameCount s))) as [Hge | Hlt];
      cbn [frameCount loop_bodies]; (split; [| reflexivity]).
    - replace (S (frameCount s)) with 60%nat by lia. reflexivity.
    - now rewrite Nat.mod_small by lia. }
  destruct Hstep as [Hfc Hb].
  destruct (IH (afterUpdate s)) as [IH1 IH2].
  { rewrite Hfc. apply Nat.mod_upper_bound. lia. }
  rewrite IH1, IH2, Hfc, Hb. split; [| reflexivity].
  rewrite Nat.Div0.add_mod_idemp_l. f_equal. lia.
Qed.

(** C1 (as amended).  When the culling check runs on the bodies of the
    world it keeps, in their order, exactly the bodies that are static or
    whose [position.y] is at most [height + bufferZone]: no static body is
    ever removed by it and no dynamic body beyond the threshold is left.
    The [afterUpdate] listener reaches the branch meant for the check on
    every 60th tick only: on the other ticks the world is as it was,
    whatever that branch does. *)
Theorem culling_check_and_its_schedule
    (height : nat) (bodies : list Body) (b : Body)
    (slot : list Body -> list Body) (s : Loop) :
  (In b (cullOffscreenBodies cfg height bodies)
   <-> In b bodies /\
       (isStatic b = true
        \/ Vector.y (position b) <= INR height + bufferZone (culling cfg))) /\
  cullOffscreenBodies cfg height bodies
  = filter (fun b => negb (beyondThreshold cfg height b)) bodies /\
  (afterUpdate_with slot s
   = if (S (frameCount s) <? 60)%nat
     then {| frameCount := S (frameCount s); loop_bodies := loop_bodies s |}
     else {| frameCount := 0; loop_bodies := slot (loop_bodies s) |}).
Proof.
split; [| split].
- rewrite cullOffscreenBodies_filter, filter_In, Bool.negb_true_iff,
    beyondThreshold_false. reflexivity.
- apply cullOffscreenBodies_filter.
- unfold afterUpdate_with.
  destruct (Nat.leb_spec 60 (S (frameCount s))) as [Hge | Hlt];
    destruct (Nat.ltb_spec (S (frameCount s)) 60) as [Hlt' | Hge'];
    try reflexivity; lia.
Qed.

End Culling.

(** C1, a counterexample to the specification as stated.  On a canvas 600 high the threshold is
    1100.  A dynamic body at [y = 1101] is beyond it, and it is still in
    the world after one tick; it is there after sixty ticks as well. *)
Lemma body_beyond_threshold_survives :
  let b := sampleBody 400 1101 0 (Some 30) [] (Some "#FF00FF"%string) in
  let s := {| frameCount := 0; loop_bodies := [b] |} in
  beyondThreshold CONFIGURATION 600 b = true /\
  In b (loop_bodies (ticks 1 s)) /\
  In b (loop_bodies (ticks 60 s)).
Proof.
intros b s. split; [| split].
- unfold beyondThreshold. cbn [isStatic b sampleBody negb andb].
  apply gtb_true. cbn. lra.
- left. reflexivity.
- destruct (ticks_frameCount 60 s ltac:(cbn; lia)) as [_ Hb].
  rewrite Hb. left. reflexivity.
Qed.

(** ** Pointer gestures (C2) *)

Lemma drag_covers_step (p : Pointer) (ev : PointerEvent) :
  drag_covers p -> drag_covers (pointer_step p ev).
Proof.
intros [Hheld Hincl].
destruct ev as [hit | hit | | |]; cbn [pointer_step];
  try (split; [exact Hheld | exact Hincl]).
- unfold MouseConstraint_update.
  destruct (pressed p).
  + destruct (held p) as [r |] eqn:Eh; [rewrite <- Eh in *; now split |].
    destruct (under p) as [r |]; [| split; [rewrite Eh | ]; assumption].
    split; cbn.
    * intros r' H. injection H as <-. now left.
    * intros x Hx. right. now apply Hincl.
  + split; cbn; [discriminate | exact Hincl].
- unfold handleMouseClick.
  destruct (held p) as [r |] eqn:Eh; [| split; [rewrite Eh |]; assumption].
  destruct (negb (isStatic (bodies_of p r)));
    [| split; [rewrite Eh |]; assumption].
  split; cbn.
  + exact Hheld.
  + intros x [<- | Hx]; [apply Hheld; reflexivity | now apply Hincl].
Qed.

Lemma drag_covers_gesture (evs : list PointerEvent) :
  forall p, drag_covers p -> drag_covers (gesture p evs).
Proof.
induction evs as [| ev evs IH]; intros p Hp; [exact Hp |].
cbn. apply IH, drag_covers_step, Hp.
Qed.

(** C2 (as amended).  The click listener applies the upward force
    [(0, -0.05)] to the body held by the mouse constraint when that body
    is not static, leaving the constraint attached, and does nothing when
    no body is held.  So, in any sequence of pointer events from rest,
    every body that received the click force is a body the drag constraint
    was attached to: the impulse never comes without the drag. *)
Theorem click_force_only_on_the_dragged_body
    (s : Store) (evs : list PointerEvent) (p : Pointer) (r : Ref) :
  incl (clickLog (gesture (idle s) evs)) (dragLog (gesture (idle s) evs)) /\
  (held p = None -> handleMouseClick p = p) /\
  (held p = Some r -> isStatic (bodies_of p r) = true ->
   handleMouseClick p = p) /\
  (held p = Some r -> isStatic (bodies_of p r) = false ->
   held (handleMouseClick p) = Some r /\
   clickLog (handleMouseClick p) = r :: clickLog p /\
   bodies_of (handleMouseClick p) r
   = Body_applyForce (bodies_of p r) (position (bodies_of p r))
       (Vector.mk 0 (- (5 / 100)))).
Proof.
split; [| split; [| split]].
- apply (drag_covers_gesture evs (idle s)).
  split; cbn; [discriminate | intros x []].
- intros H. unfold handleMouseClick. now rewrite H.
- intros H Hs. unfold handleMouseClick. now rewrite H, Hs.
- intros H Hs. unfold handleMouseClick. rewrite H, Hs. cbn.
  repeat split; try assumption.
  unfold store_set. now rewrite Nat.eqb_refl.
Qed.

Lemma click_force_only_on_the_dragged_body_witness :
  let p := gesture (idle sampleStore) [MouseDown (Some 0%nat); BeforeUpdate] in
  held p = Some 0%nat /\ isStatic (bodies_of p 0%nat) = false /\
  held (handleMouseClick p) = Some 0%nat.
Proof.
intros p. split; [reflexivity |]. split; [reflexivity |].
apply (click_force_only_on_the_dragged_body sampleStore [] p 0%nat);
  reflexivity.
Defined.

(** C2, a counterexample to the specification as stated.  A press on a dynamic body, released
    without a move a tick later: the drag constraint was attached to the
    body and the click force was applied to it as well.  The same happens
    at the end of a press-move-release gesture.  And when no tick falls
    between press and release, neither interaction takes place. *)
Lemma one_gesture_drags_and_bounces :
  let press_release :=
    gesture (idle sampleStore)
      [MouseDown (Some 0%nat); BeforeUpdate; MouseUp; Click] in
  let press_move_release :=
    gesture (idle sampleStore)
      [MouseDown (Some 0%nat); BeforeUpdate; MouseMove None; BeforeUpdate;
       MouseUp; Click] in
  let quick :=
    gesture (idle sampleStore) [MouseDown (Some 0%nat); MouseUp; Click] in
  isStatic (sampleStore 0%nat) = false /\
  (dragLog press_release = [0%nat] /\ clickLog press_release = [0%nat]) /\
  (dragLog press_move_release = [0%nat] /\
   clickLog press_move_release = [0%nat]) /\
  (dragLog quick = [] /\ clickLog quick = []).
Proof.
cbn. repeat split; reflexivity.
Qed.

(** ** Collision flash (C5) *)

Lemma set_fillStyle_same (b : Body) :
  set_fillStyle b (fillStyle (render b)) = b.
Proof. destruct b as [? ? ? ? ? ? ? ? ? ? ? ? ? []]. reflexivity. Qed.

Lemma only_fill_refl (s : Store) : only_fill s s.
Proof. intros r. split; [symmetry; apply set_fillStyle_same | auto]. Qed.

Lemma only_fill_trans (s1 s2 s3 : Store) :
  only_fill s1 s2 -> only_fill s2 s3 -> only_fill s1 s3.
Proof.
intros H12 H23 r.
destruct (H12 r) as [E12 S12]. destruct (H23 r) as [E23 S23].
split.
- rewrite E23 at 1. rewrite E12. reflexivity.
- intros Hs. rewrite S23; [now apply S12 |].
  rewrite (S12 Hs). exact Hs.
Qed.

Lemma only_fill_isStatic (s s' : Store) (r : Ref) :
  only_fill s s' -> isStatic (s' r) = isStatic (s r).
Proof. intros H. destruct (H r) as [E _]. rewrite E. reflexivity. Qed.

Lemma flash_only_fill (p : Page) (r : Ref) :
  isStatic (page_bodies p r) = false ->
  only_fill (page_bodies p) (page_bodies (flash p r)).
Proof.
intros Hdyn r'. unfold flash, store_set. cbn [page_bodies].
destruct (Nat.eqb_spec r' r) as [-> | _].
- split; [reflexivity | congruence].
- split; [symmetry; apply set_fillStyle_same | auto].
Qed.

Lemma flashes_only_fill (rs : list Ref) :
  forall p,
    Forall (fun r => isStatic (page_bodies p r) = false) rs ->
    only_fill (page_bodies p) (page_bodies (fold_left flash rs p)).
Proof.
induction rs as [| r rs IH]; intros p Hall; [apply only_fill_refl |].
inversion Hall as [| ? ? Hr Hrs]; subst. cbn [fold_left].
pose proof (flash_only_fill p r Hr) as Hstep.
eapply only_fill_trans; [exact Hstep |].
apply IH. rewrite Forall_forall in *. intros x Hx.
rewrite (only_fill_isStatic _ _ x Hstep). now apply Hrs.
Qed.

Lemma flashPair_only_fill (p : Page) (pair : Ref * Ref) :
  only_fill (page_bodies p) (page_bodies (flashPair p pair)).
Proof.
destruct pair as [a b]. unfold flashPair.
apply flashes_only_fill. rewrite Forall_forall. intros x Hx.
apply filter_In in Hx. destruct Hx as [_ Hx].
now apply Bool.negb_true_iff in Hx.
Qed.

(** The handler changes nothing but fill colours, and nothing at all on a
    static body. *)
Lemma handleCollision_only_fill (pairs : list (Ref * Ref)) :
  forall p, only_fill (page_bodies p) (page_bodies (handleCollision pairs p)).
Proof.
unfold handleCollision.
induction pairs as [| pair pairs IH]; intros p; [apply only_fill_refl |].
cbn [fold_left]. eapply only_fill_trans; [apply flashPair_only_fill | apply IH].
Qed.

(** C5, where the code departs from the specification.  Body 0, magenta, takes part in
    two pairs of one [collisionStart] event.  Both flashes are over after
    100 ms, no timer is pending, and the body is white, not magenta: the
    second flash saved the white of the first as its "original" colour.
    The same happens when a second event flashes the body 50 ms into the
    first flash.  A single flash does revert. *)
Theorem overlapping_flashes_leave_the_body_white :
  let same_event := advance 100 (handleCollision [(0, 1); (0, 2)]%nat restingPage) in
  let two_events :=
    advance 150
      (handleCollision [(0, 2)]%nat
         (advance 50 (handleCollision [(0, 1)]%nat restingPage))) in
  let single := advance 100 (handleCollision [(0, 1)]%nat restingPage) in
  fillStyle (render (page_bodies restingPage 0%nat)) = Some "#FF00FF"%string /\
  (timers same_event = [] /\
   fillStyle (render (page_bodies same_event 0%nat)) = Some "#FFFFFF"%string) /\
  (timers two_events = [] /\
   fillStyle (render (page_bodies two_events 0%nat)) = Some "#FFFFFF"%string) /\
  (timers single = [] /\
   fillStyle (render (page_bodies single 0%nat)) = Some "#FF00FF"%string).
Proof.
cbn. repeat split; reflexivity.
Qed.

(** ** Rendering (C4) *)

Lemma lineTo_fold (body : Body) (rest : list Vector.t) :
  forall c,
    fold_left
      (fun c v =>
         ctx_lineTo c (Vector.x v - Vector.x (position body))
           (Vector.y v - Vector.y (position body)))
      rest c
    = with_path c
        (rev (map (fun v => LineTo (transform (ctm c) (offset body v))) rest)
         ++ path c).
Proof.
induction rest as [| v rest IH]; intros c.
- destruct c; reflexivity.
- cbn [fold_left]. rewrite IH. unfold ctx_lineTo, with_path. cbn.
  rewrite <- app_assoc. reflexivity.
Qed.

Lemma drawPolygon_path (c : Ctx) (body : Body) :
  vertices body <> [] ->
  exists c',
    drawPolygon c body = Some c' /\
    ctm c' = ctm c /\ style c' = style c /\ saved c' = saved c /\
    drawn c'
    = Stroked (polygonPath (ctm c) body) (style c)
      :: Filled (polygonPath (ctm c) body) (style c) :: drawn c.
Proof.
intros Hne. unfold drawPolygon, polygonPath.
destruct (vertices body) as [| v0 rest]; [congruence |].
eexists. split; [reflexivity |].
rewrite lineTo_fold. unfold ctx_stroke, ctx_fill, ctx_closePath, ctx_moveTo,
  ctx_beginPath, with_path. cbn.
rewrite rev_app_distr, rev_involutive. cbn.
repeat split; reflexivity.
Qed.

Lemma transform_bodyMatrix (body : Body) (v : Vector.t) :
  transform (bodyMatrix freshCtx body) (offset body v)
  = turnedAbout (position body) (angle body) v.
Proof.
unfold transform, bodyMatrix, rotated, translated, offset, turnedAbout.
cbn. f_equal; ring.
Qed.

(** What [render] does for one body: nothing for a static body; for a
    polygon with a fill colour, one filled and one stroked path through the
    body's vertices, each turned by [body.angle] about [body.position]. *)
Lemma renderBody_static (c : Ctx) (body : Body) (d : Draws) :
  isStatic body = true -> renderBody c body d = (Some (c, body), d).
Proof. intros H. unfold renderBody. rewrite H. reflexivity. Qed.

Lemma renderBody_polygon (body : Body) (d : Draws) :
  isStatic body = false -> falsy (fillStyle (render body)) = false ->
  circleOf body = None -> vertices body <> [] ->
  exists c',
    renderBody freshCtx body d = (Some (c', body), d) /\
    ctm c' = identity /\
    drawn c'
    = [ Stroked (polygonPath (bodyMatrix freshCtx body) body)
          (bodyStyle (fillStyle (render body)));
        Filled (polygonPath (bodyMatrix freshCtx body) body)
          (bodyStyle (fillStyle (render body))) ] /\
    pathPoints (polygonPath (bodyMatrix freshCtx body) body)
    = map (turnedAbout (position body) (angle body)) (vertices body).
Proof.
intros Hdyn Hfill Hpoly Hne.
unfold renderBody. rewrite Hdyn, Hfill. unfold bind, ret. rewrite Hpoly.
set (c := with_style _ _).
destruct (drawPolygon_path c body Hne) as (c' & Hdraw & Hctm & Hsty & Hsaved & Hdrawn).
rewrite Hdraw. eexists. split; [reflexivity |].
unfold ctx_restore. rewrite Hsaved. cbn [c with_style saved ctx_rotate
  ctx_translate with_ctm ctx_save freshCtx ctm drawn].
split; [reflexivity | split].
- rewrite Hdrawn. reflexivity.
- unfold polygonPath. destruct (vertices body) as [| v0 rest]; [congruence |].
  cbn [pathPoints map]. rewrite transform_bodyMatrix. f_equal.
  clear Hne. induction rest as [| v rest IH]; [reflexivity |].
  cbn [map app pathPoints]. rewrite transform_bodyMatrix. f_equal. exact IH.
Qed.

Lemma renderBody_circle (body : Body) (radius : R) (d : Draws) :
  isStatic body = false -> falsy (fillStyle (render body)) = false ->
  circleOf body = Some radius -> 0 < radius ->
  exists c',
    renderBody freshCtx body d = (Some (c', body), d) /\
    drawn c'
    = [ Stroked [Arc (bodyMatrix freshCtx body) 0 0 radius 0 (PI * 2)]
          (bodyStyle (fillStyle (render body)));
        Filled [Arc (bodyMatrix freshCtx body) 0 0 radius 0 (PI * 2)]
          (bodyStyle (fillStyle (render body))) ] /\
    transform (bodyMatrix freshCtx body) (Vector.mk 0 0) = position body.
Proof.
intros Hdyn Hfill Hcircle Hpos.
unfold renderBody. rewrite Hdyn, Hfill. unfold bind, ret. rewrite Hcircle.
unfold drawCircle, ctx_arc. destruct (Rlt_dec radius 0) as [Hneg | _]; [lra |].
eexists. split; [reflexivity |]. split; [reflexivity |].
unfold transform, bodyMatrix, rotated, translated. cbn.
destruct (position body) as [px py]. cbn. f_equal; ring.
Qed.

(** C4, where the code departs from the specification.  [render] draws the polygon
    through its world-space vertices turned once more by [body.angle]
    about [body.position]: for a body at angle [pi / 2] whose world
    vertices are (101,98), (101,102), (99,102), (99,98), the path filled
    and stroked runs through (102,101), (98,101), (98,99), (102,99), which
    are not the body's vertices. *)
Theorem polygon_is_drawn_turned_twice :
  exists c' path,
    renderBody freshCtx uprightRectangle (fun _ => 0)
    = (Some (c', uprightRectangle), fun _ => 0) /\
    drawn c'
    = [ Stroked path (bodyStyle (Some "#FF00FF"%string));
        Filled path (bodyStyle (Some "#FF00FF"%string)) ] /\
    pathPoints path
    = [ Vector.mk 102 101; Vector.mk 98 101; Vector.mk 98 99;
        Vector.mk 102 99 ] /\
    pathPoints path <> vertices uprightRectangle.
Proof.
destruct (renderBody_polygon uprightRectangle (fun _ => 0))
  as (c' & Hrun & _ & Hdrawn & Hpoints);
  try reflexivity; try discriminate.
exists c', (polygonPath (bodyMatrix freshCtx uprightRectangle) uprightRectangle).
assert (Hpts : pathPoints
                 (polygonPath (bodyMatrix freshCtx uprightRectangle)
                    uprightRectangle)
               = [ Vector.mk 102 101; Vector.mk 98 101; Vector.mk 98 99;
                   Vector.mk 102 99 ]).
{ rewrite Hpoints. unfold turnedAbout, uprightRectangle, sampleBody.
  cbn [map vertices position angle Vector.x Vector.y].
  rewrite cos_PI2, sin_PI2.
  repeat (f_equal; try lra). }
split; [exact Hrun | split; [exact Hdrawn | split; [exact Hpts |]]].
rewrite Hpts. cbn. intros H. injection H as H _. lra.
Qed.

(** * Further properties of the code *)

(** ** lib/shape-factory.ts *)

Lemma palette_pick (colors : list string) (u : R) :
  0 <= u < 1 -> colors <> [] ->
  exists k c,
    nth_error colors k = Some c /\
    array_get colors (Math_floor (u * INR (List.length colors))) = Some c /\
    INR k / INR (List.length colors) <= u
      < (INR k + 1) / INR (List.length colors).
Proof.
intros Hu Hne.
assert (Hn : (0 < List.length colors)%nat)
  by (destruct colors; [congruence | simpl; lia]).
destruct (floor_scaled_range u _ Hu Hn) as [H0 H1].
set (z := Math_floor _) in *.
assert (Hz : z = Z.of_nat (Z.to_nat z)) by lia.
destruct (nth_error colors (Z.to_nat z)) as [c |] eqn:E.
- exists (Z.to_nat z), c. split; [exact E | split].
  + rewrite Hz, array_get_nat. exact E.
  + apply (floor_scaled u _ _ Hn). exact Hz.
- apply nth_error_None in E. lia.
Qed.

Lemma getRandomColor_run (d : Draws) :
  unit_draws d ->
  exists k c,
    nth_error COLORS k = Some c /\
    INR k / 8 <= d 0%nat < (INR k + 1) / 8 /\
    getRandomColor d = (Some c, fun n => d (S n)).
Proof.
intros Hd.
destruct (palette_pick COLORS (d 0%nat) (Hd 0%nat)) as (k & c & Hk & Hget & Hu);
  [discriminate |].
exists k, c. split; [exact Hk | split].
- replace 8 with (INR (List.length COLORS)) by (simpl; lra). exact Hu.
- unfold getRandomColor, bind, Math_random, ret. now rewrite Hget.
Qed.

(** X1.  On draws in [[0,1)], [getRandomColor] never yields [undefined]:
    it returns the palette entry [COLORS[k]] for the [k] with
    [k/8 <= u < (k+1)/8], so each of the eight colours has an interval of
    length 1/8, and it uses up exactly one draw. *)
Theorem getRandomColor_from_palette (d : Draws) :
  unit_draws d ->
  exists k c,
    (k < 8)%nat /\ nth_error COLORS k = Some c /\ In c COLORS /\
    INR k / 8 <= d 0%nat < (INR k + 1) / 8 /\
    fst (getRandomColor d) = Some c /\
    consumes 1 d (snd (getRandomColor d)).
Proof.
intros Hd. destruct (getRandomColor_run d Hd) as (k & c & Hk & Hu & Hrun).
exists k, c. rewrite Hrun. cbn [fst snd].
assert (Hlt : (k < List.length COLORS)%nat)
  by (apply nth_error_Some; congruence).
split; [exact Hlt | split; [exact Hk | split]].
- eapply nth_error_In; exact Hk.
- split; [exact Hu | split; [reflexivity | intros m; reflexivity]].
Qed.

Lemma getRandomColor_from_palette_witness :
  unit_draws (fun _ => 0) /\
  exists k c,
    (k < 8)%nat /\ nth_error COLORS k = Some c /\ In c COLORS /\
    INR k / 8 <= 0 < (INR k + 1) / 8 /\
    fst (getRandomColor (fun _ => 0)) = Some c /\
    consumes 1 (fun _ => 0) (snd (getRandomColor (fun _ => 0))).
Proof.
split; [exact zero_draws_unit |].
apply (getRandomColor_from_palette (fun _ => 0) zero_draws_unit).
Defined.

(** X2.  In binary64 arithmetic [randomInRange(min, max)] lies in the
    closed interval [[min, max]], as its comment says, whenever [min] is a
    float and [max] is what [(max - min) + min] rounds to (so for integer
    ends): the upper end can be reached, as [randomInRange(4, 8)] does on
    the largest draw below 1.  The result grows with the draw, is [min] on
    the draw 0, and one draw is used. *)
Theorem randomInRange_closed_range (lo hi : R) (d d2 : Draws) :
  unit_draws d -> unit_draws d2 -> 0 <= lo <= hi ->
  fl lo = lo -> add64 (sub64 hi lo) lo = hi ->
  lo <= fst (randomInRange64 lo hi d) <= hi /\
  (d 0%nat <= d2 0%nat ->
   fst (randomInRange64 lo hi d) <= fst (randomInRange64 lo hi d2)) /\
  (d 0%nat = 0 -> fst (randomInRange64 lo hi d) = lo) /\
  consumes 1 d (snd (randomInRange64 lo hi d)) /\
  lastDraw < 1 /\ fst (randomInRange64 4 8 (fun _ => lastDraw)) = 8.
Proof.
intros Hd Hd2 Hlo Hfix Hclose.
pose proof (Hd 0%nat) as Hu. pose proof (Hd2 0%nat) as Hu2.
split; [apply randomInRange64_bounds; assumption |].
split; [| split; [| split; [| split]]].
- intros Hle. rewrite !randomInRange64_run. cbn [fst].
  apply randomInRange64_le; lra.
- intros H0. rewrite randomInRange64_run. cbn [fst].
  unfold add64, mul64. rewrite H0, Rmult_0_l, fl_0, Rplus_0_l. exact Hfix.
- intros m. reflexivity.
- apply lastDraw_unit.
- exact randomInRange64_reaches_max.
Qed.

Lemma randomInRange_closed_range_witness :
  unit_draws (fun _ => 0) /\ 0 <= 20 <= 50 /\
  fl 20 = 20 /\ add64 (sub64 50 20) 20 = 50 /\
  20 <= fst (randomInRange64 20 50 (fun _ => 0)) <= 50.
Proof.
destruct (integers_close 20 50 ltac:(lia) ltac:(lia)) as [Hfix Hclose].
assert (Hlo : 0 <= 20 <= 50) by lra.
split; [exact zero_draws_unit |]. split; [exact Hlo |].
split; [exact Hfix |]. split; [exact Hclose |].
apply (randomInRange_closed_range 20 50 (fun _ => 0) (fun _ => 0)
         zero_draws_unit zero_draws_unit Hlo Hfix Hclose).
Defined.

Ltac run_rand :=
  repeat (progress (unfold bind, randomInRange, Math_random, ret;
                    cbv beta iota)).

Ltac pick_color Hd :=
  match goal with
  | |- context [getRandomColor ?s] =>
      let k := fresh "k" in
      let c := fresh "c" in
      let Hk := fresh "Hk" in
      let Hu := fresh "Hu" in
      let Hrun := fresh "Hrun" in
      destruct (getRandomColor_run s) as (k & c & Hk & Hu & Hrun);
      [ intros ?; apply Hd | rewrite Hrun; cbv beta iota ]
  end.

Lemma shapeOptions_made (g : Geometry) (px py : R) (a : option R)
    (c : string) (mv : Geometry -> Vector.t -> R -> list Vector.t) :
  In c COLORS ->
  factoryMade (Bodies_create mv g px py (shapeOptions a (Some c))) /\
  position (Bodies_create mv g px py (shapeOptions a (Some c)))
  = Vector.mk px py.
Proof.
intros Hc. unfold factoryMade, Bodies_create, shapeOptions, BODY_DEFAULTS.
cbn. repeat split; try reflexivity. exists c. auto.
Qed.

Section FactoryProducts.

Variable matter_vertices : Geometry -> Vector.t -> R -> list Vector.t.

Ltac made Hk :=
  apply shapeOptions_made; eapply nth_error_In; exact Hk.

Lemma createCircle_produces : produces 2 2 (createCircle matter_vertices).
Proof.
intros px py d Hd. exists 2%nat. unfold createCircle. run_rand.
pick_color Hd. cbn [fst snd]. unfold Bodies_circle.
split; [lia | split; [made Hk | split; [made Hk | intros m; reflexivity]]].
Qed.

Lemma createRectangle_produces :
  produces 4 4 (createRectangle matter_vertices).
Proof.
intros px py d Hd. exists 4%nat. unfold createRectangle. run_rand.
pick_color Hd. cbn [fst snd]. unfold Bodies_rectangle.
split; [lia | split; [made Hk | split; [made Hk | intros m; reflexivity]]].
Qed.

Lemma createPolygon_produces (sides : nat) :
  produces 3 3 (fun px py => createPolygon matter_vertices px py sides).
Proof.
intros px py d Hd. exists 3%nat. unfold createPolygon. run_rand.
pick_color Hd. cbn [fst snd]. unfold Bodies_polygon.
split; [lia | split; [made Hk | split; [made Hk | intros m; reflexivity]]].
Qed.

Lemma createStar_produces (points : nat) :
  produces 2 2 (fun px py => createStar matter_vertices px py points).
Proof.
intros px py d Hd. exists 2%nat. unfold createStar. run_rand.
pick_color Hd. cbn [fst snd]. unfold Bodies_fromVertices.
split; [lia | split; [made Hk | split; [made Hk | intros m; reflexivity]]].
Qed.

Lemma createIrregularPolygon_produces :
  produces 7 10 (createIrregularPolygon matter_vertices).
Proof.
intros px py d Hd.
destruct (irregularVertexCount_range d Hd) as [Hcount Hrange].
rewrite Hcount in Hrange.
exists (3 + Z.to_nat (Math_floor (d 0%nat * (8 - 4) + 4)))%nat.
unfold createIrregularPolygon, irregularVertexCount. run_rand.
rewrite irregularLoop_run. cbv beta iota.
pick_color Hd. cbn [fst snd]. unfold Bodies_fromVertices.
split; [lia | split; [made Hk | split; [made Hk |]]].
intros m. f_equal. lia.
Qed.

Lemma SHAPE_FACTORIES_produce :
  Forall (produces 2 10) (SHAPE_FACTORIES matter_vertices).
Proof.
assert (Hweak : forall lo hi f,
          (2 <= lo)%nat -> (hi <= 10)%nat ->
          produces lo hi f -> produces 2 10 f).
{ intros lo hi f Hlo Hhi Hf px py d Hd.
  destruct (Hf px py d Hd) as (k & Hk & Hrest).
  exists k. split; [lia | exact Hrest]. }
unfold SHAPE_FACTORIES.
repeat apply Forall_cons; try apply Forall_nil.
- apply (Hweak 2 2)%nat; [lia | lia | apply createCircle_produces].
- apply (Hweak 4 4)%nat; [lia | lia | apply createRectangle_produces].
- apply (Hweak 3 3)%nat; [lia | lia | apply (createPolygon_produces 3)].
- apply (Hweak 3 3)%nat; [lia | lia | apply (createPolygon_produces 5)].
- apply (Hweak 3 3)%nat; [lia | lia | apply (createPolygon_produces 6)].
- apply (Hweak 3 3)%nat; [lia | lia | apply (createPolygon_produces 8)].
- apply (Hweak 2 2)%nat; [lia | lia | apply (createStar_produces 5)].
- apply (Hweak 2 2)%nat; [lia | lia | apply (createStar_produces 6)].
- apply (Hweak 7 10)%nat; [lia | lia | apply createIrregularPolygon_produces].
Qed.

Lemma createRandomShape_run (px py : R) (d : Draws) :
  unit_draws d ->
  exists b d' k,
    createRandomShape matter_vertices px py d = (Some b, d') /\
    (3 <= k <= 11)%nat /\ factoryMade b /\
    position b = Vector.mk px py /\ consumes k d d'.
Proof.
intros Hd.
destruct (selectShape_total (SHAPE_FACTORIES matter_vertices) d Hd)
  as (i & factory & Hi & Hfloor); [discriminate |].
assert (Hp : produces 2 10 factory).
{ pose proof SHAPE_FACTORIES_produce as Hall.
  rewrite Forall_forall in Hall. apply Hall.
  eapply nth_error_In; exact Hi. }
destruct (Hp px py (fun n => d (S n)) (unit_draws_tail d Hd))
  as (k & Hk & Hmade & Hpos & Hcons).
unfold createRandomShape, selectShape, bind, Math_random.
rewrite Hfloor, array_get_nat, Hi.
destruct (factory px py (fun n => d (S n))) as [b d'] eqn:E.
exists b, d', (S k). cbn [fst snd] in *. unfold ret.
split; [reflexivity | split; [lia | split; [exact Hmade | split]]].
- exact Hpos.
- intros m. rewrite Hcons. reflexivity.
Qed.

(** X3.  On draws in [[0,1)], [createRandomShape] never throws: it returns
    a body at the requested position that is dynamic, at rest, carries the
    coefficients of [BODY_DEFAULTS] (restitution 0.8, friction 0.1, air
    friction 0.01, density 0.001), a fill colour of the palette, a black
    stroke and line width 5. *)
Theorem createRandomShape_makes_a_default_body (px py : R) (d : Draws) :
  unit_draws d ->
  exists b,
    fst (createRandomShape matter_vertices px py d) = Some b /\
    position b = Vector.mk px py /\ factoryMade b.
Proof.
intros Hd.
destruct (createRandomShape_run px py d Hd)
  as (b & d' & k & Hrun & _ & Hmade & Hpos & _).
exists b. rewrite Hrun. auto.
Qed.

End FactoryProducts.

Lemma createRandomShape_makes_a_default_body_witness :
  unit_draws (fun _ => 0) /\
  exists b,
    fst (createRandomShape no_vertices 100 (- 50) (fun _ => 0)) = Some b /\
    position b = Vector.mk 100 (- 50) /\ factoryMade b.
Proof.
split; [exact zero_draws_unit |].
apply (createRandomShape_makes_a_default_body no_vertices 100 (- 50)
         (fun _ => 0) zero_draws_unit).
Defined.

Ltac run_rand64 :=
  repeat (progress (unfold bind, randomInRange64, Math_random, ret;
                    cbv beta iota)).

Section FactoryProducts64.

Variable matter_vertices : Geometry -> Vector.t -> R -> list Vector.t.
Variable cos64 : R -> R.
Variable sin64 : R -> R.

Ltac made64 Hk :=
  apply shapeOptions_made; eapply nth_error_In; exact Hk.

Lemma createCircle64_produces :
  produces 2 2 (createCircle64 matter_vertices).
Proof.
intros px py d Hd. exists 2%nat. unfold createCircle64. run_rand64.
pick_color Hd. cbn [fst snd]. unfold Bodies_circle.
split; [lia | split; [made64 Hk | split; [made64 Hk | intros m; reflexivity]]].
Qed.

Lemma createRectangle64_produces :
  produces 4 4 (createRectangle64 matter_vertices).
Proof.
intros px py d Hd. exists 4%nat. unfold createRectangle64. run_rand64.
pick_color Hd. cbn [fst snd]. unfold Bodies_rectangle.
split; [lia | split; [made64 Hk | split; [made64 Hk | intros m; reflexivity]]].
Qed.

Lemma createPolygon64_produces (sides : nat) :
  produces 3 3 (fun px py => createPolygon64 matter_vertices px py sides).
Proof.
intros px py d Hd. exists 3%nat. unfold createPolygon64. run_rand64.
pick_color Hd. cbn [fst snd]. unfold Bodies_polygon.
split; [lia | split; [made64 Hk | split; [made64 Hk | intros m; reflexivity]]].
Qed.

Lemma createStar64_produces (points : nat) :
  produces 2 2
    (fun px py => createStar64 matter_vertices cos64 sin64 px py points).
Proof.
intros px py d Hd. exists 2%nat. unfold createStar64. run_rand64.
pick_color Hd. cbn [fst snd]. unfold Bodies_fromVertices.
split; [lia | split; [made64 Hk | split; [made64 Hk | intros m; reflexivity]]].
Qed.

Lemma createIrregularPolygon64_produces :
  produces 7 11 (createIrregularPolygon64 matter_vertices cos64 sin64).
Proof.
intros px py d Hd.
pose proof (irregularVertexCount64_range d Hd) as Hrange.
destruct (createIrregularPolygon64_run matter_vertices cos64 sin64 px py d)
  as [Hrun Hcons].
cbv zeta in Hrun, Hcons.
exists (3 + Z.to_nat (fst (irregularVertexCount64 d)))%nat.
split; [lia |]. rewrite Hrun.
destruct (getRandomColor_run
            (skip (2 + Z.to_nat (fst (irregularVertexCount64 d))) d))
  as (k & c & Hk & _ & Hcol); [apply unit_draws_skip, Hd |].
rewrite Hcol. cbn [fst]. unfold Bodies_fromVertices.
split; [made64 Hk | split; [made64 Hk | exact Hcons]].
Qed.

(** X4.  How many draws of [Math.random] a factory uses: 2 for a circle
    or a star, 3 for a regular polygon, 4 for a rectangle, and for an
    irregular polygon three plus one per vertex, which is between 7 and
    11.  Each factory returns a body of the default make at the requested
    position. *)
Theorem shape_factories_draw_counts :
  produces 2 2 (createCircle64 matter_vertices) /\
  produces 4 4 (createRectangle64 matter_vertices) /\
  produces 3 3 (createTriangle64 matter_vertices) /\
  produces 3 3 (createPentagon64 matter_vertices) /\
  produces 3 3 (createHexagon64 matter_vertices) /\
  produces 3 3 (createOctagon64 matter_vertices) /\
  produces 2 2 (create5PointStar64 matter_vertices cos64 sin64) /\
  produces 2 2 (create6PointStar64 matter_vertices cos64 sin64) /\
  produces 7 11 (createIrregularPolygon64 matter_vertices cos64 sin64) /\
  forall px py d,
    consumes (3 + Z.to_nat (fst (irregularVertexCount64 d))) d
      (snd (createIrregularPolygon64 matter_vertices cos64 sin64 px py d)).
Proof.
split; [apply createCircle64_produces |].
split; [apply createRectangle64_produces |].
split; [apply (createPolygon64_produces 3) |].
split; [apply (createPolygon64_produces 5) |].
split; [apply (createPolygon64_produces 6) |].
split; [apply (createPolygon64_produces 8) |].
split; [apply (createStar64_produces 5) |].
split; [apply (createStar64_produces 6) |].
split; [apply createIrregularPolygon64_produces |].
intros px py d.
apply (createIrregularPolygon64_run matter_vertices cos64 sin64 px py d).
Qed.

End FactoryProducts64.

Lemma angle64_bounds (u : R) :
  0 <= u < 1 -> 0 <= mul64 (mul64 u PI64) 2 <= mul64 PI64 2.
Proof.
intros Hu. pose proof PI_RGT_0 as Hpi.
assert (H0 : 0 <= PI64) by (apply fl_nonneg; lra).
assert (H1 : 0 <= mul64 u PI64 <= PI64).
{ unfold mul64. split; [apply fl_nonneg; nra |].
  replace PI64 with (fl PI64) at 2 by (apply fl_idem; lra).
  apply fl_le; nra. }
unfold mul64 at 1 3. split; [apply fl_nonneg; lra | apply fl_le; lra].
Qed.

Section FactoryRanges64.

Variable matter_vertices : Geometry -> Vector.t -> R -> list Vector.t.

(** X5.  [createRectangle] draws width and height independently in
    [[30,80]] (draws 0 and 1) and an initial angle between 0 and
    [Math.PI * 2] (draw 2), bounds included, and hands exactly these to
    [Bodies.rectangle]. *)
Theorem createRectangle_ranges (px py : R) (d : Draws) :
  unit_draws d ->
  let width := fst (randomInRange64 30 80 d) in
  let height := fst (randomInRange64 30 80 (skip 1 d)) in
  let a := mul64 (mul64 (d 2%nat) PI64) 2 in
  30 <= width <= 80 /\ 30 <= height <= 80 /\ 0 <= a <= mul64 PI64 2 /\
  angle (fst (createRectangle64 matter_vertices px py d)) = a /\
  exists color,
    In color COLORS /\
    fst (createRectangle64 matter_vertices px py d)
    = Bodies_rectangle matter_vertices px py width height
        (shapeOptions (Some a) (Some color)).
Proof.
intros Hd width height a.
assert (Hrun : exists color,
          In color COLORS /\
          fst (createRectangle64 matter_vertices px py d)
          = Bodies_rectangle matter_vertices px py width height
              (shapeOptions (Some a) (Some color))).
{ unfold createRectangle64. run_rand64. pick_color Hd. cbn [fst].
  exists c. split; [eapply nth_error_In; exact Hk | reflexivity]. }
split; [apply (integer_range_bounds 30 80); [exact Hd | lia | lia] |].
split; [apply (integer_range_bounds 30 80);
        [apply unit_draws_skip, Hd | lia | lia] |].
split; [apply angle64_bounds, Hd |].
split; [| exact Hrun].
destruct Hrun as (color & _ & ->). reflexivity.
Qed.

(** X6.  [createPolygon(x, y, sides)] draws the radius in [[25,45]] and an
    initial angle between 0 and [Math.PI * 2], bounds included, and passes
    [sides] on unchanged; the triangle, pentagon, hexagon and octagon
    factories are this with 3, 5, 6 and 8 sides. *)
Theorem createPolygon_ranges (px py : R) (sides : nat) (d : Draws) :
  unit_draws d ->
  let radius := fst (randomInRange64 25 45 d) in
  let a := mul64 (mul64 (d 1%nat) PI64) 2 in
  25 <= radius <= 45 /\ 0 <= a <= mul64 PI64 2 /\
  (exists color,
     In color COLORS /\
     fst (createPolygon64 matter_vertices px py sides d)
     = Bodies_polygon matter_vertices px py sides radius
         (shapeOptions (Some a) (Some color))) /\
  createTriangle64 matter_vertices px py d
  = createPolygon64 matter_vertices px py 3 d /\
  createPentagon64 matter_vertices px py d
  = createPolygon64 matter_vertices px py 5 d /\
  createHexagon64 matter_vertices px py d
  = createPolygon64 matter_vertices px py 6 d /\
  createOctagon64 matter_vertices px py d
  = createPolygon64 matter_vertices px py 8 d.
Proof.
intros Hd radius a.
split; [apply (integer_range_bounds 25 45); [exact Hd | lia | lia] |].
split; [apply angle64_bounds, Hd |].
split; [| repeat split; reflexivity].
unfold createPolygon64. run_rand64. pick_color Hd. cbn [fst].
exists c. split; [eapply nth_error_In; exact Hk | reflexivity].
Qed.

End FactoryRanges64.

Lemma createRectangle_ranges_witness :
  unit_draws (fun _ => 0) /\
  angle (fst (createRectangle64 no_vertices 100 (- 50) (fun _ => 0)))
  = mul64 (mul64 0 PI64) 2.
Proof.
split; [exact zero_draws_unit |].
apply (createRectangle_ranges no_vertices 100 (- 50) (fun _ => 0)
         zero_draws_unit).
Defined.

Lemma createPolygon_ranges_witness :
  unit_draws (fun _ => 0) /\
  25 <= fst (randomInRange64 25 45 (fun _ => 0)) <= 45.
Proof.
split; [exact zero_draws_unit |].
apply (createPolygon_ranges no_vertices 100 (- 50) 3 (fun _ => 0)
         zero_draws_unit).
Defined.


Section Stars64.

Variable cos64 : R -> R.
Variable sin64 : R -> R.



End Stars64.


(** ** The spawn effect of components/physics-canvas.tsx *)

Lemma consumes_unit (k : nat) (d d' : Draws) :
  unit_draws d -> consumes k d d' -> unit_draws d'.
Proof. intros Hd Hc m. rewrite Hc. apply Hd. Qed.

Section SpawnDetails.

Variable matter_vertices : Geometry -> Vector.t -> R -> list Vector.t.

Lemma spawnLoop_detail (width : nat) (n : nat) :
  (0 < width)%nat ->
  forall (refs : Refs) (e : Engine) (d : Draws),
    unit_draws d -> engineRef refs = Some e ->
    exists news refs' e' d',
      spawnLoop matter_vertices n width refs d = (Some refs', d') /\
      engineRef refs' = Some e' /\
      world e' = world e ++ news /\
      List.length news = n /\
      Forall (spawned width) news /\
      same_settings e e' /\
      runnerRef refs' = runnerRef refs /\
      mouseConstraintRef refs' = mouseConstraintRef refs.
Proof.
intros Hw. assert (HW : 0 < INR width) by (apply lt_0_INR; exact Hw).
induction n as [| n IH]; intros refs e d Hd He.
- exists [], refs, e, d. cbn. rewrite app_nil_r.
  unfold same_settings. repeat split; auto.
- cbn [spawnLoop]. unfold bind at 1. unfold Math_random at 1.
  unfold bind at 1.
  destruct (createRandomShape_run matter_vertices (d 0%nat * INR width)
              (- 50) (fun i => d (S i)) (unit_draws_tail d Hd))
    as (b & d1 & k & Hshape & _ & Hmade & Hpos & Hcons).
  pose proof (consumes_unit _ _ _ (unit_draws_tail d Hd) Hcons) as Hd1.
  rewrite Hshape.
  unfold bind at 1. unfold Math_random at 1.
  unfold bind at 1. unfold Math_random at 1.
  set (shape := Body_setVelocity b _).
  assert (He' : engineRef (addBody refs shape) = Some (World_add e [shape])).
  { unfold addBody. rewrite He. reflexivity. }
  destruct (IH (addBody refs shape) (World_add e [shape])
              (fun i => d1 (S (S i))))
    as (news & refs' & e' & d' & Hrun & Hr & Hworld & Hlen & Hall
        & Hset & Hrunner & Hmouse).
  { intros i. apply Hd1. }
  { exact He'. }
  exists (shape :: news), refs', e', d'.
  split; [exact Hrun | split; [exact Hr | split; [| split; [| split]]]].
  + rewrite Hworld. cbn [World_add world]. now rewrite <- app_assoc.
  + cbn. now rewrite Hlen.
  + constructor; [| exact Hall].
    destruct Hmade as (Hdyn & _ & _ & _ & _ & _ & _ & _ & Hfill & _).
    pose proof (Hd 0%nat) as Hu. pose proof (Hd1 0%nat) as Hux.
    pose proof (Hd1 1%nat) as Huy.
    unfold spawned, shape.
    cbn [Body_setVelocity position velocity isStatic render Vector.x Vector.y].
    rewrite Hpos. cbn [Vector.x Vector.y].
    split; [exact Hdyn | split; [reflexivity | split; [nra |]]].
    split; [lra | split; [lra | exact Hfill]].
  + split; [| split].
    * destruct Hset as (H1 & H2 & H3 & H4). cbn in H1, H2, H3, H4.
      unfold same_settings. auto.
    * rewrite Hrunner. unfold addBody. rewrite He. reflexivity.
    * rewrite Hmouse. unfold addBody. rewrite He. reflexivity.
Qed.

Lemma spawnEffect_detail
    (spawnCount width height : nat) (refs : Refs) (e : Engine) (d : Draws) :
  unit_draws d ->
  spawnCount <> 0%nat -> width <> 0%nat -> height <> 0%nat ->
  engineRef refs = Some e ->
  exists news refs' e',
    fst (spawnEffect matter_vertices spawnCount true width height refs d)
    = Some refs' /\
    engineRef refs' = Some e' /\
    world e' = world e ++ news /\
    Forall (spawned width) news /\
    same_settings e e' /\
    runnerRef refs' = runnerRef refs /\
    mouseConstraintRef refs' = mouseConstraintRef refs.
Proof.
intros Hd Hs Hw Hh He.
destruct (spawnLoop_detail width (Z.to_nat (spawnNumber (d 0%nat)))
            ltac:(lia) refs e (fun i => d (S i)) (unit_draws_tail d Hd) He)
  as (news & refs' & e' & d' & Hrun & Hr & Hworld & _ & Hall & Hrest).
exists news, refs', e'.
unfold spawnEffect.
destruct (Nat.eqb_spec spawnCount 0) as [? | _]; [contradiction |].
destruct (Nat.eqb_spec width 0) as [? | _]; [contradiction |].
destruct (Nat.eqb_spec height 0) as [? | _]; [contradiction |].
cbn [negb orb]. unfold bind at 1. unfold Math_random at 1.
rewrite Hrun. cbn [fst]. auto.
Qed.

(** X8.  Every body a spawn adds is dynamic, has a fill colour of the
    palette, and starts with the velocity the effect gives it: horizontal
    component in [[-1, 1)], downward component in [[0, 2)]. *)
Theorem spawned_bodies_are_dynamic_and_moving
    (spawnCount width height : nat) (refs : Refs) (e : Engine) (d : Draws) :
  unit_draws d ->
  spawnCount <> 0%nat -> width <> 0%nat -> height <> 0%nat ->
  engineRef refs = Some e ->
  exists news refs' e',
    fst (spawnEffect matter_vertices spawnCount true width height refs d)
    = Some refs' /\
    engineRef refs' = Some e' /\
    world e' = world e ++ news /\
    Forall (spawned width) news.
Proof.
intros Hd Hs Hw Hh He.
destruct (spawnEffect_detail spawnCount width height refs e d Hd Hs Hw Hh He)
  as (news & refs' & e' & Hrun & Hr & Hworld & Hall & _).
exists news, refs', e'. auto.
Qed.

(** X9.  A spawn touches nothing but the list of bodies: the engine keeps
    its gravity, sleeping flag and iteration counts, the runner and the
    mouse constraint stay as they were, and the bodies already in the
    world stay, in order, in front of the new ones. *)
Theorem spawn_only_appends_bodies
    (spawnCount width height : nat) (refs : Refs) (e : Engine) (d : Draws) :
  unit_draws d ->
  spawnCount <> 0%nat -> width <> 0%nat -> height <> 0%nat ->
  engineRef refs = Some e ->
  exists refs' e',
    fst (spawnEffect matter_vertices spawnCount true width height refs d)
    = Some refs' /\
    engineRef refs' = Some e' /\
    same_settings e e' /\
    runnerRef refs' = runnerRef refs /\
    mouseConstraintRef refs' = mouseConstraintRef refs /\
    firstn (List.length (world e)) (world e') = world e.
Proof.
intros Hd Hs Hw Hh He.
destruct (spawnEffect_detail spawnCount width height refs e d Hd Hs Hw Hh He)
  as (news & refs' & e' & Hrun & Hr & Hworld & _ & Hset & Hrunner & Hmouse).
exists refs', e'. repeat split; try assumption; try apply Hset.
rewrite Hworld, firstn_app, Nat.sub_diag, firstn_all. cbn.
now rewrite app_nil_r.
Qed.

Lemma spawnLoop_without_engine (width : nat) (n : nat) :
  forall (refs : Refs) (d : Draws),
    unit_draws d -> engineRef refs = None ->
    fst (spawnLoop matter_vertices n width refs d) = Some refs.
Proof.
induction n as [| n IH]; intros refs d Hd He; [reflexivity |].
cbn [spawnLoop]. unfold bind at 1. unfold Math_random at 1.
unfold bind at 1.
destruct (createRandomShape_run matter_vertices (d 0%nat * INR width)
            (- 50) (fun i => d (S i)) (unit_draws_tail d Hd))
  as (b & d1 & k & Hshape & _ & _ & _ & Hcons).
pose proof (consumes_unit _ _ _ (unit_draws_tail d Hd) Hcons) as Hd1.
rewrite Hshape.
unfold bind at 1. unfold Math_random at 1.
unfold bind at 1. unfold Math_random at 1.
assert (Hsame : forall shape, addBody refs shape = refs)
  by (intros shape; unfold addBody; now rewrite He).
rewrite Hsame. apply IH; [intros i; apply Hd1 | exact He].
Qed.

(** X10.  When the spawn effect does nothing: with [spawnCount] zero, no
    canvas, or a zero width or height it returns at once, leaving the refs
    alone and making no draw; and when no engine has been created yet it
    runs through its loop but [addBody] drops every shape, so the refs are
    again as they were. *)
Theorem spawnEffect_noop
    (spawnCount : nat) (canvas : bool) (width height : nat)
    (refs : Refs) (d : Draws) :
  (spawnCount = 0%nat \/ canvas = false \/ width = 0%nat \/ height = 0%nat ->
   spawnEffect matter_vertices spawnCount canvas width height refs d
   = (Some refs, d)) /\
  (unit_draws d -> engineRef refs = None ->
   fst (spawnEffect matter_vertices spawnCount canvas width height refs d)
   = Some refs).
Proof.
split.
- intros H. unfold spawnEffect.
  destruct (Nat.eqb_spec spawnCount 0) as [_ | Hs]; [reflexivity |].
  destruct canvas; [| reflexivity]. cbn [negb].
  destruct H as [H | [H | [-> | ->]]];
    [contradiction | discriminate | reflexivity |].
  now rewrite Bool.orb_true_r.
- intros Hd He. unfold spawnEffect.
  destruct (spawnCount =? 0)%nat; [reflexivity |].
  destruct (negb canvas); [reflexivity |].
  destruct ((width =? 0)%nat || (height =? 0)%nat); [reflexivity |].
  unfold bind at 1. unfold Math_random at 1.
  apply spawnLoop_without_engine; [apply unit_draws_tail, Hd | exact He].
Qed.

End SpawnDetails.

Lemma spawned_bodies_are_dynamic_and_moving_witness :
  unit_draws (fun _ => 0) /\
  1%nat <> 0%nat /\ 800%nat <> 0%nat /\ 600%nat <> 0%nat /\
  engineRef readyRefs = Some readyEngine /\
  exists news refs' e',
    fst (spawnEffect no_vertices 1 true 800 600 readyRefs (fun _ => 0))
    = Some refs' /\
    engineRef refs' = Some e' /\
    world e' = world readyEngine ++ news /\
    Forall (spawned 800) news.
Proof.
split; [exact zero_draws_unit |].
split; [discriminate |]. split; [discriminate |]. split; [discriminate |].
split; [exact readyRefs_engine |].
apply (spawned_bodies_are_dynamic_and_moving no_vertices 1 800 600 readyRefs
         readyEngine (fun _ => 0) zero_draws_unit);
  [discriminate | discriminate | discriminate | exact readyRefs_engine].
Defined.

Lemma spawn_only_appends_bodies_witness :
  unit_draws (fun _ => 0) /\
  1%nat <> 0%nat /\ 800%nat <> 0%nat /\ 600%nat <> 0%nat /\
  engineRef readyRefs = Some readyEngine /\
  exists refs' e',
    fst (spawnEffect no_vertices 1 true 800 600 readyRefs (fun _ => 0))
    = Some refs' /\
    engineRef refs' = Some e' /\
    same_settings readyEngine e' /\
    runnerRef refs' = runnerRef readyRefs /\
    mouseConstraintRef refs' = mouseConstraintRef readyRefs /\
    firstn (List.length (world readyEngine)) (world e') = world readyEngine.
Proof.
split; [exact zero_draws_unit |].
split; [discriminate |]. split; [discriminate |]. split; [discriminate |].
split; [exact readyRefs_engine |].
apply (spawn_only_appends_bodies no_vertices 1 800 600 readyRefs
         readyEngine (fun _ => 0) zero_draws_unit);
  [discriminate | discriminate | discriminate | exact readyRefs_engine].
Defined.

Lemma spawnEffect_noop_witness :
  unit_draws (fun _ => 0) /\ engineRef noRefs = None /\
  fst (spawnEffect no_vertices 1 true 800 600 noRefs (fun _ => 0))
  = Some noRefs.
Proof.
split; [exact zero_draws_unit |]. split; [reflexivity |].
apply (spawnEffect_noop no_vertices 1 true 800 600 noRefs (fun _ => 0));
  [exact zero_draws_unit | reflexivity].
Defined.

(** ** hooks/use-matter.ts: set-up and [addBody] *)

Section SetUpDetails.

Variable matter_vertices : Geometry -> Vector.t -> R -> list Vector.t.

(** X11.  Whenever the set-up effect runs (mounted canvas, non-zero width
    and height), whatever the refs held before, it leaves a running loop,
    a mouse constraint holding nothing, and a world of exactly three
    bodies, all static and transparent: the floor centred at
    [(width/2, height - 25)], the left wall at [(-25, height/2)] and the
    right wall at [(width + 25, height/2)].  Bodies of an earlier engine
    are not carried over. *)
Theorem setup_world_is_three_walls
    (cfg : Configuration) (width height : nat) (refs : Refs) :
  width <> 0%nat -> height <> 0%nat ->
  exists e,
    engineRef (useMatter_effect matter_vertices cfg true width height refs)
    = Some e /\
    map label (world e) = ["floor"; "leftWall"; "rightWall"]%string /\
    map position (world e)
    = [ Vector.mk (INR width / 2) (INR height - 25);
        Vector.mk (- 25) (INR height / 2);
        Vector.mk (INR width + 25) (INR height / 2) ] /\
    Forall (fun b => isStatic b = true /\
                     fillStyle (render b) = Some "transparent"%string)
      (world e) /\
    started (useMatter_effect matter_vertices cfg true width height refs) /\
    option_map mc_body
      (mouseConstraintRef
         (useMatter_effect matter_vertices cfg true width height refs))
    = Some None.
Proof.
intros Hw Hh. rewrite useMatter_effect_runs by assumption.
eexists. split; [reflexivity |]. cbn.
split; [reflexivity | split; [| split; [| split]]].
- repeat f_equal; lra.
- repeat constructor.
- eexists. split; reflexivity.
- reflexivity.
Qed.

Lemma addBody_all (bs : list Body) :
  forall (refs : Refs) (e : Engine),
    engineRef refs = Some e ->
    exists e',
      engineRef (fold_left addBody bs refs) = Some e' /\
      world e' = world e ++ bs /\ same_settings e e' /\
      runnerRef (fold_left addBody bs refs) = runnerRef refs /\
      mouseConstraintRef (fold_left addBody bs refs)
      = mouseConstraintRef refs.
Proof.
induction bs as [| b bs IH]; intros refs e He.
- exists e. cbn. rewrite app_nil_r. unfold same_settings. auto 10.
- cbn [fold_left].
  assert (He' : engineRef (addBody refs b) = Some (World_add e [b]))
    by (unfold addBody; now rewrite He).
  destruct (IH _ _ He') as (e' & Hr & Hworld & Hset & Hrunner & Hmouse).
  exists e'. split; [exact Hr | split; [| split; [| split]]].
  + rewrite Hworld. cbn. now rewrite <- app_assoc.
  + exact Hset.
  + rewrite Hrunner. unfold addBody. now rewrite He.
  + rewrite Hmouse. unfold addBody. now rewrite He.
Qed.

(** X12.  [addBody] appends: after the set-up, adding bodies one by one
    leaves the three walls first and the added bodies after them, in the
    order of the calls, and keeps the engine's settings.  Before any
    set-up, with no engine, every call is dropped without effect. *)
Theorem addBody_appends_in_order
    (cfg : Configuration) (width height : nat) (bs : list Body) :
  width <> 0%nat -> height <> 0%nat ->
  (exists e e',
     engineRef (useMatter_effect matter_vertices cfg true width height noRefs)
     = Some e /\
     engineRef
       (fold_left addBody bs
          (useMatter_effect matter_vertices cfg true width height noRefs))
     = Some e' /\
     world e' = walls matter_vertices width height ++ bs /\
     same_settings e e') /\
  fold_left addBody bs noRefs = noRefs.
Proof.
intros Hw Hh. split.
- rewrite useMatter_effect_runs by assumption.
  eexists.
  match goal with
  | |- context [fold_left addBody bs ?r] =>
      destruct (addBody_all bs r _ eq_refl) as (e' & Hr & Hworld & Hset & _)
  end.
  exists e'. split; [reflexivity | split; [exact Hr | split]].
  + rewrite Hworld. reflexivity.
  + exact Hset.
- induction bs as [| b bs IH]; [reflexivity | exact IH].
Qed.

End SetUpDetails.

Lemma setup_world_is_three_walls_witness :
  800%nat <> 0%nat /\ 600%nat <> 0%nat /\
  started (useMatter_effect no_vertices CONFIGURATION true 800 600 readyRefs).
Proof.
split; [discriminate |]. split; [discriminate |].
destruct (setup_world_is_three_walls no_vertices CONFIGURATION 800 600
            readyRefs) as (e & _ & _ & _ & _ & Hs & _);
  [discriminate | discriminate | exact Hs].
Defined.

Lemma addBody_appends_in_order_witness :
  800%nat <> 0%nat /\ 600%nat <> 0%nat /\
  fold_left addBody [uprightRectangle] noRefs = noRefs.
Proof.
split; [discriminate |]. split; [discriminate |].
apply (addBody_appends_in_order no_vertices CONFIGURATION 800 600
         [uprightRectangle]); discriminate.
Defined.

(** ** hooks/use-matter.ts: culling, the tick listener, the click *)

Lemma filter_fixed {A : Type} (f : A -> bool) (l : list A) :
  filter f l = l <-> Forall (fun a => f a = true) l.
Proof.
induction l as [| a l IH]; [split; constructor |].
cbn [filter]. destruct (f a) eqn:E; split; intros H.
- injection H as H. constructor; [exact E | now apply IH].
- inversion H; subst. f_equal. now apply IH.
- pose proof (filter_length_le f l) as Hlen. rewrite H in Hlen.
  cbn in Hlen. lia.
- inversion H; subst. congruence.
Qed.

Section CullingDetails.

Variable cfg : Configuration.

(** X13.  The culling check is a clean-up pass: running it twice is the
    same as running it once, it never makes the world longer, it works
    body by body (the check of two lists put together is the two checks
    put together), and it leaves the world exactly as it is if and only
    if no body is beyond the threshold. *)
Theorem culling_is_a_filter (height : nat) (bodies more : list Body) :
  cullOffscreenBodies cfg height (cullOffscreenBodies cfg height bodies)
  = cullOffscreenBodies cfg height bodies /\
  (List.length (cullOffscreenBodies cfg height bodies)
   <= List.length bodies)%nat /\
  cullOffscreenBodies cfg height (bodies ++ more)
  = cullOffscreenBodies cfg height bodies
    ++ cullOffscreenBodies cfg height more /\
  (cullOffscreenBodies cfg height bodies = bodies
   <-> Forall (fun b => beyondThreshold cfg height b = false) bodies).
Proof.
rewrite !cullOffscreenBodies_filter.
split; [| split; [| split]].
- induction bodies as [| b bodies IH]; [reflexivity |].
  cbn [filter]. destruct (beyondThreshold cfg height b) eqn:E; cbn [negb].
  + exact IH.
  + cbn [filter]. rewrite E. cbn [negb]. now rewrite IH.
- apply filter_length_le.
- apply filter_app.
- rewrite filter_fixed. split; intros H; rewrite Forall_forall in *;
    intros b Hb; specialize (H b Hb);
    destruct (beyondThreshold cfg height b); cbn in *; congruence.
Qed.

End CullingDetails.

Lemma culling_is_a_filter_fixed (cfg : Configuration) (height : nat)
    (bodies : list Body) :
  Forall (fun b => isStatic b = true) bodies ->
  cullOffscreenBodies cfg height bodies = bodies.
Proof.
intros H. rewrite cullOffscreenBodies_filter. apply filter_fixed.
rewrite Forall_forall in *. intros b Hb.
unfold beyondThreshold. rewrite (H b Hb). reflexivity.
Qed.

Section SpawnAndCull.

Variable matter_vertices : Geometry -> Vector.t -> R -> list Vector.t.

Lemma spawned_not_beyond (width height : nat) (b : Body) :
  spawned width b -> beyondThreshold CONFIGURATION height b = false.
Proof.
intros (_ & Hy & _). apply beyondThreshold_false. right. rewrite Hy.
pose proof (pos_INR height). cbn. lra.
Qed.

(** X14.  Freshly spawned bodies are out of reach of the culling check:
    they start at [y = -50], far above the threshold [height + 500].  So
    the check applied to the world right after a spawn gives the check of
    the world before it, followed by all the new bodies. *)
Theorem spawned_bodies_are_not_culled
    (spawnCount width height : nat) (refs : Refs) (e : Engine) (d : Draws) :
  unit_draws d ->
  spawnCount <> 0%nat -> width <> 0%nat -> height <> 0%nat ->
  engineRef refs = Some e ->
  exists news refs' e',
    fst (spawnEffect matter_vertices spawnCount true width height refs d)
    = Some refs' /\
    engineRef refs' = Some e' /\
    world e' = world e ++ news /\
    cullOffscreenBodies CONFIGURATION height (world e')
    = cullOffscreenBodies CONFIGURATION height (world e) ++ news.
Proof.
intros Hd Hs Hw Hh He.
destruct (spawnEffect_detail matter_vertices spawnCount width height refs e d
            Hd Hs Hw Hh He)
  as (news & refs' & e' & Hrun & Hr & Hworld & Hall & _).
exists news, refs', e'.
split; [exact Hrun | split; [exact Hr | split; [exact Hworld |]]].
rewrite Hworld, !cullOffscreenBodies_filter, filter_app. f_equal.
apply filter_fixed. rewrite Forall_forall in *. intros b Hb.
rewrite (spawned_not_beyond width height b (Hall b Hb)). reflexivity.
Qed.

End SpawnAndCull.

Lemma spawned_bodies_are_not_culled_witness :
  unit_draws (fun _ => 0) /\
  1%nat <> 0%nat /\ 800%nat <> 0%nat /\ 600%nat <> 0%nat /\
  engineRef readyRefs = Some readyEngine /\
  exists news refs' e',
    fst (spawnEffect no_vertices 1 true 800 600 readyRefs (fun _ => 0))
    = Some refs' /\
    engineRef refs' = Some e' /\
    world e' = world readyEngine ++ news /\
    cullOffscreenBodies CONFIGURATION 600 (world e')
    = cullOffscreenBodies CONFIGURATION 600 (world readyEngine) ++ news.
Proof.
split; [exact zero_draws_unit |].
split; [discriminate |]. split; [discriminate |]. split; [discriminate |].
split; [exact readyRefs_engine |].
apply (spawned_bodies_are_not_culled no_vertices 1 800 600 readyRefs
         readyEngine (fun _ => 0) zero_draws_unit);
  [discriminate | discriminate | discriminate | exact readyRefs_engine].
Defined.

Lemma ticks_bodies (n : nat) :
  forall s : Loop, loop_bodies (ticks n s) = loop_bodies s.
Proof.
induction n as [| n IH]; intros s; [reflexivity |].
cbn [ticks]. rewrite IH. unfold afterUpdate, afterUpdate_with.
destruct (60 <=? S (frameCount s))%nat; reflexivity.
Qed.

Lemma afterUpdate_bound (s : Loop) : (frameCount (afterUpdate s) < 60)%nat.
Proof.
unfold afterUpdate, afterUpdate_with.
destruct (Nat.leb_spec 60 (S (frameCount s))); cbn; lia.
Qed.

(** X15.  The [afterUpdate] listener as committed only keeps a frame
    counter.  However many ticks run, the list of bodies is never changed
    by it; after the first tick the counter stays below 60; and, started
    below 60, it counts modulo 60, so that 60 ticks bring the listener
    back to the very same state. *)
Theorem afterUpdate_only_counts (n : nat) (s : Loop) :
  loop_bodies (ticks n s) = loop_bodies s /\
  (frameCount (ticks (S n) s) < 60)%nat /\
  ((frameCount s < 60)%nat ->
   frameCount (ticks n s) = ((frameCount s + n) mod 60)%nat /\
   ticks 60 s = s).
Proof.
split; [apply ticks_bodies | split].
- cbn [ticks].
  destruct (ticks_frameCount n (afterUpdate s) (afterUpdate_bound s))
    as [Hfc _].
  rewrite Hfc. apply Nat.mod_upper_bound. lia.
- intros Hs. destruct (ticks_frameCount n s Hs) as [Hfc _].
  split; [exact Hfc |].
  destruct (ticks_frameCount 60 s Hs) as [Hfc60 Hb60].
  destruct (ticks 60 s) as [fc bs]. destruct s as [fc0 bs0].
  cbn [frameCount loop_bodies] in *. subst bs. f_equal.
  rewrite Hfc60.
  replace (fc0 + 60)%nat with (fc0 + 1 * 60)%nat by lia.
  rewrite Nat.Div0.mod_add. apply Nat.mod_small. exact Hs.
Qed.

Lemma afterUpdate_only_counts_witness :
  (0 < 60)%nat /\
  ticks 60 {| frameCount := 0; loop_bodies := [uprightRectangle] |}
  = {| frameCount := 0; loop_bodies := [uprightRectangle] |}.
Proof.
split; [lia |].
apply (afterUpdate_only_counts 0
         {| frameCount := 0; loop_bodies := [uprightRectangle] |}).
cbn. lia.
Defined.

Lemma click_on_held (p : Pointer) (r : Ref) :
  held p = Some r -> isStatic (bodies_of p r) = false ->
  held (handleMouseClick p) = Some r /\
  (forall r', r' <> r ->
              bodies_of (handleMouseClick p) r' = bodies_of p r') /\
  bodies_of (handleMouseClick p) r
  = Body_applyForce (bodies_of p r) (position (bodies_of p r)) clickForce.
Proof.
intros H Hs. unfold handleMouseClick. rewrite H, Hs. cbn.
split; [reflexivity | split].
- intros r' Hr. unfold store_set.
  destruct (Nat.eqb_spec r' r); [contradiction | reflexivity].
- unfold store_set. now rewrite Nat.eqb_refl.
Qed.

Lemma clicks_on_held (p : Pointer) (r : Ref) (n : nat) :
  held p = Some r -> isStatic (bodies_of p r) = false ->
  held (Nat.iter n handleMouseClick p) = Some r /\
  isStatic (bodies_of (Nat.iter n handleMouseClick p) r) = false /\
  Vector.y (force (bodies_of (Nat.iter n handleMouseClick p) r))
  = Vector.y (force (bodies_of p r)) - INR n * (5 / 100).
Proof.
intros H Hs. induction n as [| n (IH1 & IH2 & IH3)].
- cbn. split; [exact H | split; [exact Hs | lra]].
- rewrite Nat.iter_succ.
  destruct (click_on_held _ r IH1 IH2) as (Hh & _ & Hb).
  rewrite Hb. cbn [Body_applyForce isStatic force Vector.y clickForce].
  split; [exact Hh | split; [exact IH2 |]].
  rewrite IH3, S_INR. lra.
Qed.

(** X16.  A click on a held dynamic body pushes it straight up and does
    nothing else: its force gains [-0.05] vertically and nothing
    horizontally, no torque is added (the force is applied at the body's
    own position), position, angle, velocity and colours stay, and every
    other body is untouched.  [n] clicks in a row add up to
    [-0.05 * n]. *)
Theorem click_pushes_straight_up (p : Pointer) (r : Ref) (n : nat) :
  held p = Some r -> isStatic (bodies_of p r) = false ->
  let b := bodies_of p r in
  let b' := bodies_of (handleMouseClick p) r in
  force b' = Vector.mk (Vector.x (force b)) (Vector.y (force b) - 5 / 100) /\
  torque b' = torque b /\
  position b' = position b /\ angle b' = angle b /\
  velocity b' = velocity b /\ render b' = render b /\
  vertices b' = vertices b /\
  (forall r', r' <> r ->
              bodies_of (handleMouseClick p) r' = bodies_of p r') /\
  Vector.y (force (bodies_of (Nat.iter n handleMouseClick p) r))
  = Vector.y (force b) - INR n * (5 / 100).
Proof.
intros H Hs b b'.
destruct (click_on_held p r H Hs) as (_ & Hothers & Hb).
unfold b'. rewrite Hb. fold b.
cbn [Body_applyForce force torque position angle velocity render vertices
     clickForce Vector.x Vector.y].
split; [f_equal; lra | split; [lra |]].
repeat split; try exact Hothers.
apply (clicks_on_held p r n H Hs).
Qed.

Lemma click_pushes_straight_up_witness :
  let p := gesture (idle sampleStore) [MouseDown (Some 0%nat); BeforeUpdate] in
  held p = Some 0%nat /\ isStatic (bodies_of p 0%nat) = false /\
  torque (bodies_of (handleMouseClick p) 0%nat)
  = torque (bodies_of p 0%nat).
Proof.
intros p. split; [reflexivity |]. split; [reflexivity |].
apply (click_pushes_straight_up p 0%nat 1); reflexivity.
Defined.

(** ** The collision flash of components/physics-canvas.tsx *)

Lemma flash_clock (p : Page) (r : Ref) : clock (flash p r) = clock p.
Proof. reflexivity. Qed.

Lemma flashes_clock (rs : list Ref) :
  forall p, clock (fold_left flash rs p) = clock p.
Proof.
induction rs as [| r rs IH]; intros p; [reflexivity |].
cbn [fold_left]. now rewrite IH.
Qed.

Lemma handleCollision_flashes (pairs : list (Ref * Ref)) :
  forall p,
    handleCollision pairs p
    = fold_left flash
        (filter (fun r => negb (isStatic (page_bodies p r))) (refs_of pairs))
        p.
Proof.
unfold handleCollision.
induction pairs as [| [a b] pairs IH]; intros p; [reflexivity |].
cbn [fold_left refs_of flat_map fst snd].
change (flat_map (fun pair : Ref * Ref => [fst pair; snd pair]) pairs)
  with (refs_of pairs).
rewrite IH.
change (a :: b :: refs_of pairs) with ([a; b] ++ refs_of pairs).
rewrite filter_app, fold_left_app. unfold flashPair at 2. f_equal.
apply filter_ext. intros r.
now rewrite (only_fill_isStatic _ _ r (flashPair_only_fill p (a, b))).
Qed.

Lemma setTimeout_last (t : Timer) (q : list Timer) :
  Forall (fun t' => (due t' <= due t)%nat) q -> setTimeout t q = q ++ [t].
Proof.
induction q as [| t' q IH]; intros H; [reflexivity |].
inversion H as [| ? ? Hle Hq]; subst. cbn [setTimeout].
destruct (Nat.leb_spec (due t') (due t)); [| lia].
cbn. now rewrite IH.
Qed.

Lemma flashes_run (rs : list Ref) :
  NoDup rs ->
  forall p,
    Forall (fun t => (due t <= clock p + 100)%nat) (timers p) ->
    timers (fold_left flash rs p) = timers p ++ map (flashTimer p) rs /\
    (forall r, In r rs ->
               page_bodies (fold_left flash rs p) r
               = set_fillStyle (page_bodies p r) (Some "#FFFFFF"%string)) /\
    (forall r, ~ In r rs ->
               page_bodies (fold_left flash rs p) r = page_bodies p r).
Proof.
induction 1 as [| r rs Hnotin Hnodup IH]; intros p Hq.
- cbn. rewrite app_nil_r. split; [reflexivity | split; [intros r [] | auto]].
- cbn [fold_left map].
  assert (Hother : forall r', r' <> r ->
            page_bodies (flash p r) r' = page_bodies p r').
  { intros r' Hr. unfold flash, store_set. cbn.
    destruct (Nat.eqb_spec r' r); [contradiction | reflexivity]. }
  assert (Hself : page_bodies (flash p r) r
                  = set_fillStyle (page_bodies p r) (Some "#FFFFFF"%string)).
  { unfold flash, store_set. cbn. now rewrite Nat.eqb_refl. }
  assert (Htimers : timers (flash p r) = timers p ++ [flashTimer p r]).
  { unfold flash. cbn [timers]. apply setTimeout_last. exact Hq. }
  destruct (IH (flash p r)) as (Ht & Hin & Hout).
  { rewrite Htimers, flash_clock. apply Forall_app. split; [exact Hq |].
    constructor; [cbn; lia | constructor]. }
  split; [| split].
  + rewrite Ht, Htimers, <- app_assoc. cbn [app]. do 2 f_equal.
    apply map_ext_in. intros r' Hr'. unfold flashTimer.
    rewrite flash_clock, Hother; [reflexivity |].
    intros ->. contradiction.
  + intros r' [<- | Hr'].
    * rewrite Hout by exact Hnotin. exact Hself.
    * rewrite Hin by exact Hr'. rewrite Hother; [reflexivity |].
      intros ->. contradiction.
  + intros r' Hr'. rewrite Hout by (intros ?; apply Hr'; now right).
    apply Hother. intros ->. apply Hr'. now left.
Qed.

Lemma runDue_all (now : nat) (q : list Timer) :
  Forall (fun t => (due t <= now)%nat) q ->
  forall s, runDue now q s = ([], fold_left fire q s).
Proof.
induction q as [| t q IH]; intros H s; [reflexivity |].
inversion H as [| ? ? Hle Hq]; subst. cbn [runDue fold_left].
destruct (Nat.leb_spec (due t) now); [| lia]. now apply IH.
Qed.

Lemma runDue_none (now : nat) (q : list Timer) (s : Store) :
  Forall (fun t => (now < due t)%nat) q -> runDue now q s = (q, s).
Proof.
intros H. destruct q as [| t q]; [reflexivity |].
inversion H as [| ? ? Hlt _]; subst. cbn [runDue].
destruct (Nat.leb_spec (due t) now); [lia | reflexivity].
Qed.

Lemma fire_all (p : Page) (rs : list Ref) :
  NoDup rs ->
  forall s,
    (forall r, In r rs ->
               fold_left fire (map (flashTimer p) rs) s r
               = set_fillStyle (s r) (fillStyle (render (page_bodies p r)))) /\
    (forall r, ~ In r rs ->
               fold_left fire (map (flashTimer p) rs) s r = s r).
Proof.
induction 1 as [| r rs Hnotin Hnodup IH]; intros s.
- cbn. split; [intros r [] | auto].
- cbn [map fold_left].
  destruct (IH (fire s (flashTimer p r))) as (Hin & Hout).
  assert (Hother : forall r', r' <> r -> fire s (flashTimer p r) r' = s r').
  { intros r' Hr. unfold fire, store_set. cbn.
    destruct (Nat.eqb_spec r' r); [contradiction | reflexivity]. }
  split.
  + intros r' [<- | Hr'].
    * rewrite Hout by exact Hnotin. unfold fire, store_set. cbn.
      now rewrite Nat.eqb_refl.
    * rewrite Hin by exact Hr'. rewrite Hother; [reflexivity |].
      intros ->. contradiction.
  + intros r' Hr'. rewrite Hout by (intros ?; apply Hr'; now right).
    apply Hother. intros ->. apply Hr'. now left.
Qed.

Lemma set_fillStyle_twice (b : Body) (c1 c2 : option string) :
  set_fillStyle (set_fillStyle b c1) c2 = set_fillStyle b c2.
Proof. reflexivity. Qed.

(** X17.  A collision event in which no body occurs twice, on a page with
    no flash pending, is a proper flash.  Until 100 ms have passed every
    non-static body of the pairs is white and nothing else has changed;
    once 100 ms have passed every body is exactly as it was before the
    event and no timer is left. *)
Theorem separate_flashes_revert
    (pairs : list (Ref * Ref)) (p : Page) (t : nat) (r : Ref) :
  NoDup (refs_of pairs) -> timers p = [] ->
  let flashed := handleCollision pairs p in
  ((t < clock p + 100)%nat ->
   page_bodies (advance t flashed) r
   = if existsb (Nat.eqb r) (refs_of pairs)
        && negb (isStatic (page_bodies p r))
     then set_fillStyle (page_bodies p r) (Some "#FFFFFF"%string)
     else page_bodies p r) /\
  ((clock p + 100 <= t)%nat ->
   page_bodies (advance t flashed) r = page_bodies p r /\
   timers (advance t flashed) = []).
Proof.
intros Hnodup Hempty flashed.
set (rs := filter (fun r => negb (isStatic (page_bodies p r)))
             (refs_of pairs)).
assert (Hrs : NoDup rs) by (apply NoDup_filter; exact Hnodup).
assert (Hflashed : flashed = fold_left flash rs p)
  by apply handleCollision_flashes.
destruct (flashes_run rs Hrs p) as (Ht & Hin & Hout);
  [rewrite Hempty; constructor |].
rewrite Hempty in Ht. cbn [app] in Ht.
assert (Hmem : In r rs
               <-> existsb (Nat.eqb r) (refs_of pairs)
                   && negb (isStatic (page_bodies p r)) = true).
{ unfold rs. rewrite filter_In, Bool.andb_true_iff, existsb_exists.
  split; intros [H1 H2]; (split; [| exact H2]).
  - exists r. split; [exact H1 | apply Nat.eqb_refl].
  - destruct H1 as (x & Hx & Heq). apply Nat.eqb_eq in Heq. now subst. }
split.
- intros Hlt. unfold advance. rewrite Hflashed, Ht.
  rewrite runDue_none.
  + cbn [page_bodies].
    destruct (existsb (Nat.eqb r) (refs_of pairs)
              && negb (isStatic (page_bodies p r))) eqn:E.
    * apply Hin, Hmem. reflexivity.
    * apply Hout. intros H. apply Hmem in H. congruence.
  + rewrite Forall_forall. intros x Hx. apply in_map_iff in Hx.
    destruct Hx as (y & <- & _). cbn. lia.
- intros Hge. unfold advance. rewrite Hflashed, Ht.
  rewrite runDue_all.
  + cbn [page_bodies timers]. split; [| reflexivity].
    destruct (fire_all p rs Hrs (page_bodies (fold_left flash rs p)))
      as (Hfin & Hfout).
    destruct (in_dec Nat.eq_dec r rs) as [Hr | Hr].
    * rewrite Hfin by exact Hr. rewrite Hin by exact Hr.
      rewrite set_fillStyle_twice. apply set_fillStyle_same.
    * rewrite Hfout by exact Hr. now apply Hout.
  + rewrite Forall_forall. intros x Hx. apply in_map_iff in Hx.
    destruct Hx as (y & <- & _). cbn. lia.
Qed.

Lemma separate_flashes_revert_witness :
  NoDup (refs_of [(0, 1)]%nat) /\ timers restingPage = [] /\
  page_bodies (advance 100 (handleCollision [(0, 1)]%nat restingPage)) 0%nat
  = page_bodies restingPage 0%nat.
Proof.
assert (Hnodup : NoDup (refs_of [(0, 1)]%nat)).
{ cbn. constructor; [intros [H | []]; discriminate |].
  constructor; [intros [] | constructor]. }
split; [exact Hnodup |]. split; [reflexivity |].
apply (separate_flashes_revert [(0, 1)]%nat restingPage 100 0%nat Hnodup
         eq_refl).
cbn. lia.
Defined.

Lemma setTimeout_length (t : Timer) (q : list Timer) :
  List.length (setTimeout t q) = S (List.length q).
Proof.
induction q as [| t' q IH]; [reflexivity |].
cbn [setTimeout]. destruct (due t' <=? due t)%nat; cbn; [now rewrite IH | reflexivity].
Qed.

Lemma flashes_effect (rs : list Ref) :
  forall p,
    List.length (timers (fold_left flash rs p))
    = (List.length (timers p) + List.length rs)%nat /\
    forall r,
      (page_bodies (fold_left flash rs p) r = page_bodies p r
       \/ page_bodies (fold_left flash rs p) r
          = set_fillStyle (page_bodies p r) (Some "#FFFFFF"%string)) /\
      (~ In r rs -> page_bodies (fold_left flash rs p) r = page_bodies p r).
Proof.
induction rs as [| r0 rs IH]; intros p.
- cbn. split; [lia | intros r; split; auto].
- cbn [fold_left]. destruct (IH (flash p r0)) as (Hlen & Hbodies).
  split.
  + rewrite Hlen. unfold flash. cbn [timers].
    rewrite setTimeout_length. cbn. lia.
  + intros r. destruct (Hbodies r) as (Hcase & Hout).
    assert (Hstep : page_bodies (flash p r0) r
                    = if (r =? r0)%nat
                      then set_fillStyle (page_bodies p r0)
                             (Some "#FFFFFF"%string)
                      else page_bodies p r) by reflexivity.
    split.
    * destruct Hcase as [-> | ->]; rewrite Hstep;
        destruct (Nat.eqb_spec r r0) as [-> | _]; auto.
    * intros Hnot. rewrite Hout by (intros ?; apply Hnot; now right).
      rewrite Hstep. destruct (Nat.eqb_spec r r0) as [-> | _];
        [exfalso; apply Hnot; now left | reflexivity].
Qed.

(** X18.  Whatever the pairs of a collision event, the handler leaves the
    clock alone, sets exactly one timer for each non-static body it
    visits, and changes no body except in its fill colour, which is then
    white: position, angle, velocity, force and every other field are as
    before; static bodies and bodies that are in no pair are not changed
    at all. *)
Theorem collision_touches_only_fill
    (pairs : list (Ref * Ref)) (p : Page) (r : Ref) :
  let b := page_bodies p r in
  let b' := page_bodies (handleCollision pairs p) r in
  b' = set_fillStyle b (fillStyle (render b')) /\
  (b' = b \/ b' = set_fillStyle b (Some "#FFFFFF"%string)) /\
  (isStatic b = true -> b' = b) /\
  (~ In r (refs_of pairs) -> b' = b) /\
  clock (handleCollision pairs p) = clock p /\
  List.length (timers (handleCollision pairs p))
  = (List.length (timers p)
     + List.length
         (filter (fun r => negb (isStatic (page_bodies p r)))
            (refs_of pairs)))%nat.
Proof.
intros b b'.
destruct (handleCollision_only_fill pairs p r) as (Hfill & Hstatic).
unfold b', b. rewrite handleCollision_flashes in *.
destruct (flashes_effect
            (filter (fun r => negb (isStatic (page_bodies p r)))
               (refs_of pairs)) p) as (Hlen & Hbodies).
destruct (Hbodies r) as (Hcase & Hout).
split; [exact Hfill | split; [exact Hcase | split; [exact Hstatic |]]].
split; [| split].
- intros Hnot. apply Hout. intros H. apply filter_In in H. tauto.
- apply flashes_clock.
- exact Hlen.
Qed.

Lemma collision_touches_only_fill_witness :
  isStatic (page_bodies restingPage 7%nat) = false /\
  ~ In 7%nat (refs_of [(0, 1)]%nat) /\
  page_bodies (handleCollision [(0, 1)]%nat restingPage) 7%nat
  = page_bodies restingPage 7%nat.
Proof.
assert (Hnot : ~ In 7%nat (refs_of [(0, 1)]%nat))
  by (cbn; intros [H | [H | []]]; discriminate).
split; [reflexivity |]. split; [exact Hnot |].
apply (collision_touches_only_fill [(0, 1)]%nat restingPage 7%nat).
exact Hnot.
Defined.

(** X19.  A collision event whose bodies are all static (wall against
    wall) does nothing at all: no colour changes and no timer is set. *)
Theorem static_collisions_do_nothing (pairs : list (Ref * Ref)) (p : Page) :
  Forall (fun r => isStatic (page_bodies p r) = true) (refs_of pairs) ->
  handleCollision pairs p = p.
Proof.
intros Hall. rewrite handleCollision_flashes.
replace (filter (fun r => negb (isStatic (page_bodies p r))) (refs_of pairs))
  with (@nil Ref); [reflexivity |].
symmetry. induction (refs_of pairs) as [| r rs IH]; [reflexivity |].
inversion Hall as [| ? ? Hr Hrs]; subst. cbn [filter]. rewrite Hr. cbn.
apply IH, Hrs.
Qed.

Lemma static_collisions_do_nothing_witness :
  Forall (fun r => isStatic (page_bodies wallsPage r) = true)
    (refs_of [(8, 9)]%nat) /\
  handleCollision [(8, 9)]%nat wallsPage = wallsPage.
Proof.
assert (Hall : Forall (fun r => isStatic (page_bodies wallsPage r) = true)
                 (refs_of [(8, 9)]%nat))
  by (repeat constructor).
split; [exact Hall |].
apply (static_collisions_do_nothing [(8, 9)]%nat wallsPage Hall).
Defined.

(** ** The renderer of components/physics-canvas.tsx *)

Lemma drawPolygon_empty (c : Ctx) (body : Body) :
  vertices body = [] -> drawPolygon c body = None.
Proof. intros H. unfold drawPolygon. now rewrite H. Qed.

Lemma renderBody_spec (c : Ctx) (body : Body) (d : Draws) :
  let body' := if needsColor body then colored (d 0%nat) body else body in
  let d' := if needsColor body then (fun n => d (S n)) else d in
  if isStatic body then renderBody c body d = (Some (c, body), d)
  else if unrenderable body then renderBody c body d = (None, d')
  else exists c',
         renderBody c body d = (Some (c', body'), d') /\
         ctm c' = ctm c /\ style c' = style c /\ saved c' = saved c /\
         exists s1 s2, drawn c' = s1 :: s2 :: drawn c.
Proof.
intros body' d'. unfold renderBody, needsColor, unrenderable in *.
destruct (isStatic body) eqn:Hs; [reflexivity |].
cbn [negb andb] in *.
assert (Hc : circleOf body' = circleOf body)
  by (unfold body'; destruct (falsy _); reflexivity).
assert (Hv : vertices body' = vertices body)
  by (unfold body'; destruct (falsy _); reflexivity).
assert (Hrun :
  (if falsy (fillStyle (render body))
   then u <- Math_random ;;
        ret (set_fillStyle body
               (array_get brutalistColors
                  (Math_floor (u * INR (List.length brutalistColors)))))
   else ret body) d = (body', d')).
{ unfold body', d', colored. destruct (falsy _); reflexivity. }
destruct (circleOf body) as [radius |] eqn:Hcirc.
- destruct (Rlt_dec radius 0) as [Hneg | Hpos].
  + unfold bind at 1. rewrite Hrun, Hc. unfold drawCircle, ctx_arc.
    destruct (Rlt_dec radius 0) as [_ | Hpos]; [reflexivity | contradiction].
  + unfold bind at 1. rewrite Hrun, Hc. unfold drawCircle, ctx_arc.
    destruct (Rlt_dec radius 0) as [Hneg | _]; [contradiction |].
    eexists. split; [reflexivity |]. cbn.
    repeat split. eexists. eexists. reflexivity.
- destruct (vertices body) as [| v0 rest] eqn:Hverts.
  + unfold bind at 1. rewrite Hrun, Hc.
    rewrite drawPolygon_empty by (rewrite Hv; reflexivity). reflexivity.
  + unfold bind at 1. rewrite Hrun, Hc.
    set (c4 := with_style _ _).
    destruct (drawPolygon_path c4 body')
      as (c' & Hdraw & Hctm & Hsty & Hsaved & Hdrawn);
      [rewrite Hv; discriminate |].
    rewrite Hdraw. eexists. split; [reflexivity |].
    unfold ctx_restore. rewrite Hsaved. cbn.
    repeat split. rewrite Hdrawn. eexists. eexists. reflexivity.
Qed.

Lemma brutalistColors_truthy (c : string) :
  In c brutalistColors -> falsy (Some c) = false.
Proof.
intros H. cbn in H.
repeat (destruct H as [<- | H]; [reflexivity |]). contradiction.
Qed.

Lemma colored_has_color (u : R) (b : Body) :
  0 <= u < 1 -> needsColor (colored u b) = false.
Proof.
intros Hu. unfold needsColor, colored.
destruct (palette_pick brutalistColors u Hu) as (k & c & Hk & Hget & _);
  [discriminate |].
rewrite Hget. cbn [set_fillStyle isStatic render fillStyle].
rewrite (brutalistColors_truthy c) by (eapply nth_error_In; exact Hk).
apply Bool.andb_false_r.
Qed.

Lemma recolored_refl (b : Body) : recolored b b.
Proof. split; [symmetry; apply set_fillStyle_same | reflexivity]. Qed.

Lemma recolored_step (u : R) (b : Body) :
  recolored b (if needsColor b then colored u b else b).
Proof.
destruct (needsColor b) eqn:E; [| apply recolored_refl].
split; [reflexivity | congruence].
Qed.

Ltac split_and := repeat match goal with |- _ /\ _ => split end.

Lemma renderBodies_spec (bodies : list Body) :
  forall (c : Ctx) (d : Draws),
    if existsb unrenderable bodies
    then fst (renderBodies c bodies d) = None
    else exists c' bodies' d',
           renderBodies c bodies d = (Some (c', bodies'), d') /\
           ctm c' = ctm c /\ style c' = style c /\ saved c' = saved c /\
           List.length (drawn c')
           = (List.length (drawn c)
              + 2 * List.length
                      (filter (fun b => negb (isStatic b)) bodies))%nat /\
           Forall2 recolored bodies bodies' /\
           (existsb needsColor bodies = false ->
            bodies' = bodies /\ d' = d) /\
           (unit_draws d ->
            unit_draws d' /\ existsb needsColor bodies' = false).
Proof.
induction bodies as [| body rest IH]; intros c d.
- cbn. exists c, [], d. split_and; auto.
- cbn [existsb renderBodies filter].
  pose proof (renderBody_spec c body d) as Hbody. cbv zeta in Hbody.
  assert (Hstat : isStatic body = true ->
                  unrenderable body = false /\ needsColor body = false).
  { intros H. unfold unrenderable, needsColor. now rewrite H. }
  destruct (isStatic body) eqn:Hs.
  + destruct (Hstat eq_refl) as [Hu Hn]. rewrite Hu, Hn. cbn [orb negb].
    specialize (IH c d).
    destruct (existsb unrenderable rest).
    * unfold bind at 1. rewrite Hbody. cbv beta iota.
      unfold bind. destruct (renderBodies c rest d) as [[[c' rest'] |] d'];
        [discriminate | reflexivity].
    * destruct IH as (c' & rest' & d' & Hrun & Hctm & Hsty & Hsaved & Hlen
                      & Hrel & Hsame & Hunit).
      exists c', (body :: rest'), d'.
      unfold bind at 1. rewrite Hbody. cbv beta iota.
      unfold bind. rewrite Hrun. unfold ret.
      split; [reflexivity |].
      split; [exact Hctm | split; [exact Hsty | split; [exact Hsaved |]]].
      split; [exact Hlen | split; [| split]].
      -- constructor; [apply recolored_refl | exact Hrel].
      -- intros H. destruct (Hsame H) as [-> ->]. auto.
      -- intros H. destruct (Hunit H) as [H1 H2]. split; [exact H1 |].
         cbn [existsb]. rewrite Hn. exact H2.
  + destruct (unrenderable body) eqn:Hu.
    * cbn [orb]. unfold bind at 1. rewrite Hbody. reflexivity.
    * cbn [orb negb].
      destruct Hbody
        as (c1 & Hrun1 & Hctm1 & Hsty1 & Hsaved1 & s1 & s2 & Hdrawn1).
      set (body' := if needsColor body then colored (d 0%nat) body else body)
        in *.
      set (d1 := if needsColor body then (fun n => d (S n)) else d) in *.
      specialize (IH c1 d1).
      destruct (existsb unrenderable rest).
      -- unfold bind at 1. rewrite Hrun1. cbv beta iota. unfold bind.
         destruct (renderBodies c1 rest d1) as [[[c' rest'] |] d'];
           [discriminate | reflexivity].
      -- destruct IH as (c' & rest' & d' & Hrun & Hctm & Hsty & Hsaved & Hlen
                         & Hrel & Hsame & Hunit).
         exists c', (body' :: rest'), d'.
         unfold bind at 1. rewrite Hrun1. cbv beta iota.
         unfold bind. rewrite Hrun.
         unfold ret. split; [reflexivity |].
         assert (Hd1 : unit_draws d -> unit_draws d1).
         { intros Hd. unfold d1. destruct (needsColor body);
             [apply unit_draws_tail |]; exact Hd. }
         split; [congruence | split; [congruence | split; [congruence |]]].
         split; [| split; [| split]].
         ++ rewrite Hlen, Hdrawn1. cbn [List.length]. lia.
         ++ constructor; [apply recolored_step | exact Hrel].
         ++ intros H. apply Bool.orb_false_iff in H. destruct H as [Hn Hrest].
            destruct (Hsame Hrest) as [-> ->].
            unfold body', d1. rewrite Hn. auto.
         ++ intros H. destruct (Hunit (Hd1 H)) as [H1 H2].
            split; [exact H1 |].
            cbn [existsb]. apply Bool.orb_false_iff. split; [| exact H2].
            unfold body'. destruct (needsColor body) eqn:Hn;
              [apply colored_has_color, H | exact Hn].
Qed.

Lemma unrenderable_iff (b : Body) :
  unrenderable b = true
  <-> isStatic b = false /\
      ((exists radius, circleOf b = Some radius /\ radius < 0) \/
       (circleOf b = None /\ vertices b = [])).
Proof.
unfold unrenderable.
destruct (isStatic b); cbn [negb andb].
- split; [discriminate | intros [H _]; discriminate].
- destruct (circleOf b) as [radius |].
  + destruct (Rlt_dec radius 0) as [Hneg | Hpos].
    * split; [| reflexivity]. intros _. split; [reflexivity |].
      left. exists radius. auto.
    * split; [discriminate |].
      intros [_ [(r & Hr & Hlt) | [Hr _]]]; [| discriminate].
      injection Hr as <-. contradiction.
  + destruct (vertices b).
    * split; [| reflexivity]. intros _. split; [reflexivity |].
      right. auto.
    * split; [discriminate |].
      intros [_ [(r & Hr & _) | [_ Hv]]]; discriminate.
Qed.

Lemma recolored_unrenderable (l l' : list Body) :
  Forall2 recolored l l' ->
  existsb unrenderable l' = existsb unrenderable l.
Proof.
induction 1 as [| b b' l l' [Hb _] _ IH]; [reflexivity |].
cbn [existsb]. rewrite IH. f_equal. rewrite Hb. reflexivity.
Qed.

Lemma renderFrame_spec (c : Ctx) (bodies : list Body) (d : Draws)
    (c' : Ctx) (bodies' : list Body) (d' : Draws) :
  renderFrame c bodies d = (Some (c', bodies'), d') ->
  existsb unrenderable bodies = false /\
  ctm c' = ctm c /\ style c' = style c /\ saved c' = saved c /\
  List.length (drawn c')
  = (2 * List.length (filter (fun b => negb (isStatic b)) bodies))%nat /\
  Forall2 recolored bodies bodies' /\
  (existsb needsColor bodies = false -> bodies' = bodies /\ d' = d) /\
  (unit_draws d -> unit_draws d' /\ existsb needsColor bodies' = false).
Proof.
unfold renderFrame. intros Hrun.
pose proof (renderBodies_spec bodies (ctx_clear c) d) as Hspec.
destruct (existsb unrenderable bodies).
- rewrite Hrun in Hspec. discriminate.
- destruct Hspec as (c1 & bodies1 & d1 & Hrun1 & Hrest).
  rewrite Hrun in Hrun1. injection Hrun1 as <- <- <-.
  split; [reflexivity | exact Hrest].
Qed.

(** A frame that can serve as an example: one polygon on a fresh
    context. *)
Lemma sample_frame :
  exists c',
    renderFrame freshCtx [uprightRectangle] (fun _ => 0)
    = (Some (c', [uprightRectangle]), fun _ => 0).
Proof.
pose proof (renderBodies_spec [uprightRectangle] (ctx_clear freshCtx)
              (fun _ => 0)) as Hspec.
change (existsb unrenderable [uprightRectangle]) with false in Hspec.
destruct Hspec as (c' & bodies' & d' & Hrun & _ & _ & _ & _ & _ & Hsame & _).
destruct (Hsame eq_refl) as [-> ->]. exists c'. exact Hrun.
Qed.

(** X20.  A frame leaves the canvas context as it found it: after
    [render] has gone through all bodies, the transformation matrix, the
    styles and the stack of saved states are those from before the frame,
    so the translations and rotations of one body never leak into the
    next body or the next frame. *)
Theorem render_restores_the_context
    (c : Ctx) (bodies : list Body) (d : Draws)
    (c' : Ctx) (bodies' : list Body) (d' : Draws) :
  renderFrame c bodies d = (Some (c', bodies'), d') ->
  ctm c' = ctm c /\ style c' = style c /\ saved c' = saved c.
Proof.
intros Hrun.
destruct (renderFrame_spec _ _ _ _ _ _ Hrun) as (_ & H1 & H2 & H3 & _).
auto.
Qed.

Lemma render_restores_the_context_witness :
  exists c',
    renderFrame freshCtx [uprightRectangle] (fun _ => 0)
    = (Some (c', [uprightRectangle]), fun _ => 0) /\
    ctm c' = ctm freshCtx.
Proof.
destruct sample_frame as (c' & Hrun). exists c'. split; [exact Hrun |].
apply (render_restores_the_context _ _ _ _ _ _ Hrun).
Defined.

(** X21.  A frame starts from a cleared canvas and draws exactly two
    shapes for every non-static body, its fill and its stroke, and none
    for a static body. *)
Theorem render_draws_fill_and_stroke_per_body
    (c : Ctx) (bodies : list Body) (d : Draws)
    (c' : Ctx) (bodies' : list Body) (d' : Draws) :
  renderFrame c bodies d = (Some (c', bodies'), d') ->
  List.length (drawn c')
  = (2 * List.length (filter (fun b => negb (isStatic b)) bodies))%nat.
Proof.
intros Hrun.
destruct (renderFrame_spec _ _ _ _ _ _ Hrun) as (_ & _ & _ & _ & H & _).
exact H.
Qed.

Lemma render_draws_fill_and_stroke_per_body_witness :
  exists c',
    renderFrame freshCtx [uprightRectangle] (fun _ => 0)
    = (Some (c', [uprightRectangle]), fun _ => 0) /\
    List.length (drawn c') = 2%nat.
Proof.
destruct sample_frame as (c' & Hrun). exists c'. split; [exact Hrun |].
apply (render_draws_fill_and_stroke_per_body _ _ _ _ _ _ Hrun).
Defined.

(** X22.  [render] throws exactly when the world holds a non-static body
    that either has a truthy [circleRadius] that is negative ([ctx.arc]
    raises an [IndexSizeError]) or has no truthy [circleRadius] and an empty
    vertex list (it reads [vertices[0].x]); on every other world, including
    the empty one, it completes the frame. *)
Theorem render_fails_only_on_a_bad_circle_or_no_vertices
    (c : Ctx) (bodies : list Body) (d : Draws) :
  fst (renderFrame c bodies d) = None
  <-> Exists (fun b => isStatic b = false /\
                       ((exists radius,
                           circleOf b = Some radius /\ radius < 0) \/
                        (circleOf b = None /\ vertices b = []))) bodies.
Proof.
unfold renderFrame.
pose proof (renderBodies_spec bodies (ctx_clear c) d) as Hspec.
assert (Hex : existsb unrenderable bodies = true
              <-> Exists (fun b => isStatic b = false /\
                                   ((exists radius,
                                       circleOf b = Some radius /\
                                       radius < 0) \/
                                    (circleOf b = None /\ vertices b = [])))
                    bodies).
{ rewrite existsb_exists, Exists_exists.
  split; intros (b & Hb & H); exists b; (split; [exact Hb |]);
    now apply unrenderable_iff. }
rewrite <- Hex.
destruct (existsb unrenderable bodies).
- tauto.
- destruct Hspec as (c1 & bodies1 & d1 & Hrun & _). rewrite Hrun. cbn.
  split; discriminate.
Qed.

Lemma recolored_physicalState (l l' : list Body) :
  Forall2 recolored l l' -> map physicalState l' = map physicalState l.
Proof.
induction 1 as [| b b' l l' [Hb _] _ IH]; [reflexivity |].
cbn [map]. rewrite IH. f_equal. rewrite Hb. reflexivity.
Qed.

(** X23.  The renderer never moves anything: after a frame every body has
    the physical state it had (static flag, position, angle, velocity,
    force, torque, shape and coefficients); at most the fill style of a
    non-static body whose fill style was missing has been set.  When no
    body lacks a fill style the bodies are exactly as before and no random
    number is drawn. *)
Theorem render_never_touches_physics
    (c : Ctx) (bodies : list Body) (d : Draws)
    (c' : Ctx) (bodies' : list Body) (d' : Draws) :
  renderFrame c bodies d = (Some (c', bodies'), d') ->
  map physicalState bodies' = map physicalState bodies /\
  Forall2 recolored bodies bodies' /\
  (existsb needsColor bodies = false -> bodies' = bodies /\ d' = d).
Proof.
intros Hrun.
destruct (renderFrame_spec _ _ _ _ _ _ Hrun)
  as (_ & _ & _ & _ & _ & Hrel & Hsame & _).
split; [apply recolored_physicalState, Hrel | auto].
Qed.

Lemma render_never_touches_physics_witness :
  exists c',
    renderFrame freshCtx [uprightRectangle] (fun _ => 0)
    = (Some (c', [uprightRectangle]), fun _ => 0) /\
    map physicalState [uprightRectangle] = map physicalState [uprightRectangle].
Proof.
destruct sample_frame as (c' & Hrun). exists c'. split; [exact Hrun |].
apply (render_never_touches_physics _ _ _ _ _ _ Hrun).
Defined.

(** X24.  The random fill colour is given once.  After one completed frame
    (on draws in [[0,1)]) every non-static body has a colour, so any later
    frame completes too, leaves the bodies exactly as they are and draws
    no random number. *)
Theorem render_colours_bodies_once
    (c : Ctx) (bodies : list Body) (d : Draws)
    (c1 : Ctx) (bodies1 : list Body) (d1 : Draws) (c2 : Ctx) :
  unit_draws d ->
  renderFrame c bodies d = (Some (c1, bodies1), d1) ->
  existsb needsColor bodies1 = false /\
  exists c3, renderFrame c2 bodies1 d1 = (Some (c3, bodies1), d1).
Proof.
intros Hd Hrun.
destruct (renderFrame_spec _ _ _ _ _ _ Hrun)
  as (Hok & _ & _ & _ & _ & Hrel & _ & Hunit).
destruct (Hunit Hd) as [Hd1 Hcol]. split; [exact Hcol |].
unfold renderFrame.
pose proof (renderBodies_spec bodies1 (ctx_clear c2) d1) as Hspec.
rewrite (recolored_unrenderable _ _ Hrel), Hok in Hspec.
destruct Hspec as (c3 & bodies3 & d3 & Hrun3 & _ & _ & _ & _ & _ & Hsame & _).
destruct (Hsame Hcol) as [-> ->]. exists c3. exact Hrun3.
Qed.

Lemma render_colours_bodies_once_witness :
  unit_draws (fun _ => 0) /\
  exists c',
    renderFrame freshCtx [uprightRectangle] (fun _ => 0)
    = (Some (c', [uprightRectangle]), fun _ => 0) /\
    existsb needsColor [uprightRectangle] = false.
Proof.
split; [exact zero_draws_unit |].
destruct sample_frame as (c' & Hrun). exists c'. split; [exact Hrun |].
apply (render_colours_bodies_once _ _ _ _ _ _ freshCtx zero_draws_unit Hrun).
Defined.

(** X25.  A circle is drawn where the body is.  For a non-static body with
    a fill colour and a positive circle radius, [render] fills and strokes
    one full arc whose centre is mapped to [body.position]; the point of
    the arc at parameter [t] is the point of the circle of that radius
    about [body.position] at angle [t + body.angle].  (With a negative
    radius [ctx.arc] throws instead.) *)
Theorem circle_is_drawn_around_the_body
    (body : Body) (radius : R) (d : Draws) (t : R) :
  isStatic body = false -> falsy (fillStyle (render body)) = false ->
  circleOf body = Some radius -> 0 < radius ->
  (forall c, drawCircle c (- radius) = None) /\
  exists c' m st,
    renderBody freshCtx body d = (Some (c', body), d) /\
    drawn c'
    = [ Stroked [Arc m 0 0 radius 0 (PI * 2)] st;
        Filled [Arc m 0 0 radius 0 (PI * 2)] st ] /\
    transform m (Vector.mk 0 0) = position body /\
    transform m (Vector.mk (0 + radius * cos t) (0 + radius * sin t))
    = Vector.mk (Vector.x (position body) + radius * cos (t + angle body))
                (Vector.y (position body) + radius * sin (t + angle body)).
Proof.
intros Hdyn Hfill Hcircle Hpos.
split.
{ intros c. unfold drawCircle, ctx_arc.
  destruct (Rlt_dec (- radius) 0) as [_ | Hge]; [reflexivity | lra]. }
destruct (renderBody_circle body radius d Hdyn Hfill Hcircle Hpos)
  as (c' & Hrun & Hdrawn & Hcentre).
exists c', (bodyMatrix freshCtx body), (bodyStyle (fillStyle (render body))).
split; [exact Hrun | split; [exact Hdrawn | split; [exact Hcentre |]]].
unfold transform, bodyMatrix, rotated, translated. cbn.
rewrite cos_plus, sin_plus. f_equal; ring.
Qed.

Lemma circle_is_drawn_around_the_body_witness :
  isStatic (sampleStore 0%nat) = false /\
  falsy (fillStyle (render (sampleStore 0%nat))) = false /\
  exists r, circleOf (sampleStore 0%nat) = Some r /\ 0 < r /\
  exists c' m st,
    renderBody freshCtx (sampleStore 0%nat) (fun _ => 0)
    = (Some (c', sampleStore 0%nat), fun _ => 0) /\
    drawn c'
    = [ Stroked [Arc m 0 0 r 0 (PI * 2)] st;
        Filled [Arc m 0 0 r 0 (PI * 2)] st ] /\
    transform m (Vector.mk 0 0) = position (sampleStore 0%nat) /\
    transform m (Vector.mk (0 + r * cos 0) (0 + r * sin 0))
    = Vector.mk
        (Vector.x (position (sampleStore 0%nat))
         + r * cos (0 + angle (sampleStore 0%nat)))
        (Vector.y (position (sampleStore 0%nat))
         + r * sin (0 + angle (sampleStore 0%nat))).
Proof.
assert (Hc : circleOf (sampleStore 0%nat) = Some 30).
{ unfold circleOf, sampleStore, sampleBody. cbn.
  destruct (Req_dec_T 30 0) as [H | _]; [lra | reflexivity]. }
split; [reflexivity |]. split; [reflexivity |].
assert (Hpos : 0 < 30) by lra.
exists 30. split; [exact Hc |]. split; [exact Hpos |].
apply (circle_is_drawn_around_the_body (sampleStore 0%nat) 30 (fun _ => 0) 0
         eq_refl eq_refl Hc Hpos).
Defined.

Lemma turnedAbout_zero (centre v : Vector.t) : turnedAbout centre 0 v = v.
Proof.
unfold turnedAbout. rewrite cos_0, sin_0. destruct v as [vx vy]. cbn.
f_equal; ring.
Qed.

(** X26.  A polygon that is not turned is drawn exactly on its vertices:
    for a non-static polygon body with a fill colour and angle 0, the path
    that [render] fills and strokes visits the body's world-space vertices
    in order.  At any angle, each drawn point is as far from
    [body.position] as the vertex it comes from. *)
Theorem unturned_polygon_is_drawn_on_its_vertices
    (body : Body) (d : Draws) :
  isStatic body = false -> falsy (fillStyle (render body)) = false ->
  circleOf body = None -> vertices body <> [] ->
  exists c' path st,
    renderBody freshCtx body d = (Some (c', body), d) /\
    drawn c' = [Stroked path st; Filled path st] /\
    (angle body = 0 -> pathPoints path = vertices body) /\
    List.length (pathPoints path) = List.length (vertices body) /\
    forall i v q,
      nth_error (vertices body) i = Some v ->
      nth_error (pathPoints path) i = Some q ->
      Rsqr (Vector.x q - Vector.x (position body))
      + Rsqr (Vector.y q - Vector.y (position body))
      = Rsqr (Vector.x v - Vector.x (position body))
        + Rsqr (Vector.y v - Vector.y (position body)).
Proof.
intros Hdyn Hfill Hpoly Hne.
destruct (renderBody_polygon body d Hdyn Hfill Hpoly Hne)
  as (c' & Hrun & _ & Hdrawn & Hpoints).
exists c', (polygonPath (bodyMatrix freshCtx body) body),
  (bodyStyle (fillStyle (render body))).
split; [exact Hrun | split; [exact Hdrawn | split; [| split]]].
- intros Hangle. rewrite Hpoints, Hangle.
  rewrite (map_ext _ (fun v => v)) by (intros v; apply turnedAbout_zero).
  apply map_id.
- rewrite Hpoints. apply length_map.
- intros i v q Hv Hq. rewrite Hpoints, nth_error_map, Hv in Hq.
  injection Hq as <-. unfold turnedAbout. cbn [Vector.x Vector.y].
  pose proof (sin2_cos2 (angle body)) as Hsc. unfold Rsqr in *.
  set (dx := Vector.x v - Vector.x (position body)).
  set (dy := Vector.y v - Vector.y (position body)).
  set (cs := cos (angle body)) in *. set (sn := sin (angle body)) in *.
  replace ((Vector.x (position body) + (cs * dx - sn * dy)
            - Vector.x (position body))
           * (Vector.x (position body) + (cs * dx - sn * dy)
              - Vector.x (position body))
           + (Vector.y (position body) + (sn * dx + cs * dy)
              - Vector.y (position body))
             * (Vector.y (position body) + (sn * dx + cs * dy)
                - Vector.y (position body)))
    with ((sn * sn + cs * cs) * (dx * dx + dy * dy)) by ring.
  rewrite Hsc. ring.
Qed.

Lemma unturned_polygon_is_drawn_on_its_vertices_witness :
  isStatic uprightRectangle = false /\
  falsy (fillStyle (render uprightRectangle)) = false /\
  circleOf uprightRectangle = None /\ vertices uprightRectangle <> [] /\
  exists c' path st,
    renderBody freshCtx uprightRectangle (fun _ => 0)
    = (Some (c', uprightRectangle), fun _ => 0) /\
    drawn c' = [Stroked path st; Filled path st] /\
    List.length (pathPoints path) = 4%nat.
Proof.
split; [reflexivity |]. split; [reflexivity |]. split; [reflexivity |].
split; [discriminate |].
destruct (unturned_polygon_is_drawn_on_its_vertices uprightRectangle
            (fun _ => 0) eq_refl eq_refl eq_refl ltac:(discriminate))
  as (c' & path & st & Hrun & Hdrawn & _ & Hlen & _).
exists c', path, st. auto.
Defined.

(** ** The toggle and the page *)

Lemma handleClick_ok (now : nat) (a : App) :
  toggle_ok a ->
  toggle_ok (handleClick now a) /\
  pendingResets (handleClick now a) = [(nextTimer a, now + 300)%nat].
Proof.
intros [Hnext [(Hact & Href & Hq) | (id & due & Hact & Href & Hq & Hid)]];
  unfold handleClick; rewrite Href, Hq.
- unfold toggle_ok. cbn. split; [| reflexivity]. split; [lia |]. right.
  exists (nextTimer a), (now + 300)%nat.
  repeat split; try reflexivity; lia.
- destruct (Nat.eqb_spec id 0) as [? | _]; [lia |].
  unfold clearTimeout. cbn [filter fst]. rewrite Nat.eqb_refl.
  unfold toggle_ok. cbn.
  split; [| reflexivity]. split; [lia |]. right.
  exists (nextTimer a), (now + 300)%nat.
  repeat split; try reflexivity; lia.
Qed.

Lemma elapse_ok (now : nat) (a : App) :
  toggle_ok a ->
  toggle_ok (elapse now a) /\
  page_spawnCount (elapse now a) = page_spawnCount a.
Proof.
intros [Hnext [(Hact & Href & Hq) | (id & due & Hact & Href & Hq & Hid)]];
  unfold elapse; rewrite Hq; cbn [filter snd map fold_left].
- split; [| reflexivity]. split; [exact Hnext |]. left. auto.
- destruct (due <=? now)%nat; cbn [map fst fold_left].
  + unfold resetToggle. rewrite Hq. unfold clearTimeout. cbn [filter fst].
    rewrite Nat.eqb_refl. cbn. split; [| reflexivity].
    split; [exact Hnext |]. left. auto.
  + split; [| reflexivity]. split; [exact Hnext |]. right.
    exists id, due. auto.
Qed.

Lemma runApp_ok (evs : list AppEvent) :
  forall a count,
    toggle_ok a -> page_spawnCount a = count ->
    toggle_ok (fold_left app_step evs a) /\
    page_spawnCount (fold_left app_step evs a) = (count + clicks evs)%nat.
Proof.
induction evs as [| ev evs IH]; intros a count Hok Hcount.
- cbn. split; [exact Hok | unfold clicks; cbn; lia].
- cbn [fold_left]. destruct ev as [now | now]; cbn [app_step].
  + destruct (IH (handleClick now a) (S count)) as [H1 H2].
    * apply handleClick_ok, Hok.
    * cbn. unfold handleSpawn. lia.
    * split; [exact H1 |]. rewrite H2. unfold clicks. cbn. lia.
  + destruct (elapse_ok now a Hok) as [Hok' Hsame].
    destruct (IH (elapse now a) count Hok') as [H1 H2]; [congruence |].
    split; [exact H1 |]. rewrite H2. unfold clicks. cbn. lia.
Qed.

Lemma initialApp_ok : toggle_ok initialApp.
Proof. split; [cbn; lia |]. left. auto. Qed.

(** X27.  Through any sequence of clicks and passing time, [spawnCount]
    is the number of clicks so far (every click asks for exactly one
    spawn), at most one reset of the toggle is pending, and the toggle is
    shown active exactly while a reset is pending. *)
Theorem toggle_counts_clicks_and_keeps_one_timer (evs : list AppEvent) :
  page_spawnCount (runApp evs) = clicks evs /\
  (List.length (pendingResets (runApp evs)) <= 1)%nat /\
  (isActive (runApp evs) = true <-> pendingResets (runApp evs) <> []) /\
  (isActive (runApp evs) = true <-> timeoutRef (runApp evs) <> None).
Proof.
destruct (runApp_ok evs initialApp 0 initialApp_ok eq_refl)
  as [[_ Hok] Hcount].
fold (runApp evs) in *.
split; [exact Hcount |].
destruct Hok as [(Hact & Href & Hq) | (id & due & Hact & Href & Hq & _)];
  rewrite Hact, Href, Hq; cbn.
- split; [lia |]. split; split; intros H; congruence.
- split; [lia |]. split; split; intros H; congruence.
Qed.

(** X28.  The toggle switches itself off 300 ms after the last click: from
    any state the events can reach, a click at time [t] makes it active,
    it is still active at every time before [t + 300] and inactive, with
    nothing pending, from [t + 300] on, whatever was clicked before. *)
Theorem toggle_resets_300ms_after_last_click
    (evs : list AppEvent) (t now : nat) :
  let a := handleClick t (runApp evs) in
  isActive a = true /\
  isActive (elapse now a) = (now <? t + 300)%nat /\
  ((t + 300 <= now)%nat ->
   pendingResets (elapse now a) = [] /\ timeoutRef (elapse now a) = None).
Proof.
intros a.
destruct (runApp_ok evs initialApp 0 initialApp_ok eq_refl) as [Hok _].
fold (runApp evs) in Hok.
destruct (handleClick_ok t (runApp evs) Hok) as [_ Hq]. fold a in Hq.
split; [reflexivity |].
unfold elapse. rewrite Hq. cbn [filter snd].
destruct (Nat.leb_spec (t + 300) now) as [Hle | Hlt];
  destruct (Nat.ltb_spec now (t + 300)) as [Hlt' | Hle']; try lia.
- cbn [map fst fold_left]. unfold resetToggle. rewrite Hq.
  unfold clearTimeout. cbn [filter fst]. rewrite Nat.eqb_refl. cbn.
  auto.
- cbn [map fold_left]. split; [reflexivity | intros; lia].
Qed.

Lemma toggle_resets_300ms_after_last_click_witness :
  (0 + 300 <= 300)%nat /\
  pendingResets (elapse 300 (handleClick 0 (runApp [Clicked 0]))) = [].
Proof.
split; [lia |].
apply (toggle_resets_300ms_after_last_click [Clicked 0] 0 300). lia.
Defined.

(** ** How set-up, factories, renderer and culling fit together *)

(** X29.  The three boundary walls are invisible and permanent: a frame
    over them draws nothing, changes nothing and makes no draw, and the
    culling check, at any configuration and height, keeps all three. *)
Theorem walls_are_invisible_and_permanent
    (matter_vertices : Geometry -> Vector.t -> R -> list Vector.t)
    (cfg : Configuration) (width height culled_at : nat)
    (c : Ctx) (d : Draws) :
  let ws := walls matter_vertices width height in
  renderFrame c ws d = (Some (ctx_clear c, ws), d) /\
  cullOffscreenBodies cfg culled_at ws = ws /\
  List.length ws = 3%nat.
Proof.
intros ws. split; [reflexivity | split; [| reflexivity]].
apply culling_is_a_filter_fixed.
repeat constructor.
Qed.

Lemma COLORS_truthy (c : string) : In c COLORS -> falsy (Some c) = false.
Proof.
intros H. cbn in H.
repeat (destruct H as [<- | H]; [reflexivity |]). contradiction.
Qed.

(** X30.  The random-colour fallback of [render] never applies to a body
    made by the shape factory: such a body already has a palette colour,
    so drawing it, when it has a circle radius that is not negative or at
    least one vertex, succeeds, leaves the body as it is and uses no random
    number. *)
Theorem factory_bodies_keep_their_colour
    (b : Body) (c : Ctx) (d : Draws) :
  factoryMade b -> unrenderable b = false ->
  needsColor b = false /\
  exists c', renderBody c b d = (Some (c', b), d) /\ ctm c' = ctm c.
Proof.
intros Hmade Hok.
assert (Hdyn : isStatic b = false) by apply Hmade.
assert (Hn : needsColor b = false).
{ destruct Hmade as (_ & _ & _ & _ & _ & _ & _ & _ & (col & Hfill & Hin) & _).
  unfold needsColor. rewrite Hfill, (COLORS_truthy col Hin).
  apply Bool.andb_false_r. }
split; [exact Hn |].
pose proof (renderBody_spec c b d) as Hspec. cbv zeta in Hspec.
rewrite Hdyn, Hok, Hn in Hspec.
destruct Hspec as (c' & Hrun & Hctm & _). exists c'. auto.
Qed.

Lemma factory_bodies_keep_their_colour_witness :
  factoryMade (sampleStore 0%nat) /\ unrenderable (sampleStore 0%nat) = false /\
  needsColor (sampleStore 0%nat) = false.
Proof.
assert (Hmade : factoryMade (sampleStore 0%nat)).
{ unfold factoryMade, sampleStore, sampleBody. cbn.
  repeat split; try reflexivity. exists "#FF00FF"%string. auto. }
assert (Hok : unrenderable (sampleStore 0%nat) = false).
{ unfold unrenderable, circleOf, sampleStore, sampleBody. cbn.
  destruct (Req_dec_T 30 0) as [H | _]; [lra |].
  destruct (Rlt_dec 30 0) as [H | _]; [lra | reflexivity]. }
split; [exact Hmade |]. split; [exact Hok |].
apply (factory_bodies_keep_their_colour (sampleStore 0%nat) freshCtx
         (fun _ => 0) Hmade Hok).
Defined.
